(** * int4 weight packing and the tiled dequantising GEMM kernel

    A shallow embedding of [aten/src/ATen/native/cpu/int4mm_kernel.cpp]:
    the weight packer [weight_to_int4pack_kernel], the tile kernel
    [tinygemm_kernel] and the tile scheduler [int4pack_mm_kernel].

    Conventions.
    - A C [int] is a [Z]; the development stays inside the range where
      signed arithmetic does not overflow (overflow is undefined in C).
      C's [/] and [%] are [Z.quot] and [Z.rem].
    - A [uint8_t] is a [Z] in [0, 256); the casts and the store into a
      [uint8_t] are written out as [mod 256].
    - A raw pointer is a buffer together with an offset ([ptr]); the
      output buffer is threaded as state.  C leaves out-of-range accesses
      undefined: here a load out of range yields a default and a store out
      of range does nothing, and the theorems carry the buffer lengths
      under which every access is in range. *)

From Stdlib Require Import ZArith Lia.
From Stdlib Require Import Floats.SpecFloat.
From stdpp Require Import base list list_numbers strings pretty.

Local Open Scope Z_scope.

(** ** Buffers and pointers *)

Section Buffers.
Context {X : Type} `{!Inhabited X}.

Definition load (p : list X) (i : Z) : X :=
  if bool_decide (0 ≤ i) then p !!! Z.to_nat i else inhabitant.

Definition store (p : list X) (i : Z) (x : X) : list X :=
  if bool_decide (0 ≤ i) then <[Z.to_nat i := x]> p else p.

Record ptr := Ptr { ptr_mem : list X; ptr_off : Z }.

(** [p + n] *)
Definition ptr_add (p : ptr) (n : Z) : ptr :=
  Ptr (ptr_mem p) (ptr_off p + n).

(** [p[i]] *)
Definition ptr_get (p : ptr) (i : Z) : X :=
  load (ptr_mem p) (ptr_off p + i).
End Buffers.

Global Arguments ptr : clear implicits.

(** [c10::irange(n)]: 0, 1, ..., n-1 (empty when [n <= 0]). *)
Definition irange (n : Z) : list Z := seqZ 0 n.

(** [c10::irange(b, e)]: b, b+1, ..., e-1. *)
Definition irange2 (b e : Z) : list Z := seqZ b (e - b).

(** The values of [n] in [for (int n = 0; n < stop; n += 2)]. *)
Definition irange_by2 (stop : Z) : list Z :=
  Z.mul 2 <$> seqZ 0 ((stop + 1) `quot` 2).

(** ** Floating point interface

    The kernel computes in [float] and stores [BFloat16].  The arithmetic
    is kept abstract (one instance, IEEE binary32 with bfloat16 storage, is
    given below), so a statement proved here holds however the operations
    round. *)

Class FloatOps := {
  float : Type;
  BFloat16 : Type;
  (** the [float] of an [int]; also the literals with an integral value,
      [-8.0f], ..., [7.0f] and [0] *)
  float_of_int : Z → float;
  fmul : float → float → float;
  fadd : float → float → float;
  (** [_mm512_fmadd_ps] / [_mm256_fmadd_ps] on one lane: [a * b + c] *)
  fmadd : float → float → float → float;
  (** [static_cast<float>(BFloat16)] *)
  bf16_to_float : BFloat16 → float;
  (** the narrowing conversion [BFloat16(float)] *)
  float_to_bf16 : float → BFloat16;
}.

Section Kernel.
Context `{FloatOps}.

#[global] Instance float_inhabited : Inhabited float := populate (float_of_int 0).
#[global] Instance BFloat16_inhabited : Inhabited BFloat16 :=
  populate (float_to_bf16 (float_of_int 0)).

(** ** Capability selection *)

Inductive cpu_capability := AVX512 | AVX2 | DEFAULT.

(** Modelled from the spec: [vec::Vectorized<float>::size()], which is not
    part of the kernel file; the file's own comment gives the products
    ("64 for avx512 and 32 for avx2/non-vectorized"). *)
Definition vec_size (cap : cpu_capability) : Z :=
  match cap with AVX512 => 16 | AVX2 => 8 | DEFAULT => 8 end.

(** [constexpr int BLOCK_N = vec::Vectorized<float>::size() * 4] *)
Definition BLOCK_N (cap : cpu_capability) : Z := vec_size cap * 4.

(** [constexpr int BLOCK_M = 4] *)
Definition BLOCK_M : Z := 4.

(** ** [is_block_start] *)

Definition is_block_start (index BLOCK_SIZE : Z) : bool :=
  Z.land index (BLOCK_SIZE - 1) =? 0.

(** ** The weight packer *)

(** [(uint8_t)(val)] *)
Definition to_uint8 (val : Z) : Z := val `mod` 256.

(** [uint8_t packed = (((uint8_t)(val1) << 4)) | ((uint8_t)(val0))]:
    the operands are promoted to [int], the result is narrowed again. *)
Definition pack_nibbles (val0 val1 : Z) : Z :=
  to_uint8 (Z.lor (Z.shiftl (to_uint8 val1) 4) (to_uint8 val0)).

(** The body of the [k] loop for a full block of the AVX512 build. *)
Definition pack_full_avx512 (src : ptr Z) (K k dst : Z) (out : list Z) : list Z :=
  foldl (λ out d,
    let val0 := ptr_get src ((d + 0) * K + k) in
    let val1 := ptr_get src ((d + 16) * K + k) in
    let val2 := ptr_get src ((d + 32) * K + k) in
    let val3 := ptr_get src ((d + 48) * K + k) in
    let packed02 := pack_nibbles val0 val2 in
    let packed13 := pack_nibbles val1 val3 in
    let out := store out (dst + (k * 32 + d)) packed02 in
    store out (dst + (k * 32 + 16 + d)) packed13)
  out (irange 16).

(** The body of the [k] loop for a full block of the AVX2 build. *)
Definition pack_full_avx2 (src : ptr Z) (K k dst : Z) (out : list Z) : list Z :=
  foldl (λ out d,
    let val0 := ptr_get src ((d + 0) * K + k) in
    let val1 := ptr_get src ((d + 16) * K + k) in
    let packed01 := pack_nibbles val0 val1 in
    store out (dst + (k * 16 + d)) packed01)
  out (irange 16).

(** The adjacent-pair loop, shared by the remainder blocks of the vector
    builds and by every block of the non-vectorized build. *)
Definition pack_adjacent (src : ptr Z) (K k nb_size dst : Z) (out : list Z) : list Z :=
  foldl (λ out n,
    let val0 := ptr_get src (n * K + k) in
    let val1 := ptr_get src (n * K + K + k) in
    let packed := pack_nibbles val0 val1 in
    store out (dst + ((k * nb_size) `quot` 2 + n `quot` 2)) packed)
  out (irange_by2 nb_size).

(** The preprocessor branches inside the [k] loop. *)
Definition pack_row (cap : cpu_capability) (src : ptr Z) (K k nb_size dst : Z)
    (out : list Z) : list Z :=
  match cap with
  | AVX512 =>
      if nb_size =? BLOCK_N AVX512 then pack_full_avx512 src K k dst out
      else pack_adjacent src K k nb_size dst out
  | AVX2 =>
      if nb_size =? BLOCK_N AVX2 then pack_full_avx2 src K k dst out
      else pack_adjacent src K k nb_size dst out
  | DEFAULT => pack_adjacent src K k nb_size dst out
  end.

(** One iteration [i] of the loop over the N blocks. *)
Definition pack_block (cap : cpu_capability) (weight_data : list Z) (N K i : Z)
    (out : list Z) : list Z :=
  let nb_size := Z.min (BLOCK_N cap) (N - i * BLOCK_N cap) in
  let src := Ptr weight_data (i * BLOCK_N cap * K) in
  let dst := (i * K * BLOCK_N cap) `quot` 2 in
  foldl (λ out k, pack_row cap src K k nb_size dst out) out (irange K).

(** [weight_to_int4pack_kernel]: the blocks are independent, so the
    parallel loop over [0, NB) is run in index order. *)
Definition weight_to_int4pack_kernel (cap : cpu_capability)
    (weight_packed_data : list Z) (weight_data : list Z) (N K : Z) : list Z :=
  let NB := (N + BLOCK_N cap - 1) `quot` BLOCK_N cap in
  foldl (λ out i, pack_block cap weight_data N K i out)
    weight_packed_data (irange2 0 NB).

(** ** The output buffer

    The state threaded through the kernels: the contents of [C], and the
    indices stored to so far, in the order of the stores (a ghost log). *)

Record out_buf := OutBuf { C_data : list BFloat16; C_writes : list Z }.

(** [C[i] = v] *)
Definition store_C (st : out_buf) (i : Z) (v : BFloat16) : out_buf :=
  OutBuf (store (C_data st) i v) (C_writes st ++ [i]).

(** A vector store of consecutive elements to [C + i]. *)
Definition storeu_C (st : out_buf) (i : Z) (vs : list BFloat16) : out_buf :=
  foldl (λ st jv, store_C st (i + Z.of_nat jv.1) jv.2) st (imap pair vs).

(** ** The non-vectorized tile kernel *)

Definition lut : list float :=
  float_of_int <$> [-8; -7; -6; -5; -4; -3; -2; -1; 0; 1; 2; 3; 4; 5; 6; 7].

Definition convert_int4_to_float (a : Z) (is_even : bool) : float :=
  let index := if is_even then Z.land a 15 else Z.shiftr a 4 in
  load lut index.

(** [convert_int4_to_float(B[k * ldb + n / 2], n % 2 == 0)] *)
Definition scalar_unpack (B : ptr Z) (ldb k n : Z) : float :=
  let b_pack := ptr_get B (k * ldb + n `quot` 2) in
  convert_int4_to_float b_pack (n `rem` 2 =? 0).

(** One [k] step of the innermost loop: the new [c_val]. *)
Definition scalar_step (A : ptr BFloat16) (B : ptr Z) (ScaleAndZeros : ptr BFloat16)
    (lda ldb ldc BLOCK_K m n : Z) (c_val : float) (k : Z) : float :=
  let kb := k `quot` BLOCK_K in
  let scale := bf16_to_float (ptr_get ScaleAndZeros (kb * ldc * 2 + n * 2)) in
  let zero := bf16_to_float (ptr_get ScaleAndZeros (kb * ldc * 2 + n * 2 + 1)) in
  let a_val := bf16_to_float (ptr_get A (m * lda + k)) in
  let b_val := scalar_unpack B ldb k n in
  let b_val := fadd (fmul b_val scale) zero in
  fadd c_val (fmul a_val b_val).

Definition tinygemm_kernel_scalar (MB_SIZE NB_SIZE : Z)
    (A : ptr BFloat16) (B : ptr Z) (ScaleAndZeros : ptr BFloat16) (C : Z)
    (lda ldb ldc K BLOCK_K : Z) (st : out_buf) : out_buf :=
  foldl (λ st m,
    foldl (λ st n,
      let c_val :=
        foldl (scalar_step A B ScaleAndZeros lda ldb ldc BLOCK_K m n)
          (float_of_int 0) (irange K) in
      store_C st (C + (m * ldc + n)) (float_to_bf16 c_val))
    st (irange NB_SIZE))
  st (irange MB_SIZE).

(** ** Vector registers

    An integer register ([__m128i], [__m256i], [__m512i]) is the list of
    its bytes, lowest first; its lanes are little-endian groups of bytes.
    A float register is the list of its lanes.  Prefetches have no effect
    on the values and are left out. *)

Definition le_join (bs : list Z) : Z := foldr (λ b acc, b + 256 * acc) 0 bs.

Fixpoint le_split (w : nat) (x : Z) : list Z :=
  match w with
  | O => []
  | S w' => x `mod` 256 :: le_split w' (x `div` 256)
  end.

(** The [n] lanes of [w] bytes each of a register, and back. *)
Definition lanes (w n : nat) (v : list Z) : list Z :=
  (λ i, le_join (take w (drop (i * w)%nat v))) <$> seq 0 n.

Definition unlanes (w : nat) (xs : list Z) : list Z := xs ≫= le_split w.

(** [n] consecutive elements starting at [p]. *)
Definition vload {X} `{!Inhabited X} (p : ptr X) (n : Z) : list X :=
  ptr_get p <$> irange n.

(** [c10::ForcedUnroll<n>{}(f, args...)]: [f(0, args...)], ...,
    [f(n-1, args...)] in this order. *)
Definition ForcedUnroll {S} (n : Z) (f : Z → S → S) (s : S) : S :=
  foldl (λ s i, f i s) s (irange n).

Definition _mm_loadu_si64 (p : ptr Z) : list Z := vload p 8 ++ replicate 8 0.
Definition _mm_load_si128 (p : ptr Z) : list Z := vload p 16.
Definition _mm256_load_si256 (p : ptr Z) : list Z := vload p 32.
Definition _mm_set1_epi8 (a : Z) : list Z := replicate 16 (a `mod` 256).
Definition _mm256_set1_epi32 (a : Z) : list Z := unlanes 4 (replicate 8 a).
Definition _mm_and_si128 (a b : list Z) : list Z := zip_with Z.land a b.
Definition _mm256_and_si256 (a b : list Z) : list Z := zip_with Z.land a b.
Definition _mm_or_si128 (a b : list Z) : list Z := zip_with Z.lor a b.
(** [(~a) & b] *)
Definition _mm_andnot_si128 (a b : list Z) : list Z :=
  zip_with (λ x y, Z.land (Z.lxor x 255) y) a b.
Definition _mm_cvtepu8_epi16 (a : list Z) : list Z := unlanes 2 (take 8 a).
Definition _mm256_cvtepu8_epi32 (a : list Z) : list Z := unlanes 4 (take 8 a).
Definition _mm512_cvtepu8_epi32 (a : list Z) : list Z := unlanes 4 (take 16 a).
Definition _mm_slli_epi16 (a : list Z) (imm : Z) : list Z :=
  unlanes 2 ((λ x, Z.shiftl x imm `mod` 2 ^ 16) <$> lanes 2 8 a).
Definition _mm256_srli_epi32 (a : list Z) (imm : Z) : list Z :=
  unlanes 4 ((λ x, Z.shiftr x imm) <$> lanes 4 8 a).
Definition _mm512_srli_epi32 (a : list Z) (imm : Z) : list Z :=
  unlanes 4 ((λ x, Z.shiftr x imm) <$> lanes 4 16 a).
Definition _mm256_castsi256_si128 (a : list Z) : list Z := take 16 a.
Definition _mm256_extracti128_si256 (a : list Z) (imm : Z) : list Z :=
  take 16 (drop (Z.to_nat (16 * Z.land imm 1)) a).
Definition _mm_extract_epi64 (a : list Z) (imm : Z) : Z :=
  load (lanes 8 2 a) (Z.land imm 1).
Definition _mm_set1_epi64x (a : Z) : list Z := unlanes 8 [a; a].
(** [_MM_SHUFFLE(z, y, x, w)] *)
Definition _MM_SHUFFLE (z y x w : Z) : Z :=
  Z.lor (Z.lor (Z.lor (Z.shiftl z 6) (Z.shiftl y 4)) (Z.shiftl x 2)) w.
Definition _mm_shuffle_epi32 (a : list Z) (imm : Z) : list Z :=
  unlanes 4 ((λ i, load (lanes 4 4 a) (Z.land (Z.shiftr imm (2 * i)) 3)) <$> irange 4).
(** signed reading of a 32-bit lane *)
Definition int32_of_lane (x : Z) : Z := if x <? 2 ^ 31 then x else x - 2 ^ 32.
Definition _mm256_cvtepi32_ps (a : list Z) : list float :=
  (λ x, float_of_int (int32_of_lane x)) <$> lanes 4 8 a.

Definition _mm512_set_ps (e : list float) : list float := reverse e.
Definition _mm512_set_epi32 (e : list Z) : list Z := unlanes 4 (reverse e).
Definition _mm256_setr_epi32 (e : list Z) : list Z := unlanes 4 e.
Definition _mm512_set1_ps (a : float) : list float := replicate 16 a.
Definition _mm256_set1_ps (a : float) : list float := replicate 8 a.
Definition _mm512_setzero_ps : list float := replicate 16 (float_of_int 0).
Definition _mm256_setzero_ps : list float := replicate 8 (float_of_int 0).
Definition zip_with3 {X} (f : X → X → X → X) (a b c : list X) : list X :=
  zip_with (λ ab z, f ab.1 ab.2 z) (zip a b) c.
Definition _mm512_fmadd_ps (a b c : list float) : list float := zip_with3 fmadd a b c.
Definition _mm256_fmadd_ps (a b c : list float) : list float := zip_with3 fmadd a b c.
Definition _mm512_permutexvar_ps (idx : list Z) (a : list float) : list float :=
  (λ i, load a (Z.land i 15)) <$> lanes 4 16 idx.
Definition _mm512_mask_permutex2var_ps (a : list float) (k : Z) (idx : list Z)
    (b : list float) : list float :=
  imap (λ j i,
    if Z.testbit k (Z.of_nat j)
    then (if Z.testbit i 4 then load b (Z.land i 15) else load a (Z.land i 15))
    else load a (Z.of_nat j)) (lanes 4 16 idx).
Definition _mm256_permutevar8x32_ps (a : list float) (idx : list Z) : list float :=
  (λ i, load a (Z.land i 7)) <$> lanes 4 8 idx.
Definition _mm256_permute2f128_ps (a b : list float) (imm : Z) : list float :=
  let sel c :=
    if Z.testbit c 3 then replicate 4 (float_of_int 0)
    else take 4 (drop (Z.to_nat (4 * Z.land c 1)) (if Z.testbit c 1 then b else a)) in
  sel (Z.land imm 15) ++ sel (Z.land (Z.shiftr imm 4) 15).

(** Modelled from the spec: the conversions of [ATen/cpu/vec], which are
    not part of the kernel file.  [cvtbf16_fp32] widens the lower and the
    upper half of a [BFloat16] register (the kernel's comment: "a: {s0, z0,
    ..., s7, z7}; b: {s8, z8, ..., s15, z15}"); [cvtfp32_bf16] narrows one
    float register, or two into one register, lower half first. *)
Definition cvtbf16_fp32 (t : list BFloat16) : list float * list float :=
  let h := (length t / 2)%nat in
  (bf16_to_float <$> take h t, bf16_to_float <$> drop h t).
Definition cvtfp32_bf16 (a : list float) : list BFloat16 := float_to_bf16 <$> a.
Definition cvtfp32_bf16_2 (a b : list float) : list BFloat16 :=
  (float_to_bf16 <$> a) ++ (float_to_bf16 <$> b).

(** [conver_int4_to_int8]: 16 nibbles of 8 bytes, one per byte. *)
Definition conver_int4_to_int8 (data : ptr Z) : list Z :=
  let tmp := _mm_loadu_si64 data in
  let bytes := _mm_cvtepu8_epi16 tmp in
  let lowMask := _mm_set1_epi8 15 in
  let high := _mm_andnot_si128 lowMask bytes in
  let low := _mm_and_si128 lowMask bytes in
  let high := _mm_slli_epi16 high 4 in
  let bytes := _mm_or_si128 low high in
  bytes.

(** The registers of a vector kernel. *)
Record regs := Regs {
  va : list float;
  vb : list (list float);
  vc : list (list float);
  scale : list (list float);
  zero : list (list float);
}.

Definition set_va (r : regs) (v : list float) : regs :=
  Regs v (vb r) (vc r) (scale r) (zero r).
Definition set_vb (r : regs) (i : Z) (v : list float) : regs :=
  Regs (va r) (store (vb r) i v) (vc r) (scale r) (zero r).
Definition set_vc (r : regs) (i : Z) (v : list float) : regs :=
  Regs (va r) (vb r) (store (vc r) i v) (scale r) (zero r).
Definition set_scale (r : regs) (i : Z) (v : list float) : regs :=
  Regs (va r) (vb r) (vc r) (store (scale r) i v) (zero r).
Definition set_zero (r : regs) (i : Z) (v : list float) : regs :=
  Regs (va r) (vb r) (vc r) (scale r) (store (zero r) i v).

(** The declarations [__m512 va; __m512 vb[COLS]; ...]: arrays of the
    declared sizes, their contents not yet meaningful. *)
Definition regs_init (ROWS COLS : Z) : regs :=
  Regs [] (replicate (Z.to_nat COLS) []) (replicate (Z.to_nat (ROWS * COLS)) [])
    (replicate (Z.to_nat COLS) []) (replicate (Z.to_nat COLS) []).

(** The K loop shared, word for word, by the two vector kernels:
    [for (int k = 0, kb = 0; k < K; ++k) {
       if (is_block_start(k, BLOCK_K))
         c10::ForcedUnroll<COLS>{}(load_scale_and_zeros, kb++);
       c10::ForcedUnroll<ROWS * COLS>{}(compute, k); }] *)
Definition k_loop_reload (COLS BLOCK_K : Z)
    (load_scale_and_zeros : Z → Z → regs → regs) (s : regs * Z) (k : Z) : regs * Z :=
  let '(r, kb) := s in
  if is_block_start k BLOCK_K
  then (ForcedUnroll COLS (λ i, load_scale_and_zeros i kb) r, kb + 1)
  else (r, kb).

Definition k_loop_step (ROWS COLS BLOCK_K : Z)
    (load_scale_and_zeros : Z → Z → regs → regs) (compute : Z → Z → regs → regs)
    (s : regs * Z) (k : Z) : regs * Z :=
  let '(r, kb) := k_loop_reload COLS BLOCK_K load_scale_and_zeros s k in
  (ForcedUnroll (ROWS * COLS) (λ i, compute i k) r, kb).

Definition k_loop (ROWS COLS K BLOCK_K : Z)
    (load_scale_and_zeros : Z → Z → regs → regs) (compute : Z → Z → regs → regs)
    (r : regs) : regs :=
  (foldl (k_loop_step ROWS COLS BLOCK_K load_scale_and_zeros compute) (r, 0) (irange K)).1.

(** ** The AVX512 tile kernel *)

Section AVX512.
Context (MB_SIZE NB_SIZE : Z).
Context (A : ptr BFloat16) (B : ptr Z) (ScaleAndZeros : ptr BFloat16) (C : Z).
Context (lda ldb ldc K BLOCK_K : Z).

Let ROWS : Z := MB_SIZE.
Let COLS : Z := NB_SIZE `quot` 16.

Definition lut512 : list float :=
  _mm512_set_ps (float_of_int <$> [7; 6; 5; 4; 3; 2; 1; 0; -1; -2; -3; -4; -5; -6; -7; -8]).

Definition idx1_512 : list Z :=
  _mm512_set_epi32 [30; 28; 26; 24; 22; 20; 18; 16; 14; 12; 10; 8; 6; 4; 2; 0].
Definition idx2_512 : list Z :=
  _mm512_set_epi32 [31; 29; 27; 25; 23; 21; 19; 17; 15; 13; 11; 9; 7; 5; 3; 1].

Definition load_scale_and_zeros_avx512 (i _kb : Z) (r : regs) : regs :=
  let t := vload (ptr_add ScaleAndZeros (_kb * ldc * 2 + 32 * i)) 32 in
  let '(a, b) := cvtbf16_fp32 t in
  let r := set_scale r i (_mm512_mask_permutex2var_ps a 65535 idx1_512 b) in
  set_zero r i (_mm512_mask_permutex2var_ps a 65535 idx2_512 b).

Definition loadc_avx512 (i : Z) (r : regs) : regs := set_vc r i _mm512_setzero_ps.

(** [vb[col] = _mm512_permutexvar_ps(b32, lut);
     vb[col] = _mm512_fmadd_ps(vb[col], scale[col], zero[col]);] *)
Definition dequant_avx512 (r : regs) (col : Z) (b32 : list Z) : regs :=
  let r := set_vb r col (_mm512_permutexvar_ps b32 lut512) in
  set_vb r col (_mm512_fmadd_ps (load (vb r) col) (load (scale r) col) (load (zero r) col)).

Definition compute_avx512 (i k : Z) (r : regs) : regs :=
  let row := i `quot` COLS in
  let col := i `rem` COLS in
  let r :=
    if col =? 0 then
      let aa := bf16_to_float (ptr_get A (row * lda + k)) in
      set_va r (_mm512_set1_ps aa)
    else r in
  let r :=
    if row =? 0 then
      if COLS =? 4 then
        if col =? 0 then
          let b4 := _mm256_load_si256 (ptr_add B (k * ldb)) in
          let b32 := _mm512_cvtepu8_epi32 (_mm256_castsi256_si128 b4) in
          let r := dequant_avx512 r 0 b32 in
          let r := dequant_avx512 r 2 (_mm512_srli_epi32 b32 4) in
          let b32 := _mm512_cvtepu8_epi32 (_mm256_extracti128_si256 b4 1) in
          let r := dequant_avx512 r 1 b32 in
          dequant_avx512 r 3 (_mm512_srli_epi32 b32 4)
        else r
      else
        let b8 := conver_int4_to_int8 (ptr_add B (k * ldb + col * 8)) in
        let b32 := _mm512_cvtepu8_epi32 b8 in
        dequant_avx512 r col b32
    else r in
  let idx := row * COLS + col in
  set_vc r idx (_mm512_fmadd_ps (va r) (load (vb r) col) (load (vc r) idx)).

Definition storec_avx512 (r : regs) (i : Z) (st : out_buf) : out_buf :=
  let row := i `quot` COLS in
  let col := i `rem` COLS in
  if COLS =? 4 then
    if col =? 0 then
      let c01 := cvtfp32_bf16_2 (load (vc r) (row * 4 + 0)) (load (vc r) (row * 4 + 1)) in
      let c23 := cvtfp32_bf16_2 (load (vc r) (row * 4 + 2)) (load (vc r) (row * 4 + 3)) in
      let st := storeu_C st (C + (row * ldc + 0 * 32)) c01 in
      storeu_C st (C + (row * ldc + 1 * 32)) c23
    else st
  else
    let ci := cvtfp32_bf16 (load (vc r) i) in
    storeu_C st (C + (row * ldc + col * 16)) ci.

(** The registers when the K loop is left. *)
Definition accumulate_avx512 : regs :=
  let r := regs_init ROWS COLS in
  let r := ForcedUnroll (ROWS * COLS) loadc_avx512 r in
  k_loop ROWS COLS K BLOCK_K load_scale_and_zeros_avx512 compute_avx512 r.

Definition tinygemm_kernel_avx512 (st : out_buf) : out_buf :=
  let r := accumulate_avx512 in
  ForcedUnroll (ROWS * COLS) (storec_avx512 r) st.
End AVX512.

(** ** The AVX2 tile kernel *)

Section AVX2.
Context (MB_SIZE NB_SIZE : Z).
Context (A : ptr BFloat16) (B : ptr Z) (ScaleAndZeros : ptr BFloat16) (C : Z).
Context (lda ldb ldc K BLOCK_K : Z).

Let ROWS : Z := MB_SIZE.
Let COLS : Z := NB_SIZE `quot` 8.

Definition idx1_256 : list Z := _mm256_setr_epi32 [0; 2; 4; 6; 1; 3; 5; 7].

(** offset to shift from range [0, 15] to [-8, 7] *)
Definition offset256 : list float := _mm256_set1_ps (float_of_int (-8)).

Definition load_scale_and_zeros_avx2 (i _kb : Z) (r : regs) : regs :=
  let t := vload (ptr_add ScaleAndZeros (_kb * ldc * 2 + 16 * i)) 16 in
  let '(a, b) := cvtbf16_fp32 t in
  let a := _mm256_permutevar8x32_ps a idx1_256 in
  let b := _mm256_permutevar8x32_ps b idx1_256 in
  let r := set_scale r i (_mm256_permute2f128_ps a b 32) in
  let r := set_zero r i (_mm256_permute2f128_ps a b 49) in
  set_zero r i (_mm256_fmadd_ps (load (scale r) i) offset256 (load (zero r) i)).

Definition loadc_avx2 (i : Z) (r : regs) : regs := set_vc r i _mm256_setzero_ps.

(** [vb[col] = _mm256_cvtepi32_ps(b32);
     vb[col] = _mm256_fmadd_ps(vb[col], scale[col], zero[col]);] *)
Definition dequant_avx2 (r : regs) (col : Z) (b32 : list Z) : regs :=
  let r := set_vb r col (_mm256_cvtepi32_ps b32) in
  set_vb r col (_mm256_fmadd_ps (load (vb r) col) (load (scale r) col) (load (zero r) col)).

Definition compute_avx2 (i k : Z) (r : regs) : regs :=
  let row := i `quot` COLS in
  let col := i `rem` COLS in
  let r :=
    if col =? 0 then
      let aa := bf16_to_float (ptr_get A (row * lda + k)) in
      set_va r (_mm256_set1_ps aa)
    else r in
  let r :=
    if row =? 0 then
      if COLS =? 4 then
        if col =? 0 then
          let mask := _mm256_set1_epi32 15 in
          let b4 := _mm_load_si128 (ptr_add B (k * ldb)) in
          let b32 := _mm256_cvtepu8_epi32 b4 in
          let r := dequant_avx2 r 0 (_mm256_and_si256 b32 mask) in
          let r := dequant_avx2 r 2 (_mm256_srli_epi32 b32 4) in
          let b32 := _mm256_cvtepu8_epi32 (_mm_shuffle_epi32 b4 (_MM_SHUFFLE 3 2 3 2)) in
          let r := dequant_avx2 r 1 (_mm256_and_si256 b32 mask) in
          dequant_avx2 r 3 (_mm256_srli_epi32 b32 4)
        else r
      else
        if col `rem` 2 =? 0 then
          let b8 := conver_int4_to_int8 (ptr_add B (k * ldb + col * 4)) in
          let b8_val0 := _mm_set1_epi64x (_mm_extract_epi64 b8 0) in
          let b8_val1 := _mm_set1_epi64x (_mm_extract_epi64 b8 1) in
          let r := dequant_avx2 r col (_mm256_cvtepu8_epi32 b8_val0) in
          dequant_avx2 r (col + 1) (_mm256_cvtepu8_epi32 b8_val1)
        else r
    else r in
  let idx := row * COLS + col in
  set_vc r idx (_mm256_fmadd_ps (va r) (load (vb r) col) (load (vc r) idx)).

Definition storec_avx2 (r : regs) (i : Z) (st : out_buf) : out_buf :=
  let row := i `quot` COLS in
  let col := i `rem` COLS in
  if col `rem` 2 =? 0 then
    let ci := cvtfp32_bf16_2 (load (vc r) (row * COLS + col))
                (load (vc r) (row * COLS + col + 1)) in
    storeu_C st (C + (row * ldc + col * 8)) ci
  else st.

(** The registers when the K loop is left. *)
Definition accumulate_avx2 : regs :=
  let r := regs_init ROWS COLS in
  let r := ForcedUnroll (ROWS * COLS) loadc_avx2 r in
  k_loop ROWS COLS K BLOCK_K load_scale_and_zeros_avx2 compute_avx2 r.

Definition tinygemm_kernel_avx2 (st : out_buf) : out_buf :=
  let r := accumulate_avx2 in
  ForcedUnroll (ROWS * COLS) (storec_avx2 r) st.
End AVX2.

(** The kernel compiled for a capability. *)
Definition tinygemm_kernel (cap : cpu_capability) :=
  match cap with
  | AVX512 => tinygemm_kernel_avx512
  | AVX2 => tinygemm_kernel_avx2
  | DEFAULT => tinygemm_kernel_scalar
  end.

(** ** The tile scheduler *)

(** How a statement ends: normally, or by the exception of a failed
    [TORCH_CHECK].  The stores made before the exception stay in the
    buffer, so an outcome always comes with the buffer. *)
Inductive outcome := Done | Raised (msg : string).

(** Modelled from the spec: [TORCH_CHECK(false, msg, value)], whose macro
    is not part of the kernel file: a fatal error with "a descriptive
    message identifying the invalid shape", the text followed by the
    value in decimal. *)
Definition TORCH_CHECK_false (msg : string) (value : Z) : outcome :=
  Raised (msg +:+ pretty value).

(** Modelled from the spec: [data_index_init(offset, mb, MB, nb, NB)] of
    [ATen/native/cpu/utils.h], not part of the kernel file: "converting
    its flat index back to (mb, nb) via row-major divmod". *)
Definition data_index_init (offset MB NB : Z) : Z * Z :=
  (offset `quot` NB, offset `rem` NB).

(** Modelled from the spec: [data_index_step(mb, MB, nb, NB)] of
    [ATen/native/cpu/utils.h], not part of the kernel file: "stepping to
    the next tile by incrementing nb and carrying into mb on overflow". *)
Definition data_index_step (mb MB nb NB : Z) : Z * Z :=
  if nb + 1 =? NB then (mb + 1, 0) else (mb, nb + 1).

(** Modelled from the spec: [at::parallel_for(begin, end, grain_size, f)]
    of the external executor: "partitions an iteration space across worker
    threads", "do range [begin,end) possibly in parallel, default
    chunking".  The range is cut into [num_threads] consecutive chunks of
    equal size (the last may be shorter) and [f] is run on each chunk
    that is not empty.  The spec fixes neither the order of the chunks
    nor what an exception in one chunk means for the others: here the
    chunks are run one after the other and the first exception ends the
    run.  With one worker [f] is called once, on the whole range, and
    this choice plays no part. *)
Definition parallel_for (num_threads : Z) (begin end_ : Z)
    (f : Z → Z → out_buf → outcome * out_buf) (st : out_buf) : outcome * out_buf :=
  let chunk_size := (end_ - begin + num_threads - 1) `quot` num_threads in
  foldl (λ (s : outcome * out_buf) tid,
    match s.1 with
    | Raised _ => s
    | Done =>
        let b := begin + tid * chunk_size in
        if b <? end_ then f b (Z.min end_ (b + chunk_size)) s.2 else s
    end)
  (Done, st) (irange num_threads).

Section Scheduler.
Context (cap : cpu_capability).
Context (A_data : list BFloat16) (B_data : list Z) (S_data : list BFloat16).
Context (M N K BLOCK_K : Z).

Definition LAUNCH_TINYGEMM_KERNEL (MB_SIZE NB_SIZE : Z)
    (A_ptr : ptr BFloat16) (B_ptr : ptr Z) (S_ptr : ptr BFloat16) (C_ptr : Z)
    (st : out_buf) : out_buf :=
  tinygemm_kernel cap MB_SIZE NB_SIZE A_ptr B_ptr S_ptr C_ptr
    K (NB_SIZE `quot` 2) N K BLOCK_K st.

Definition LAUNCH_TINYGEMM_NB_SIZE (MB_SIZE nb_size : Z)
    (A_ptr : ptr BFloat16) (B_ptr : ptr Z) (S_ptr : ptr BFloat16) (C_ptr : Z)
    (st : out_buf) : outcome * out_buf :=
  if nb_size =? 16 then (Done, LAUNCH_TINYGEMM_KERNEL MB_SIZE 16 A_ptr B_ptr S_ptr C_ptr st)
  else if nb_size =? 32 then (Done, LAUNCH_TINYGEMM_KERNEL MB_SIZE 32 A_ptr B_ptr S_ptr C_ptr st)
  else if nb_size =? 48 then (Done, LAUNCH_TINYGEMM_KERNEL MB_SIZE 48 A_ptr B_ptr S_ptr C_ptr st)
  else if nb_size =? 64 then (Done, LAUNCH_TINYGEMM_KERNEL MB_SIZE 64 A_ptr B_ptr S_ptr C_ptr st)
  else (TORCH_CHECK_false "Unsupported n block size: " nb_size, st).

(** [switch (mb_size) { ... }] *)
Definition mm_dispatch (mb_size nb_size : Z)
    (A_ptr : ptr BFloat16) (B_ptr : ptr Z) (S_ptr : ptr BFloat16) (C_ptr : Z)
    (st : out_buf) : outcome * out_buf :=
  if mb_size =? 1 then LAUNCH_TINYGEMM_NB_SIZE 1 nb_size A_ptr B_ptr S_ptr C_ptr st
  else if mb_size =? 2 then LAUNCH_TINYGEMM_NB_SIZE 2 nb_size A_ptr B_ptr S_ptr C_ptr st
  else if mb_size =? 3 then LAUNCH_TINYGEMM_NB_SIZE 3 nb_size A_ptr B_ptr S_ptr C_ptr st
  else if mb_size =? 4 then LAUNCH_TINYGEMM_NB_SIZE 4 nb_size A_ptr B_ptr S_ptr C_ptr st
  else (TORCH_CHECK_false "Unsupported m block size: " mb_size, st).

(** The body of the loop over the flat tile indices, for the tile
    [(mb, nb)], up to the index step. *)
Definition mm_tile (mb nb : Z) (st : out_buf) : outcome * out_buf :=
  let mb_start := mb * BLOCK_M in
  let mb_size := Z.min BLOCK_M (M - mb_start) in
  let nb_start := nb * BLOCK_N cap in
  let nb_size := Z.min (BLOCK_N cap) (N - nb_start) in
  let A_ptr := ptr_add (Ptr A_data 0) (mb_start * K) in
  let B_ptr := ptr_add (Ptr B_data 0) ((nb_start * K) `quot` 2) in
  let S_ptr := ptr_add (Ptr S_data 0) (nb_start * 2) in
  let C_ptr := 0 + (mb_start * N + nb_start) in
  mm_dispatch mb_size nb_size A_ptr B_ptr S_ptr C_ptr st.

Definition MB : Z := (M + BLOCK_M - 1) `quot` BLOCK_M.
Definition NB : Z := (N + BLOCK_N cap - 1) `quot` BLOCK_N cap.

(** [for (const auto i : c10::irange(begin, end))]: the tile, then the
    step to the next index; an exception leaves the loop. *)
Fixpoint mm_tiles (tiles : list Z) (mb nb : Z) (st : out_buf) : outcome * out_buf :=
  match tiles with
  | [] => (Done, st)
  | _ :: tiles =>
      match mm_tile mb nb st with
      | (Done, st) =>
          let '(mb, nb) := data_index_step mb MB nb NB in
          mm_tiles tiles mb nb st
      | (Raised msg, st) => (Raised msg, st)
      end
  end.

(** The function given to [parallel_for]. *)
Definition mm_chunk (begin end_ : Z) (st : out_buf) : outcome * out_buf :=
  let '(mb, nb) := data_index_init begin MB NB in
  mm_tiles (irange2 begin end_) mb nb st.

Definition int4pack_mm_kernel (num_threads : Z) (C : out_buf) : outcome * out_buf :=
  parallel_for num_threads 0 (MB * NB) mm_chunk C.
End Scheduler.

End Kernel.

(** ** IEEE binary32 arithmetic with bfloat16 storage

    An instance of the interface on [spec_float]: [float] is binary32
    ([prec = 24], [emax = 128]) and [BFloat16] is its 8-bit-mantissa
    truncation, rounded to nearest even. *)

Module IEEE.

(** The canonical representative of a finite value in a format. *)
Definition renorm (prec emax : Z) (x : spec_float) : spec_float :=
  match x with
  | S754_finite s m e => binary_round prec emax s m e
  | _ => x
  end.

Definition of_int (prec emax : Z) (z : Z) : spec_float :=
  binary_normalize prec emax z 0 false.

(** Fused multiply-add: the exact product added to [z], rounded once. *)
Definition SFfma (prec emax : Z) (x y z : spec_float) : spec_float :=
  match x, y with
  | S754_finite sx mx ex, S754_finite sy my ey =>
      match z with
      | S754_nan => S754_nan
      | S754_infinity _ => z
      | S754_zero _ => binary_round prec emax (xorb sx sy) (mx * my) (ex + ey)
      | S754_finite sz mz ez =>
          let e := Z.min (ex + ey) ez in
          binary_normalize prec emax
            (cond_Zopp (xorb sx sy) (Zpos (fst (shl_align (mx * my) (ex + ey) e)))
             + cond_Zopp sz (Zpos (fst (shl_align mz ez e))))
            e false
      end
  | _, _ => SFadd prec emax (SFmul prec emax x y) z
  end.

#[export] Instance binary32 : FloatOps := {|
  float := spec_float;
  BFloat16 := spec_float;
  float_of_int := of_int 24 128;
  fmul := SFmul 24 128;
  fadd := SFadd 24 128;
  fmadd := SFfma 24 128;
  bf16_to_float := renorm 24 128;
  float_to_bf16 := renorm 8 128;
|}.

(** The [BFloat16] of an integer. *)
Definition bf16_of_int (z : Z) : spec_float := of_int 8 128 z.

End IEEE.

(** * Sequences of stores

    A loop nest that only stores is a list of (index, value) pairs applied
    in order.  What a location holds afterwards is decided by the stores
    that hit it. *)

Definition apply_writes {X} (out : list X) (ws : list (Z * X)) : list X :=
  foldl (λ out w, store out w.1 w.2) out ws.

(** Whether a block of [nb_size] columns takes the strided branch. *)
Definition is_strided (cap : cpu_capability) (nb_size : Z) : bool :=
  match cap with
  | DEFAULT => false
  | _ => nb_size =? BLOCK_N cap
  end.

(** The store that pairs column [d] with column [d + half]. *)
Definition strided_write (src : ptr Z) (K k dst half d : Z) : Z * Z :=
  (dst + (k * half + d),
   pack_nibbles (ptr_get src (d * K + k)) (ptr_get src ((d + half) * K + k))).

(** The store that pairs the even column [n] with column [n + 1]. *)
Definition adjacent_write (src : ptr Z) (K k nb_size dst n : Z) : Z * Z :=
  (dst + ((k * nb_size) `quot` 2 + n `quot` 2),
   pack_nibbles (ptr_get src (n * K + k)) (ptr_get src (n * K + K + k))).

(** The stores of the packer, in program order. *)
Definition pack_row_writes (cap : cpu_capability) (src : ptr Z) (K k nb_size dst : Z)
    : list (Z * Z) :=
  let adjacent :=
    irange_by2 nb_size ≫= λ n,
      [(dst + ((k * nb_size) `quot` 2 + n `quot` 2),
        pack_nibbles (ptr_get src (n * K + k)) (ptr_get src (n * K + K + k)))] in
  match cap with
  | AVX512 =>
      if nb_size =? BLOCK_N AVX512 then
        irange 16 ≫= λ d,
          [(dst + (k * 32 + d),
            pack_nibbles (ptr_get src ((d + 0) * K + k)) (ptr_get src ((d + 32) * K + k)));
           (dst + (k * 32 + 16 + d),
            pack_nibbles (ptr_get src ((d + 16) * K + k)) (ptr_get src ((d + 48) * K + k)))]
      else adjacent
  | AVX2 =>
      if nb_size =? BLOCK_N AVX2 then
        irange 16 ≫= λ d,
          [(dst + (k * 16 + d),
            pack_nibbles (ptr_get src ((d + 0) * K + k)) (ptr_get src ((d + 16) * K + k)))]
      else adjacent
  | DEFAULT => adjacent
  end.

Definition pack_block_writes (cap : cpu_capability) (weight_data : list Z) (N K i : Z)
    : list (Z * Z) :=
  irange K ≫= λ k,
    pack_row_writes cap (Ptr weight_data (i * BLOCK_N cap * K)) K k
      (Z.min (BLOCK_N cap) (N - i * BLOCK_N cap)) ((i * K * BLOCK_N cap) `quot` 2).

Definition pack_writes (cap : cpu_capability) (weight_data : list Z) (N K : Z)
    : list (Z * Z) :=
  irange2 0 ((N + BLOCK_N cap - 1) `quot` BLOCK_N cap) ≫= pack_block_writes cap weight_data N K.

(** The conversion the non-vectorized kernel applies for column [n] and
    row [k] of the weights, with the pointer and the leading dimension the
    scheduler hands to the tile that holds column [n]. *)
Definition kernel_unpack_scalar `{FloatOps} (B_data : list Z) (N K n k : Z) : float :=
  let nb_start := n `quot` BLOCK_N DEFAULT * BLOCK_N DEFAULT in
  let nb_size := Z.min (BLOCK_N DEFAULT) (N - nb_start) in
  let B_ptr := ptr_add (Ptr B_data 0) ((nb_start * K) `quot` 2) in
  scalar_unpack B_ptr (nb_size `quot` 2) k (n - nb_start).

(** The stores of a kernel into [C], applied to the buffer and its log. *)
Definition apply_writes_C `{FloatOps} (st : out_buf) (ws : list (Z * BFloat16)) : out_buf :=
  foldl (λ st w, store_C st w.1 w.2) st ws.

(** The stores of the non-vectorized tile kernel, in program order. *)
Definition scalar_tile_writes `{FloatOps} (MB_SIZE NB_SIZE : Z)
    (A : ptr BFloat16) (B : ptr Z) (ScaleAndZeros : ptr BFloat16) (C : Z)
    (lda ldb ldc K BLOCK_K : Z) : list (Z * BFloat16) :=
  irange MB_SIZE ≫= λ m, irange NB_SIZE ≫= λ n,
    [(C + (m * ldc + n),
      float_to_bf16 (foldl (scalar_step A B ScaleAndZeros lda ldb ldc BLOCK_K m n)
                       (float_of_int 0) (irange K)))].

(** The stores of a vector store. *)
Definition storeu_writes `{FloatOps} (i : Z) (vs : list BFloat16) : list (Z * BFloat16) :=
  (λ jv, (i + Z.of_nat jv.1, jv.2)) <$> imap pair vs.

(** The stores of [storec], for the registers [r]. *)
Definition storec_writes_avx512 `{FloatOps} (NB_SIZE C ldc : Z) (r : regs) (i : Z)
    : list (Z * BFloat16) :=
  let COLS := NB_SIZE `quot` 16 in
  let row := i `quot` COLS in
  let col := i `rem` COLS in
  if COLS =? 4 then
    if col =? 0 then
      storeu_writes (C + (row * ldc + 0 * 32))
        (cvtfp32_bf16_2 (load (vc r) (row * 4 + 0)) (load (vc r) (row * 4 + 1)))
      ++ storeu_writes (C + (row * ldc + 1 * 32))
        (cvtfp32_bf16_2 (load (vc r) (row * 4 + 2)) (load (vc r) (row * 4 + 3)))
    else []
  else storeu_writes (C + (row * ldc + col * 16)) (cvtfp32_bf16 (load (vc r) i)).

Definition storec_writes_avx2 `{FloatOps} (NB_SIZE C ldc : Z) (r : regs) (i : Z)
    : list (Z * BFloat16) :=
  let COLS := NB_SIZE `quot` 8 in
  let row := i `quot` COLS in
  let col := i `rem` COLS in
  if col `rem` 2 =? 0 then
    storeu_writes (C + (row * ldc + col * 8))
      (cvtfp32_bf16_2 (load (vc r) (row * COLS + col)) (load (vc r) (row * COLS + col + 1)))
  else [].

(** The stores of the tile kernel of a build, in program order. *)
Definition tile_writes `{FloatOps} (cap : cpu_capability) (MB_SIZE NB_SIZE : Z)
    (A : ptr BFloat16) (B : ptr Z) (ScaleAndZeros : ptr BFloat16) (C : Z)
    (lda ldb ldc K BLOCK_K : Z) : list (Z * BFloat16) :=
  match cap with
  | AVX512 =>
      irange (MB_SIZE * (NB_SIZE `quot` 16)) ≫=
        storec_writes_avx512 NB_SIZE C ldc
          (accumulate_avx512 MB_SIZE NB_SIZE A B ScaleAndZeros lda ldb ldc K BLOCK_K)
  | AVX2 =>
      irange (MB_SIZE * (NB_SIZE `quot` 8)) ≫=
        storec_writes_avx2 NB_SIZE C ldc
          (accumulate_avx2 MB_SIZE NB_SIZE A B ScaleAndZeros lda ldb ldc K BLOCK_K)
  | DEFAULT =>
      scalar_tile_writes MB_SIZE NB_SIZE A B ScaleAndZeros C lda ldb ldc K BLOCK_K
  end.

(** The tile shapes the dispatch has a kernel for. *)
Definition supported_mb (mb_size : Z) : bool :=
  (mb_size =? 1) || (mb_size =? 2) || (mb_size =? 3) || (mb_size =? 4).
Definition supported_nb (nb_size : Z) : bool :=
  (nb_size =? 16) || (nb_size =? 32) || (nb_size =? 48) || (nb_size =? 64).

(** The sizes of the tile with the flat index [i]. *)
Definition tile_mb_size (cap : cpu_capability) (M N i : Z) : Z :=
  Z.min BLOCK_M (M - i `quot` NB cap N * BLOCK_M).
Definition tile_nb_size (cap : cpu_capability) (N i : Z) : Z :=
  Z.min (BLOCK_N cap) (N - i `rem` NB cap N * BLOCK_N cap).

(** The stores of the tile with the flat index [i], when its shape is
    supported. *)
Definition mm_tile_writes `{FloatOps} (cap : cpu_capability)
    (A_data : list BFloat16) (B_data : list Z) (S_data : list BFloat16)
    (M N K BLOCK_K : Z) (i : Z) : list (Z * BFloat16) :=
  let mb_start := i `quot` NB cap N * BLOCK_M in
  let nb_start := i `rem` NB cap N * BLOCK_N cap in
  tile_writes cap (tile_mb_size cap M N i) (tile_nb_size cap N i)
    (ptr_add (Ptr A_data 0) (mb_start * K))
    (ptr_add (Ptr B_data 0) ((nb_start * K) `quot` 2))
    (ptr_add (Ptr S_data 0) (nb_start * 2))
    (0 + (mb_start * N + nb_start))
    K (tile_nb_size cap N i `quot` 2) N K BLOCK_K.

(** The index in [C] of the element in row [m] and column [n] of the tile
    with the flat index [i]: [C_ptr[m * ldc + n]] with the scheduler's
    [C_ptr] and [ldc = N]. *)
Definition tile_addr (cap : cpu_capability) (N i m n : Z) : Z :=
  0 + (i `quot` NB cap N * BLOCK_M * N + i `rem` NB cap N * BLOCK_N cap) + (m * N + n).

(** The indices of the elements of the tile with the flat index [i], row
    by row. *)
Definition tile_addrs (cap : cpu_capability) (M N i : Z) : list Z :=
  irange (tile_mb_size cap M N i) ≫= λ m,
    irange (tile_nb_size cap N i) ≫= λ n, [tile_addr cap N i m n].




(** The registers in which [compute(i, k)] is run: those left by the
    iterations before [k], after the reload of iteration [k] if there is
    one. *)
Definition k_loop_regs_at `{FloatOps} (ROWS COLS BLOCK_K : Z)
    (load_scale_and_zeros : Z → Z → regs → regs) (compute : Z → Z → regs → regs)
    (r : regs) (k : Z) : regs :=
  (k_loop_reload COLS BLOCK_K load_scale_and_zeros
     (foldl (k_loop_step ROWS COLS BLOCK_K load_scale_and_zeros compute) (r, 0) (irange k))
     k).1.

(** The pairs of the group [kb] for the columns [16 c, ..., 16 c + 15] of
    a tile, as [float]: the scales and the zero points stored for them. *)
Definition group_scales `{FloatOps} (ScaleAndZeros : ptr BFloat16) (ldc width c kb : Z)
    : list float :=
  (λ l, bf16_to_float (ptr_get ScaleAndZeros (kb * ldc * 2 + (width * c + l) * 2)))
    <$> irange width.
Definition group_zeros `{FloatOps} (ScaleAndZeros : ptr BFloat16) (ldc width c kb : Z)
    : list float :=
  (λ l, bf16_to_float (ptr_get ScaleAndZeros (kb * ldc * 2 + (width * c + l) * 2 + 1)))
    <$> irange width.

(** The zero points as the AVX2 kernel keeps them: [-8 * scale + zero]. *)
Definition group_zeros_avx2 `{FloatOps} (ScaleAndZeros : ptr BFloat16) (ldc c kb : Z)
    : list float :=
  _mm256_fmadd_ps (group_scales ScaleAndZeros ldc 8 c kb) offset256
    (group_zeros ScaleAndZeros ldc 8 c kb).

(** The scale and zero registers hold, for each of the [COLS] column
    vectors, the given pairs. *)
Definition pairs_loaded `{FloatOps} (COLS : Z) (scales zeros : Z → list float) (r : regs)
    : Prop :=
  ∀ c, 0 ≤ c < COLS → load (scale r) c = scales c ∧ load (zero r) c = zeros c.

Definition pair_regs_sized `{FloatOps} (COLS : Z) (r : regs) : Prop :=
  Z.of_nat (length (scale r)) = COLS ∧ Z.of_nat (length (zero r)) = COLS.

(** The scheduler's loop with the tile recomputed from the flat index. *)
Definition mm_tile_flat `{FloatOps} (cap : cpu_capability)
    (A_data : list BFloat16) (B_data : list Z) (S_data : list BFloat16)
    (M N K BLOCK_K : Z) (i : Z) (st : out_buf) : outcome * out_buf :=
  mm_tile cap A_data B_data S_data M N K BLOCK_K
    (i `quot` NB cap N) (i `rem` NB cap N) st.

Fixpoint mm_tiles_flat `{FloatOps} (cap : cpu_capability)
    (A_data : list BFloat16) (B_data : list Z) (S_data : list BFloat16)
    (M N K BLOCK_K : Z) (tiles : list Z) (st : out_buf) : outcome * out_buf :=
  match tiles with
  | [] => (Done, st)
  | i :: tiles =>
      match mm_tile_flat cap A_data B_data S_data M N K BLOCK_K i st with
      | (Done, st) => mm_tiles_flat cap A_data B_data S_data M N K BLOCK_K tiles st
      | (Raised msg, st) => (Raised msg, st)
      end
  end.

(** * The vector kernels, element by element

    Closed forms of the registers of the vector kernels and of the element
    each store of a tile writes.  The facts further down relate them to the
    kernels above. *)

(** The number of steps [k' < k] of the K loop at which the kernel loads
    the scales and zero points, that is with [is_block_start k' BLOCK_K]. *)
Definition reloads_before (BLOCK_K k : Z) : Z :=
  Z.of_nat (length (filter (λ k', is_block_start k' BLOCK_K = true) (irange k))).

(** The group [kb] whose scales and zero points are in the registers at
    step [k]: [kb] starts at [-1] and goes up by one at every load. *)
Definition group_at (BLOCK_K k : Z) : Z := reloads_before BLOCK_K (k + 1) - 1.

(** The values of a [uint8_t]. *)
Definition is_byte (b : Z) : Prop := 0 ≤ b < 256.

(** The nibble a vector kernel with [w] lanes per register reads for
    column [n] of its tile at step [k]: in a tile of full width ([4]
    column vectors) byte [n mod 2w] of the row holds column [n] in its low
    nibble when [n < 2w] and in its high nibble otherwise; in a narrower
    tile byte [n / 2] holds the even column in its low nibble. *)
Definition tile_nibble (w NB_SIZE : Z) (B : ptr Z) (ldb k n : Z) : Z :=
  if NB_SIZE `quot` w =? 4 then
    let b := ptr_get B (k * ldb + n `rem` (2 * w)) in
    if n <? 2 * w then Z.land b 15 else Z.shiftr b 4
  else
    let b := ptr_get B (k * ldb + n `quot` 2) in
    if n `rem` 2 =? 0 then Z.land b 15 else Z.shiftr b 4.

Section VectorModel.
Context `{FloatOps}.

(** The invariant of the compute sweep of one [k] step, after [i] of its
    [ROWS * COLS] iterations from the registers [r0]: the accumulators below
    [i] have taken their step, the others are as in [r0]. *)
Definition sweep_invariant (ROWS COLS : Z) (a : Z → float) (set1 : float → list float)
    (fm : list float → list float → list float → list float)
    (VB : Z → list float) (Ready : Z → list (list float) → Prop) (r0 : regs)
    (i : Z) (r : regs) : Prop :=
  scale r = scale r0 ∧ zero r = zero r0 ∧ length (vc r) = length (vc r0)
  ∧ Ready (Z.min i COLS) (vb r)
  ∧ (0 < i → va r = set1 (a ((i - 1) `quot` COLS)))
  ∧ ∀ idx, 0 ≤ idx < ROWS * COLS →
      load (vc r) idx
      = if idx <? i
        then fm (set1 (a (idx `quot` COLS))) (VB (idx `rem` COLS)) (load (vc r0) idx)
        else load (vc r0) idx.

(** The nibbles, one per 32-bit lane, that the AVX512 kernel converts
    into [vb[col]] at step [k]. *)
Definition b32_avx512 (NB_SIZE : Z) (B : ptr Z) (ldb col k : Z) : list Z :=
  if NB_SIZE `quot` 16 =? 4 then
    let b4 := _mm256_load_si256 (ptr_add B (k * ldb)) in
    let lo := _mm512_cvtepu8_epi32 (_mm256_castsi256_si128 b4) in
    let hi := _mm512_cvtepu8_epi32 (_mm256_extracti128_si256 b4 1) in
    if col =? 0 then lo
    else if col =? 2 then _mm512_srli_epi32 lo 4
    else if col =? 1 then hi
    else _mm512_srli_epi32 hi 4
  else _mm512_cvtepu8_epi32 (conver_int4_to_int8 (ptr_add B (k * ldb + col * 8))).

(** The part of [compute] that runs for the first row: the load and the
    dequantisation of the weights of step [k]. *)
Definition load_b_avx512 (NB_SIZE : Z) (B : ptr Z) (ldb k col : Z) (r : regs) : regs :=
  if NB_SIZE `quot` 16 =? 4 then
    if col =? 0 then
      let b4 := _mm256_load_si256 (ptr_add B (k * ldb)) in
      let b32 := _mm512_cvtepu8_epi32 (_mm256_castsi256_si128 b4) in
      let r := dequant_avx512 r 0 b32 in
      let r := dequant_avx512 r 2 (_mm512_srli_epi32 b32 4) in
      let b32 := _mm512_cvtepu8_epi32 (_mm256_extracti128_si256 b4 1) in
      let r := dequant_avx512 r 1 b32 in
      dequant_avx512 r 3 (_mm512_srli_epi32 b32 4)
    else r
  else
    let b8 := conver_int4_to_int8 (ptr_add B (k * ldb + col * 8)) in
    let b32 := _mm512_cvtepu8_epi32 b8 in
    dequant_avx512 r col b32.

(** [vb[col]] at step [k], for the scale and zero registers [s] and [z]. *)
Definition vb_avx512 (NB_SIZE : Z) (B : ptr Z) (ldb col k : Z) (s z : list float)
    : list float :=
  _mm512_fmadd_ps (_mm512_permutexvar_ps (b32_avx512 NB_SIZE B ldb col k) lut512) s z.

(** During the sweep of step [k], before iteration [i] of the first row:
    the weight registers that the row has loaded so far. *)
Definition ready_avx512 (NB_SIZE : Z) (VB : Z → list float) (i : Z)
    (vbs : list (list float)) : Prop :=
  Z.of_nat (length vbs) = NB_SIZE `quot` 16
  ∧ ∀ c, 0 ≤ c < NB_SIZE `quot` 16 → c < i ∨ (NB_SIZE `quot` 16 = 4 ∧ 0 < i) →
      load vbs c = VB c.

(** The accumulator [vc[idx]] of the AVX512 kernel after [K] steps. *)
Definition vc_avx512 (NB_SIZE : Z) (A : ptr BFloat16) (B : ptr Z) (S : ptr BFloat16)
    (lda ldb ldc BLOCK_K idx K : Z) : list float :=
  let row := idx `quot` (NB_SIZE `quot` 16) in
  let col := idx `rem` (NB_SIZE `quot` 16) in
  foldl (λ v k,
    let kb := group_at BLOCK_K k in
    _mm512_fmadd_ps (_mm512_set1_ps (bf16_to_float (ptr_get A (row * lda + k))))
      (vb_avx512 NB_SIZE B ldb col k
         (group_scales S ldc 16 col kb) (group_zeros S ldc 16 col kb))
      v)
    _mm512_setzero_ps (irange K).

(** The registers have the declared numbers of vectors. *)
Definition regs_sized (ROWS COLS : Z) (r : regs) : Prop :=
  pair_regs_sized COLS r
  ∧ Z.of_nat (length (vb r)) = COLS ∧ Z.of_nat (length (vc r)) = ROWS * COLS.

(** The stores of a tile kernel whose element in row [m] and column [n] is
    built by [step m n] over [k = 0, ..., K-1], row by row. *)
Definition tile_writes_of (step : Z → Z → float → Z → float)
    (MB_SIZE NB_SIZE C ldc K : Z) : list (Z * BFloat16) :=
  irange MB_SIZE ≫= λ m, irange NB_SIZE ≫= λ n,
    [(C + (m * ldc + n),
      float_to_bf16 (foldl (step m n) (float_of_int 0) (irange K)))].

(** The stores of a vector kernel with [w] lanes per register, for the
    accumulators [vcs], row by row. *)
Definition vec_tile_writes (w MB_SIZE NB_SIZE C ldc : Z) (vcs : list (list float))
    : list (Z * BFloat16) :=
  irange MB_SIZE ≫= λ m, irange NB_SIZE ≫= λ n,
    [(C + (m * ldc + n),
      float_to_bf16 (load (load vcs (m * (NB_SIZE `quot` w) + n `quot` w)) (n `rem` w)))].

(** One [k] step of the AVX512 kernel for the element in row [m] and
    column [n] of the tile: lane [n % 16] of the registers of column
    vector [n / 16]. *)
Definition avx512_step (NB_SIZE : Z) (A : ptr BFloat16) (B : ptr Z) (S : ptr BFloat16)
    (lda ldb ldc BLOCK_K m n : Z) (c_val : float) (k : Z) : float :=
  let col := n `quot` 16 in
  let l := n `rem` 16 in
  let kb := group_at BLOCK_K k in
  let scale := bf16_to_float (ptr_get S (kb * ldc * 2 + n * 2)) in
  let zero := bf16_to_float (ptr_get S (kb * ldc * 2 + n * 2 + 1)) in
  let a_val := bf16_to_float (ptr_get A (m * lda + k)) in
  let b_val := load lut512 (Z.land (load (lanes 4 16 (b32_avx512 NB_SIZE B ldb col k)) l) 15) in
  fmadd a_val (fmadd b_val scale zero) c_val.

(** The nibbles, one per 32-bit lane, that the AVX2 kernel converts into
    [vb[col]] at step [k]. *)
Definition b32_avx2 (NB_SIZE : Z) (B : ptr Z) (ldb col k : Z) : list Z :=
  if NB_SIZE `quot` 8 =? 4 then
    let mask := _mm256_set1_epi32 15 in
    let b4 := _mm_load_si128 (ptr_add B (k * ldb)) in
    let lo := _mm256_cvtepu8_epi32 b4 in
    let hi := _mm256_cvtepu8_epi32 (_mm_shuffle_epi32 b4 (_MM_SHUFFLE 3 2 3 2)) in
    if col =? 0 then _mm256_and_si256 lo mask
    else if col =? 2 then _mm256_srli_epi32 lo 4
    else if col =? 1 then _mm256_and_si256 hi mask
    else _mm256_srli_epi32 hi 4
  else
    let b8 := conver_int4_to_int8 (ptr_add B (k * ldb + (col - col `rem` 2) * 4)) in
    if col `rem` 2 =? 0
    then _mm256_cvtepu8_epi32 (_mm_set1_epi64x (_mm_extract_epi64 b8 0))
    else _mm256_cvtepu8_epi32 (_mm_set1_epi64x (_mm_extract_epi64 b8 1)).

(** The part of [compute] that runs for the first row. *)
Definition load_b_avx2 (NB_SIZE : Z) (B : ptr Z) (ldb k col : Z) (r : regs) : regs :=
  if NB_SIZE `quot` 8 =? 4 then
    if col =? 0 then
      let mask := _mm256_set1_epi32 15 in
      let b4 := _mm_load_si128 (ptr_add B (k * ldb)) in
      let b32 := _mm256_cvtepu8_epi32 b4 in
      let r := dequant_avx2 r 0 (_mm256_and_si256 b32 mask) in
      let r := dequant_avx2 r 2 (_mm256_srli_epi32 b32 4) in
      let b32 := _mm256_cvtepu8_epi32 (_mm_shuffle_epi32 b4 (_MM_SHUFFLE 3 2 3 2)) in
      let r := dequant_avx2 r 1 (_mm256_and_si256 b32 mask) in
      dequant_avx2 r 3 (_mm256_srli_epi32 b32 4)
    else r
  else
    if col `rem` 2 =? 0 then
      let b8 := conver_int4_to_int8 (ptr_add B (k * ldb + col * 4)) in
      let b8_val0 := _mm_set1_epi64x (_mm_extract_epi64 b8 0) in
      let b8_val1 := _mm_set1_epi64x (_mm_extract_epi64 b8 1) in
      let r := dequant_avx2 r col (_mm256_cvtepu8_epi32 b8_val0) in
      dequant_avx2 r (col + 1) (_mm256_cvtepu8_epi32 b8_val1)
    else r.

(** [vb[col]] at step [k], for the scale and zero registers [s] and [z]. *)
Definition vb_avx2 (NB_SIZE : Z) (B : ptr Z) (ldb col k : Z) (s z : list float)
    : list float :=
  _mm256_fmadd_ps (_mm256_cvtepi32_ps (b32_avx2 NB_SIZE B ldb col k)) s z.

(** The accumulator [vc[idx]] of the AVX2 kernel after [K] steps. *)
Definition vc_avx2 (NB_SIZE : Z) (A : ptr BFloat16) (B : ptr Z) (S : ptr BFloat16)
    (lda ldb ldc BLOCK_K idx K : Z) : list float :=
  let row := idx `quot` (NB_SIZE `quot` 8) in
  let col := idx `rem` (NB_SIZE `quot` 8) in
  foldl (λ v k,
    let kb := group_at BLOCK_K k in
    _mm256_fmadd_ps (_mm256_set1_ps (bf16_to_float (ptr_get A (row * lda + k))))
      (vb_avx2 NB_SIZE B ldb col k
         (group_scales S ldc 8 col kb) (group_zeros_avx2 S ldc col kb))
      v)
    _mm256_setzero_ps (irange K).

(** One [k] step of the AVX2 kernel for the element in row [m] and column
    [n] of the tile: lane [n % 8] of the registers of column vector
    [n / 8].  The offset [-8] of the nibble is part of the zero register. *)
Definition avx2_step (NB_SIZE : Z) (A : ptr BFloat16) (B : ptr Z) (S : ptr BFloat16)
    (lda ldb ldc BLOCK_K m n : Z) (c_val : float) (k : Z) : float :=
  let col := n `quot` 8 in
  let l := n `rem` 8 in
  let kb := group_at BLOCK_K k in
  let scale := bf16_to_float (ptr_get S (kb * ldc * 2 + n * 2)) in
  let zero := bf16_to_float (ptr_get S (kb * ldc * 2 + n * 2 + 1)) in
  let zero := fmadd scale (float_of_int (-8)) zero in
  let a_val := bf16_to_float (ptr_get A (m * lda + k)) in
  let b_val :=
    float_of_int (int32_of_lane (load (lanes 4 8 (b32_avx2 NB_SIZE B ldb col k)) l)) in
  fmadd a_val (fmadd b_val scale zero) c_val.

(** The same for the AVX2 kernel, which loads two registers at every even
    column of a narrow tile. *)
Definition ready_avx2 (NB_SIZE : Z) (VB : Z → list float) (i : Z)
    (vbs : list (list float)) : Prop :=
  Z.of_nat (length vbs) = NB_SIZE `quot` 8
  ∧ ∀ c, 0 ≤ c < NB_SIZE `quot` 8 →
      c < i ∨ (NB_SIZE `quot` 8 = 4 ∧ 0 < i) ∨ (c `rem` 2 = 1 ∧ c - 1 < i) →
      load vbs c = VB c.

(** One [k] step of the tile kernel of a build for the element in row [m]
    and column [n] of the tile.  The vector kernels use fused
    multiply-adds and the pairs of the group loaded last; the AVX2 kernel
    converts the nibble itself and keeps the offset [-8] in the zero
    register. *)
Definition kernel_step (cap : cpu_capability) (NB_SIZE : Z)
    (A : ptr BFloat16) (B : ptr Z) (S : ptr BFloat16)
    (lda ldb ldc BLOCK_K m n : Z) (c_val : float) (k : Z) : float :=
  let kb := group_at BLOCK_K k in
  let scale := bf16_to_float (ptr_get S (kb * ldc * 2 + n * 2)) in
  let zero := bf16_to_float (ptr_get S (kb * ldc * 2 + n * 2 + 1)) in
  let a_val := bf16_to_float (ptr_get A (m * lda + k)) in
  match cap with
  | AVX512 =>
      let b_val := float_of_int (tile_nibble 16 NB_SIZE B ldb k n - 8) in
      fmadd a_val (fmadd b_val scale zero) c_val
  | AVX2 =>
      let b_val := float_of_int (tile_nibble 8 NB_SIZE B ldb k n) in
      fmadd a_val (fmadd b_val scale (fmadd scale (float_of_int (-8)) zero)) c_val
  | DEFAULT => scalar_step A B S lda ldb ldc BLOCK_K m n c_val k
  end.

(** The supported widths of a tile in a build. *)
Definition tile_width_ok (cap : cpu_capability) (NB_SIZE : Z) : Prop :=
  match cap with
  | AVX512 => NB_SIZE = 16 ∨ NB_SIZE = 32 ∨ NB_SIZE = 48 ∨ NB_SIZE = 64
  | AVX2 => NB_SIZE = 16 ∨ NB_SIZE = 32
  | DEFAULT => True
  end.

(** The step of a build's tile kernel with the weights as the vector
    kernels hold them, in 32-bit lanes. *)
Definition kernel_step_lanes (cap : cpu_capability) (NB_SIZE : Z)
    (A : ptr BFloat16) (B : ptr Z) (S : ptr BFloat16)
    (lda ldb ldc BLOCK_K m n : Z) (c_val : float) (k : Z) : float :=
  match cap with
  | AVX512 => avx512_step NB_SIZE A B S lda ldb ldc BLOCK_K m n c_val k
  | AVX2 => avx2_step NB_SIZE A B S lda ldb ldc BLOCK_K m n c_val k
  | DEFAULT => scalar_step A B S lda ldb ldc BLOCK_K m n c_val k
  end.

(** The pointers the scheduler hands to the tile that holds the element
    in row [row] and column [col] of the output. *)
Definition tile_nb_start (cap : cpu_capability) (col : Z) : Z :=
  col `quot` BLOCK_N cap * BLOCK_N cap.
Definition tile_mb_start (row : Z) : Z := row `quot` BLOCK_M * BLOCK_M.

(** The element in row [row] and column [col] of the output, as the tile
    kernel of the build [cap] computes it. *)
Definition mm_elem (cap : cpu_capability)
    (step : cpu_capability → Z → ptr BFloat16 → ptr Z → ptr BFloat16 →
            Z → Z → Z → Z → Z → Z → float → Z → float)
    (A_data : list BFloat16) (B_data : list Z) (S_data : list BFloat16)
    (N K BLOCK_K row col : Z) : BFloat16 :=
  let mb_start := tile_mb_start row in
  let nb_start := tile_nb_start cap col in
  let nb_size := Z.min (BLOCK_N cap) (N - nb_start) in
  float_to_bf16
    (foldl (step cap nb_size
              (ptr_add (Ptr A_data 0) (mb_start * K))
              (ptr_add (Ptr B_data 0) ((nb_start * K) `quot` 2))
              (ptr_add (Ptr S_data 0) (nb_start * 2))
              K (nb_size `quot` 2) N BLOCK_K (row - mb_start) (col - nb_start))
       (float_of_int 0) (irange K)).

(** One [k] step of a vector build for the element in row [row] and
    column [col] of the output, on the whole buffers and on the weights
    [W] as they were before packing. *)
Definition fused_step (cap : cpu_capability) (A_data : list BFloat16) (W : list Z)
    (S_data : list BFloat16) (N K BLOCK_K row col : Z) (c_val : float) (k : Z) : float :=
  let kb := group_at BLOCK_K k in
  let scale := bf16_to_float (load S_data ((kb * N + col) * 2)) in
  let zero := bf16_to_float (load S_data ((kb * N + col) * 2 + 1)) in
  let a_val := bf16_to_float (load A_data (row * K + k)) in
  let w := load W (col * K + k) in
  match cap with
  | AVX2 =>
      fmadd a_val (fmadd (float_of_int w) scale (fmadd scale (float_of_int (-8)) zero)) c_val
  | _ => fmadd a_val (fmadd (float_of_int (w - 8)) scale zero) c_val
  end.

End VectorModel.

(** * Concrete data, on IEEE binary32 with bfloat16 storage *)

(** The scenario of the spec: M = 1, N = 16, K = 32, group_size = 32, every
    scale 1 and every zero point 0, every activation 1, and every weight
    equal to [w]. *)
Definition scenario (cap : cpu_capability) (w : Z) (num_threads : Z)
    : outcome * @out_buf IEEE.binary32 :=
  let B_data := weight_to_int4pack_kernel cap (replicate 256 0) (replicate 512 w) 16 32 in
  let S_data : list spec_float :=
    mjoin (replicate 16 [IEEE.bf16_of_int 1; IEEE.bf16_of_int 0]) in
  @int4pack_mm_kernel IEEE.binary32 cap (replicate 32 (IEEE.bf16_of_int 1)) B_data S_data
    1 16 32 32 num_threads (@OutBuf IEEE.binary32 (replicate 16 (IEEE.bf16_of_int 99)) []).

(** The weights -8, -7, ..., 7, one column each (N = 16, K = 1). *)
Definition all_int4_values : list Z := seqZ (-8) 16.

(** A block of 64 columns (K = 1) with 1 in column 0, 2 in column 16 and 0
    elsewhere, and a block of 32 columns with 1 in column 0 and 2 in
    column 8. *)
Definition lanes_0_16 : list Z := <[16%nat := 2]> (<[0%nat := 1]> (replicate 64 0)).
Definition lanes_0_8 : list Z := <[8%nat := 2]> (<[0%nat := 1]> (replicate 32 0)).

(** 32 activations equal to 1, and the pairs (scale 1, zero 0) of 16
    columns. *)
Definition ones_32 : list spec_float := replicate 32 (IEEE.bf16_of_int 1).
Definition unit_pairs_16 : list spec_float :=
  mjoin (replicate 16 [IEEE.bf16_of_int 1; IEEE.bf16_of_int 0]).

(** Two groups of pairs for 16 columns: scale 1 in the first group and
    scale 2 in the second. *)
Definition two_groups : list spec_float :=
  mjoin (replicate 16 [IEEE.bf16_of_int 1; IEEE.bf16_of_int 0])
  ++ mjoin (replicate 16 [IEEE.bf16_of_int 2; IEEE.bf16_of_int 0]).

(** Eight packed bytes, and a row of 32 packed bytes. *)
Definition packed_8 : list Z := [33; 67; 101; 135; 169; 203; 237; 15].
Definition packed_row : list Z := replicate 32 255.

(** 64 activations equal to 1 (M = 2, K = 32), 640 packed bytes with both
    nibbles 15 (N = 40, K = 32), and the pairs (scale 1, zero 0) of 40
    columns. *)
Definition ones_64 : list spec_float := replicate 64 (IEEE.bf16_of_int 1).
Definition bytes_640 : list Z := replicate 640 255.
Definition unit_pairs_40 : list spec_float :=
  mjoin (replicate 40 [IEEE.bf16_of_int 1; IEEE.bf16_of_int 0]).

(** * Proofs *)

(** Linear arithmetic with C's division and remainder. *)
Ltac clia := Z.to_euclidean_division_equations; lia.
Ltac cnia := Z.to_euclidean_division_equations; nia.

(** ** Loads and stores *)

Section BufferFacts.
Context {X : Type} `{!Inhabited X}.
Implicit Types (p : list X) (i j : Z) (x : X) (ws : list (Z * X)).

Lemma length_store p i x : length (store p i x) = length p.
Proof. unfold store. case_bool_decide; [apply length_insert | done]. Qed.

Lemma load_store_eq p i x :
  0 ≤ i < Z.of_nat (length p) → load (store p i x) i = x.
Proof.
  intros Hi. unfold load, store. rewrite !bool_decide_eq_true_2 by lia.
  rewrite list_lookup_total_alt, list_lookup_insert_eq by lia. done.
Qed.

Lemma load_store_ne p i j x : i ≠ j → load (store p i x) j = load p j.
Proof.
  intros Hne. unfold load, store. repeat case_bool_decide; try done.
  rewrite !list_lookup_total_alt, list_lookup_insert_ne by lia. done.
Qed.

Lemma apply_writes_cons p w ws :
  apply_writes p (w :: ws) = apply_writes (store p w.1 w.2) ws.
Proof. done. Qed.

Lemma length_apply_writes ws p : length (apply_writes p ws) = length p.
Proof.
  revert p. induction ws as [|w ws IH]; intros p; [done|].
  rewrite apply_writes_cons, IH. apply length_store.
Qed.

Lemma apply_writes_app p ws1 ws2 :
  apply_writes p (ws1 ++ ws2) = apply_writes (apply_writes p ws1) ws2.
Proof. apply foldl_app. Qed.

(** A loop whose body is a sequence of stores is one. *)
Lemma foldl_apply_writes {A} (f : list X → A → list X) (g : A → list (Z * X))
    (l : list A) p :
  (∀ p a, f p a = apply_writes p (g a)) →
  foldl f p l = apply_writes p (l ≫= g).
Proof.
  intros Hf. revert p. induction l as [|a l IH]; intros p; [done|].
  simpl. rewrite IH, apply_writes_app, Hf. done.
Qed.

Lemma load_Forall (P : X → Prop) p n :
  Z.of_nat (length p) = n → Forall P p → ∀ j, 0 ≤ j < n → P (load p j).
Proof.
  intros Hlen HP j Hj. unfold load. rewrite bool_decide_eq_true_2 by lia.
  rewrite Forall_lookup in HP. apply (HP (Z.to_nat j)).
  apply list_lookup_lookup_total_lt. lia.
Qed.

(** A location no store hits keeps its contents. *)
Lemma apply_writes_miss ws p i :
  (∀ w, w ∈ ws → w.1 ≠ i) → load (apply_writes p ws) i = load p i.
Proof.
  revert p. induction ws as [|w ws IH]; intros p Hmiss; [done|].
  rewrite apply_writes_cons, IH.
  - apply load_store_ne. apply Hmiss. left.
  - intros w' Hw'. apply Hmiss. by right.
Qed.

(** A location that is hit, and only ever with the value [x], holds [x]. *)
Lemma apply_writes_hit ws p i x :
  0 ≤ i < Z.of_nat (length p) →
  (∃ w, w ∈ ws ∧ w.1 = i) →
  (∀ w, w ∈ ws → w.1 = i → w.2 = x) →
  load (apply_writes p ws) i = x.
Proof.
  intros Hi. induction ws as [|w ws IH] using rev_ind; intros Hex Hval.
  - destruct Hex as (w & Hw & _). by apply elem_of_nil in Hw.
  - rewrite apply_writes_app. change (apply_writes ?q [w]) with (store q w.1 w.2).
    destruct (decide (w.1 = i)) as [Heq|Hne].
    + rewrite Heq. rewrite load_store_eq by (by rewrite length_apply_writes).
      apply Hval; [|done]. apply elem_of_app. right. apply list_elem_of_singleton. done.
    + rewrite load_store_ne by done. apply IH.
      * destruct Hex as (w' & Hw' & Hw'i).
        apply elem_of_app in Hw' as [Hw'|Hw']; [by exists w'|].
        apply list_elem_of_singleton in Hw'. by subst.
      * intros w' Hw'. apply Hval. apply elem_of_app. by left.
Qed.
End BufferFacts.

(** ** Index ranges *)

Lemma elem_of_irange n k : k ∈ irange n ↔ 0 ≤ k < n.
Proof. unfold irange. rewrite elem_of_seqZ. lia. Qed.

Lemma elem_of_irange2 b e k : k ∈ irange2 b e ↔ b ≤ k < e.
Proof. unfold irange2. rewrite elem_of_seqZ. lia. Qed.

Lemma elem_of_irange_by2 stop n :
  n ∈ irange_by2 stop ↔ 0 ≤ n < stop ∧ n `rem` 2 = 0.
Proof.
  unfold irange_by2. rewrite list_elem_of_fmap. setoid_rewrite elem_of_seqZ.
  split.
  - intros (j & -> & Hj). clia.
  - intros [Hn Hr]. exists (n `quot` 2). clia.
Qed.

(** ** The packer as a sequence of stores *)

Lemma pack_row_is_writes cap src K k nb_size dst out :
  pack_row cap src K k nb_size dst out
  = apply_writes out (pack_row_writes cap src K k nb_size dst).
Proof.
  unfold pack_row, pack_row_writes, pack_full_avx512, pack_full_avx2, pack_adjacent.
  destruct cap; repeat case_match; by apply foldl_apply_writes.
Qed.

Lemma pack_block_is_writes cap weight_data N K i out :
  pack_block cap weight_data N K i out
  = apply_writes out (pack_block_writes cap weight_data N K i).
Proof.
  unfold pack_block, pack_block_writes. apply foldl_apply_writes.
  intros. apply pack_row_is_writes.
Qed.

Lemma pack_is_writes cap out weight_data N K :
  weight_to_int4pack_kernel cap out weight_data N K
  = apply_writes out (pack_writes cap weight_data N K).
Proof.
  unfold weight_to_int4pack_kernel, pack_writes. apply foldl_apply_writes.
  intros. apply pack_block_is_writes.
Qed.

(** ** Where the packer puts a column *)

Lemma elem_of_pack_row_writes cap src K k nb_size dst w :
  w ∈ pack_row_writes cap src K k nb_size dst ↔
    if is_strided cap nb_size
    then ∃ d, 0 ≤ d < BLOCK_N cap `quot` 2
              ∧ w = strided_write src K k dst (BLOCK_N cap `quot` 2) d
    else ∃ n, (0 ≤ n < nb_size ∧ n `rem` 2 = 0)
              ∧ w = adjacent_write src K k nb_size dst n.
Proof.
  assert (Hadj : ∀ w,
    w ∈ (irange_by2 nb_size ≫= λ n,
      [(dst + ((k * nb_size) `quot` 2 + n `quot` 2),
        pack_nibbles (ptr_get src (n * K + k)) (ptr_get src (n * K + K + k)))])
    ↔ ∃ n, (0 ≤ n < nb_size ∧ n `rem` 2 = 0) ∧ w = adjacent_write src K k nb_size dst n).
  { intros w'. rewrite list_elem_of_bind. setoid_rewrite list_elem_of_singleton.
    setoid_rewrite elem_of_irange_by2. unfold adjacent_write.
    split; [intros (n & -> & Hn) | intros (n & Hn & ->)]; by exists n. }
  unfold pack_row_writes, is_strided.
  destruct cap; [| |by apply Hadj]; (destruct (nb_size =? _); [|by apply Hadj]).
  - rewrite list_elem_of_bind. setoid_rewrite elem_of_irange.
    unfold strided_write. change (BLOCK_N AVX512 `quot` 2) with 32. split.
    + intros (d & Hw & Hd).
      apply elem_of_cons in Hw as [->|Hw]; [|apply list_elem_of_singleton in Hw as ->].
      * exists d. split; [lia|]. do 3 f_equal; lia.
      * exists (16 + d). split; [lia|]. f_equal; [lia|]. f_equal; f_equal; lia.
    + intros (d & Hd & ->). destruct (decide (d < 16)).
      * exists d. split; [|lia]. apply elem_of_cons. left. do 3 f_equal; lia.
      * exists (d - 16). split; [|lia]. apply elem_of_cons. right.
        apply list_elem_of_singleton.
        f_equal; [lia|]. f_equal; f_equal; lia.
  - rewrite list_elem_of_bind. setoid_rewrite elem_of_irange.
    setoid_rewrite list_elem_of_singleton.
    unfold strided_write. change (BLOCK_N AVX2 `quot` 2) with 16. split.
    + intros (d & -> & Hd). exists d. split; [done|]. do 3 f_equal; lia.
    + intros (d & Hd & ->). exists d. split; [|done]. do 3 f_equal; lia.
Qed.

Lemma BLOCK_N_cases cap : BLOCK_N cap = 64 ∨ BLOCK_N cap = 32.
Proof. destruct cap; [left|right|right]; done. Qed.

Lemma elem_of_pack_writes cap W N K w :
  w ∈ pack_writes cap W N K ↔
    ∃ i k, (0 ≤ i ∧ i * BLOCK_N cap < N) ∧ 0 ≤ k < K
      ∧ w ∈ pack_row_writes cap (Ptr W (i * BLOCK_N cap * K)) K k
              (Z.min (BLOCK_N cap) (N - i * BLOCK_N cap)) ((i * K * BLOCK_N cap) `quot` 2).
Proof.
  unfold pack_writes, pack_block_writes. rewrite list_elem_of_bind.
  setoid_rewrite list_elem_of_bind. setoid_rewrite elem_of_irange2.
  setoid_rewrite elem_of_irange.
  assert (Hnb : ∀ i, 0 ≤ i < (N + BLOCK_N cap - 1) `quot` BLOCK_N cap
                     ↔ 0 ≤ i ∧ i * BLOCK_N cap < N).
  { intros i. destruct (BLOCK_N_cases cap) as [-> | ->]; clia. }
  split.
  - intros (i & (k & Hw & Hk) & Hi). exists i, k. by rewrite <- Hnb.
  - intros (i & k & Hi & Hk & Hw). exists i. rewrite Hnb. eauto.
Qed.

(** The stores of a row stay inside the block's part of the buffer. *)
Lemma pack_row_writes_region cap src K k nb_size dst w :
  w ∈ pack_row_writes cap src K k nb_size dst →
  0 ≤ k < K → 0 < nb_size ≤ BLOCK_N cap →
  dst ≤ w.1 < dst + K * (BLOCK_N cap `quot` 2).
Proof.
  rewrite elem_of_pack_row_writes. intros Hw Hk Hnb.
  destruct (is_strided cap nb_size).
  - destruct Hw as (d & Hd & ->). unfold strided_write. simpl.
    destruct (BLOCK_N_cases cap) as [HB | HB]; rewrite HB in *.
    + change (64 `quot` 2) with 32 in *. lia.
    + change (32 `quot` 2) with 16 in *. lia.
  - destruct Hw as (n & [Hn Hr] & ->). unfold adjacent_write. simpl.
    assert (0 ≤ k * nb_size) by nia.
    assert (k * nb_size + nb_size ≤ K * nb_size) by nia.
    assert (K * nb_size ≤ K * BLOCK_N cap) by nia.
    destruct (BLOCK_N_cases cap) as [HB | HB]; rewrite HB in *.
    + change (64 `quot` 2) with 32. clia.
    + change (32 `quot` 2) with 16. clia.
Qed.

(** A store that lands in the part of block [i] is a store of block [i]. *)
Lemma pack_writes_block cap W N K w i :
  w ∈ pack_writes cap W N K → 0 ≤ i →
  (i * K * BLOCK_N cap) `quot` 2 ≤ w.1
    < (i * K * BLOCK_N cap) `quot` 2 + K * (BLOCK_N cap `quot` 2) →
  ∃ k, 0 ≤ k < K
    ∧ w ∈ pack_row_writes cap (Ptr W (i * BLOCK_N cap * K)) K k
            (Z.min (BLOCK_N cap) (N - i * BLOCK_N cap)) ((i * K * BLOCK_N cap) `quot` 2).
Proof.
  rewrite elem_of_pack_writes. intros (i' & k & Hi' & Hk & Hw) Hi Hreg.
  pose proof (pack_row_writes_region _ _ _ _ _ _ _ Hw Hk) as Hreg'.
  assert (i' = i) as ->; [|by exists k].
  destruct (BLOCK_N_cases cap) as [HB | HB]; rewrite HB in *.
  - change (64 `quot` 2) with 32 in *.
    replace ((i * K * 64) `quot` 2) with (i * K * 32) in Hreg by clia.
    replace ((i' * K * 64) `quot` 2) with (i' * K * 32) in Hreg' by clia.
    nia.
  - change (32 `quot` 2) with 16 in *.
    replace ((i * K * 32) `quot` 2) with (i * K * 16) in Hreg by clia.
    replace ((i' * K * 32) `quot` 2) with (i' * K * 16) in Hreg' by clia.
    nia.
Qed.

Lemma is_strided_full cap nb_size :
  is_strided cap nb_size = true → nb_size = BLOCK_N cap.
Proof. unfold is_strided. destruct cap; lia. Qed.

(** In a block packed with the strided scheme, byte [d] of row [k] pairs
    column [d] with column [d + BLOCK_N / 2]. *)
Lemma pack_strided_layout cap out W N K i k d :
  let BN := BLOCK_N cap in
  is_strided cap (Z.min BN (N - i * BN)) = true →
  0 ≤ i → 0 ≤ k < K → 0 ≤ d < BN `quot` 2 →
  (N * K) `quot` 2 ≤ Z.of_nat (length out) →
  load (weight_to_int4pack_kernel cap out W N K)
       ((i * K * BN) `quot` 2 + (k * (BN `quot` 2) + d))
  = pack_nibbles (load W (i * BN * K + (d * K + k)))
                 (load W (i * BN * K + ((d + BN `quot` 2) * K + k))).
Proof.
  intros BN Hs Hi Hk Hd Hlen. subst BN. rewrite pack_is_writes.
  pose proof (is_strided_full _ _ Hs) as Hfull.
  assert (Hpos : 0 < BLOCK_N cap) by (destruct (BLOCK_N_cases cap); lia).
  assert (Hin : strided_write (Ptr W (i * BLOCK_N cap * K)) K k
                  ((i * K * BLOCK_N cap) `quot` 2) (BLOCK_N cap `quot` 2) d
                ∈ pack_writes cap W N K).
  { apply elem_of_pack_writes. exists i, k. split_and!; try lia.
    apply elem_of_pack_row_writes. rewrite Hs. by exists d. }
  apply apply_writes_hit.
  - destruct (BLOCK_N_cases cap) as [HB | HB]; rewrite HB in *; cnia.
  - eexists. split; [exact Hin|done].
  - intros w Hw Hw1.
    apply pack_writes_block with (i := i) in Hw as (k' & Hk' & Hw); [|lia|].
    + apply elem_of_pack_row_writes in Hw. rewrite Hs in Hw.
      destruct Hw as (d' & Hd' & ->). unfold strided_write in *. simpl in *.
      assert (k' = k ∧ d' = d) as [-> ->]; [|done].
      destruct (BLOCK_N_cases cap) as [HB | HB]; rewrite HB in *;
        [change (64 `quot` 2) with 32 in * | change (32 `quot` 2) with 16 in *]; lia.
    + rewrite Hw1.
      destruct (BLOCK_N_cases cap) as [HB | HB]; rewrite HB in *;
        [change (64 `quot` 2) with 32 in * | change (32 `quot` 2) with 16 in *]; lia.
Qed.

(** In a block packed with the adjacent scheme, byte [n / 2] of row [k]
    pairs the even column [n - n % 2] with the next one. *)
Lemma pack_adjacent_layout cap out W N K i k n :
  let BN := BLOCK_N cap in
  let nb_size := Z.min BN (N - i * BN) in
  is_strided cap nb_size = false → nb_size `rem` 2 = 0 →
  0 ≤ i → 0 ≤ k < K → 0 ≤ n < nb_size →
  (N * K) `quot` 2 ≤ Z.of_nat (length out) →
  load (weight_to_int4pack_kernel cap out W N K)
       ((i * K * BN) `quot` 2 + ((k * nb_size) `quot` 2 + n `quot` 2))
  = pack_nibbles (load W (i * BN * K + ((n - n `rem` 2) * K + k)))
                 (load W (i * BN * K + ((n - n `rem` 2) * K + K + k))).
Proof.
  intros BN nb_size Hs Hev Hi Hk Hn Hlen. rewrite pack_is_writes.
  assert (Hnb : 0 < nb_size ≤ BN) by (subst nb_size; lia).
  assert (HnbN : i * BN + nb_size ≤ N) by (subst nb_size; lia).
  assert (Hdef : Z.min BN (N - i * BN) = nb_size) by done.
  clearbody nb_size. subst BN.
  assert (Hpos : 0 < BLOCK_N cap) by (destruct (BLOCK_N_cases cap); lia).
  destruct (Z.rem_divide nb_size 2) as [Hdiv _]; [done|].
  destruct (Hdiv Hev) as [h Hh]. clear Hdiv.
  assert (Hquot : ∀ x, (x * nb_size) `quot` 2 = x * h).
  { intros x. rewrite Hh, Z.mul_assoc. by apply Z.quot_mul. }
  assert (Hin : adjacent_write (Ptr W (i * BLOCK_N cap * K)) K k nb_size
                  ((i * K * BLOCK_N cap) `quot` 2) (n - n `rem` 2)
                ∈ pack_writes cap W N K).
  { apply elem_of_pack_writes. exists i, k. split_and!; try lia.
    rewrite Hdef. apply elem_of_pack_row_writes. rewrite Hs. exists (n - n `rem` 2).
    split; [clia|done]. }
  apply apply_writes_hit.
  - rewrite Hquot.
    assert (k * h + h ≤ K * h) by nia.
    assert (0 ≤ k * h ∧ 0 ≤ i * K) as [? ?] by nia.
    assert (i * K * BLOCK_N cap + 2 * (K * h) ≤ N * K) by nia.
    destruct (BLOCK_N_cases cap) as [HB | HB]; rewrite HB in *; clia.
  - eexists. split; [exact Hin|]. unfold adjacent_write. simpl.
    do 2 f_equal. clia.
  - intros w Hw Hw1.
    apply pack_writes_block with (i := i) in Hw as (k' & Hk' & Hw); [|lia|].
    + rewrite Hdef in Hw. apply elem_of_pack_row_writes in Hw. rewrite Hs in Hw.
      destruct Hw as (n' & [Hn' Hr'] & ->). unfold adjacent_write in *. simpl in *.
      rewrite !Hquot in Hw1.
      assert (k' = k ∧ n' = n - n `rem` 2) as [-> ->]; [|done].
      assert (0 ≤ n' `quot` 2 < h ∧ 0 ≤ n `quot` 2 < h) as [? ?] by clia.
      assert (k' = k) by nia. subst k'. split; [done|]. clia.
    + rewrite Hw1, Hquot.
      assert (k * h + h ≤ K * h) by nia.
      assert (0 ≤ k * h) by nia.
      assert (K * h ≤ K * (BLOCK_N cap `quot` 2)).
      { destruct (BLOCK_N_cases cap) as [HB | HB]; rewrite HB in *;
          [change (64 `quot` 2) with 32 in * | change (32 `quot` 2) with 16 in *]; nia. }
      clia.
Qed.

(** ** Nibbles *)

Lemma nibble_cases (v : Z) : 0 ≤ v < 16 → v ∈ seqZ 0 16.
Proof. intros. apply elem_of_seqZ. lia. Qed.

Lemma pack_nibbles_table :
  forallb (λ v0, forallb (λ v1,
      (Z.land (pack_nibbles v0 v1) 15 =? v0) && (Z.shiftr (pack_nibbles v0 v1) 4 =? v1))
    (seqZ 0 16)) (seqZ 0 16) = true.
Proof. vm_compute. reflexivity. Qed.

Lemma pack_nibbles_unpack v0 v1 :
  0 ≤ v0 < 16 → 0 ≤ v1 < 16 →
  Z.land (pack_nibbles v0 v1) 15 = v0 ∧ Z.shiftr (pack_nibbles v0 v1) 4 = v1.
Proof.
  intros H0 H1. pose proof pack_nibbles_table as Ht.
  rewrite forallb_forall in Ht.
  specialize (Ht v0 (proj1 (list_elem_of_In _ _) (nibble_cases _ H0))).
  rewrite forallb_forall in Ht.
  specialize (Ht v1 (proj1 (list_elem_of_In _ _) (nibble_cases _ H1))).
  apply andb_true_iff in Ht as [Hl Hh]. lia.
Qed.

Lemma pack_nibbles_range v0 v1 : 0 ≤ pack_nibbles v0 v1 < 256.
Proof. unfold pack_nibbles, to_uint8. apply Z.mod_pos_bound. lia. Qed.

Section KernelFacts.
Context `{FloatOps}.

Lemma lut_spec (u : Z) : 0 ≤ u < 16 → load lut u = float_of_int (u - 8).
Proof.
  intros Hu. apply nibble_cases in Hu.
  repeat (apply elem_of_cons in Hu as [-> | Hu]; [reflexivity|]).
  by apply elem_of_nil in Hu.
Qed.

(** The non-vectorized conversion of a packed byte. *)
Lemma convert_int4_to_float_pack v0 v1 (is_even : bool) :
  0 ≤ v0 < 16 → 0 ≤ v1 < 16 →
  convert_int4_to_float (pack_nibbles v0 v1) is_even
  = float_of_int ((if is_even then v0 else v1) - 8).
Proof.
  intros H0 H1. unfold convert_int4_to_float.
  destruct (pack_nibbles_unpack v0 v1 H0 H1) as [Hl Hh].
  destruct is_even; [rewrite Hl | rewrite Hh]; by apply lut_spec.
Qed.

Lemma pack_unpack_scalar out W N K n k :
  N `rem` 2 = 0 → 0 ≤ n < N → 0 ≤ k < K →
  (N * K) `quot` 2 ≤ Z.of_nat (length out) →
  (∀ j, 0 ≤ j < N * K → 0 ≤ load W j < 16) →
  kernel_unpack_scalar (weight_to_int4pack_kernel DEFAULT out W N K) N K n k
  = float_of_int (load W (n * K + k) - 8).
Proof.
  intros HN Hn Hk Hlen HW. unfold kernel_unpack_scalar, scalar_unpack, ptr_get, ptr_add.
  cbn [ptr_mem ptr_off]. change (BLOCK_N DEFAULT) with 32.
  set (i := n `quot` 32). set (nl := n - i * 32).
  set (nb_size := Z.min 32 (N - i * 32)).
  assert (Hi : 0 ≤ i ∧ i * 32 ≤ n < i * 32 + 32) by (subst i; clia).
  assert (Hnl : 0 ≤ nl < nb_size) by (subst nl nb_size; lia).
  assert (Hev : nb_size `rem` 2 = 0) by (subst nb_size; clia).
  pose proof (pack_adjacent_layout DEFAULT out W N K i k nl) as Hlay.
  cbn zeta in Hlay. change (BLOCK_N DEFAULT) with 32 in Hlay. fold nb_size in Hlay.
  specialize (Hlay eq_refl Hev (proj1 Hi) Hk Hnl Hlen).
  replace (0 + (i * 32 * K) `quot` 2 + (k * nb_size `quot` 2 + nl `quot` 2))
    with ((i * K * 32) `quot` 2 + ((k * nb_size) `quot` 2 + nl `quot` 2)).
  2:{ replace (i * 32 * K) with (i * K * 32) by lia.
      destruct (Z.rem_divide nb_size 2) as [Hdiv _]; [done|].
      destruct (Hdiv Hev) as [h Hh]. rewrite Hh.
      rewrite Z.mul_assoc, !Z.quot_mul by done. lia. }
  rewrite Hlay.
  assert (0 ≤ i * 32 * K ∧ i * 32 * K + nb_size * K ≤ N * K) as [? ?] by (subst nb_size; nia).
  assert (0 ≤ (nl - nl `rem` 2) * K ∧ (nl - nl `rem` 2) * K + K + K ≤ nb_size * K) as [? ?].
  { assert (0 ≤ nl - nl `rem` 2 ∧ nl - nl `rem` 2 + 2 ≤ nb_size) by clia. nia. }
  rewrite convert_int4_to_float_pack by (apply HW; lia).
  f_equal. f_equal.
  destruct (Z.eqb_spec (nl `rem` 2) 0) as [Hr | Hr]; f_equal.
  - subst nl. rewrite Hr. lia.
  - assert (nl `rem` 2 = 1) as -> by clia. subst nl. lia.
Qed.

(** C4, as amended: in a block of full width packed by a vector build,
    byte [d] of row [k] holds column [d] of the block in its low nibble and
    column [d + BLOCK_N / 2] in its high nibble (lane [d] with lane
    [d + 32] for 64 columns, with lane [d + 16] for 32 columns). *)
Theorem full_block_lane_pairing cap out W N K i k d :
  cap ≠ DEFAULT →
  0 ≤ i → (i + 1) * BLOCK_N cap ≤ N → 0 ≤ k < K → 0 ≤ d < BLOCK_N cap `quot` 2 →
  (N * K) `quot` 2 ≤ Z.of_nat (length out) →
  Z.of_nat (length W) = N * K → Forall (λ w, 0 ≤ w < 16) W →
  let b := load (weight_to_int4pack_kernel cap out W N K)
             ((i * K * BLOCK_N cap) `quot` 2 + (k * (BLOCK_N cap `quot` 2) + d)) in
  Z.land b 15 = load W ((i * BLOCK_N cap + d) * K + k)
  ∧ Z.shiftr b 4 = load W ((i * BLOCK_N cap + d + BLOCK_N cap `quot` 2) * K + k).
Proof.
  intros Hcap Hi Hfull Hk Hd Hlen HlenW HW0 b. subst b.
  pose proof (load_Forall _ _ _ HlenW HW0) as HW. cbn beta in HW.
  rewrite pack_strided_layout; [| |done..].
  2:{ replace (Z.min _ _) with (BLOCK_N cap) by lia.
      destruct cap; [apply Z.eqb_refl..|done]. }
  replace (i * BLOCK_N cap * K + (d * K + k)) with ((i * BLOCK_N cap + d) * K + k) by lia.
  replace (i * BLOCK_N cap * K + ((d + BLOCK_N cap `quot` 2) * K + k))
    with ((i * BLOCK_N cap + d + BLOCK_N cap `quot` 2) * K + k) by lia.
  assert (Hrange : 0 ≤ (i * BLOCK_N cap + d) * K + k
                   ∧ (i * BLOCK_N cap + d + BLOCK_N cap `quot` 2) * K + k < N * K).
  { destruct (BLOCK_N_cases cap) as [HB | HB]; rewrite HB in *;
      [change (64 `quot` 2) with 32 in * | change (32 `quot` 2) with 16 in *]; nia. }
  assert (0 < BLOCK_N cap `quot` 2).
  { destruct (BLOCK_N_cases cap) as [HB | HB]; rewrite HB; done. }
  apply pack_nibbles_unpack; apply HW; nia.
Qed.

(** ** Stores into [C] *)

Lemma apply_writes_C_app st ws1 ws2 :
  apply_writes_C st (ws1 ++ ws2) = apply_writes_C (apply_writes_C st ws1) ws2.
Proof. apply foldl_app. Qed.

Lemma C_data_apply_writes_C ws st :
  C_data (apply_writes_C st ws) = apply_writes (C_data st) ws.
Proof.
  revert st. induction ws as [|w ws IH]; intros st; [done|].
  change (apply_writes_C st (w :: ws)) with (apply_writes_C (store_C st w.1 w.2) ws).
  by rewrite IH.
Qed.

Lemma C_writes_apply_writes_C ws st :
  C_writes (apply_writes_C st ws) = C_writes st ++ ws.*1.
Proof.
  revert st. induction ws as [|w ws IH]; intros st.
  - simpl. by rewrite app_nil_r.
  - change (apply_writes_C st (w :: ws)) with (apply_writes_C (store_C st w.1 w.2) ws).
    rewrite IH. simpl. by rewrite <- app_assoc.
Qed.

Lemma foldl_apply_writes_C {A} (f : out_buf → A → out_buf) (g : A → list (Z * BFloat16))
    (l : list A) st :
  (∀ st a, f st a = apply_writes_C st (g a)) →
  foldl f st l = apply_writes_C st (l ≫= g).
Proof.
  intros Hf. revert st. induction l as [|a l IH]; intros st; [done|].
  simpl. rewrite IH, apply_writes_C_app, Hf. done.
Qed.

Lemma tinygemm_kernel_scalar_is_writes MB_SIZE NB_SIZE A B S C lda ldb ldc K BLOCK_K st :
  tinygemm_kernel_scalar MB_SIZE NB_SIZE A B S C lda ldb ldc K BLOCK_K st
  = apply_writes_C st
      (scalar_tile_writes MB_SIZE NB_SIZE A B S C lda ldb ldc K BLOCK_K).
Proof.
  unfold tinygemm_kernel_scalar, scalar_tile_writes.
  apply foldl_apply_writes_C. intros st' m.
  by apply foldl_apply_writes_C.
Qed.

Lemma storeu_C_is_writes st i vs :
  storeu_C st i vs = apply_writes_C st (storeu_writes i vs).
Proof. unfold storeu_C, storeu_writes, apply_writes_C. by rewrite foldl_fmap. Qed.

Lemma tinygemm_kernel_is_writes cap MB_SIZE NB_SIZE A B S C lda ldb ldc K BLOCK_K st :
  tinygemm_kernel cap MB_SIZE NB_SIZE A B S C lda ldb ldc K BLOCK_K st
  = apply_writes_C st (tile_writes cap MB_SIZE NB_SIZE A B S C lda ldb ldc K BLOCK_K).
Proof.
  destruct cap; simpl.
  - unfold tinygemm_kernel_avx512, ForcedUnroll. apply foldl_apply_writes_C.
    intros st' i. unfold storec_avx512, storec_writes_avx512.
    repeat case_match; rewrite ?apply_writes_C_app, ?storeu_C_is_writes; done.
  - unfold tinygemm_kernel_avx2, ForcedUnroll. apply foldl_apply_writes_C.
    intros st' i. unfold storec_avx2, storec_writes_avx2.
    repeat case_match; rewrite ?storeu_C_is_writes; done.
  - apply tinygemm_kernel_scalar_is_writes.
Qed.

Lemma fmap_bind {A B C} (f : B → C) (g : A → list B) (l : list A) :
  f <$> (l ≫= g) = l ≫= (λ x, f <$> g x).
Proof.
  induction l as [|x l IH]; [done|].
  by rewrite !bind_cons, fmap_app, IH.
Qed.

Lemma foldl_ext_in {A B} (f g : A → B → A) (l : list B) (a : A) :
  (∀ a x, x ∈ l → f a x = g a x) → foldl f a l = foldl g a l.
Proof.
  revert a. induction l as [|x l IH]; intros a Hfg; [done|].
  simpl. rewrite Hfg by left. apply IH. intros a' y Hy. apply Hfg. by right.
Qed.


(** ** Group boundaries in the K loop of the vector kernels *)

Lemma is_block_start_pow2 j k :
  0 ≤ j → is_block_start k (2 ^ j) = true ↔ k `mod` 2 ^ j = 0.
Proof.
  intros Hj. unfold is_block_start. rewrite Z.eqb_eq.
  replace (2 ^ j - 1) with (Z.ones j) by (rewrite Z.ones_equiv; lia).
  by rewrite Z.land_ones.
Qed.

Lemma div_at_boundary B k :
  0 < B → k `mod` B = 0 →
  (k + B - 1) `div` B = k `div` B ∧ (k + 1 + B - 1) `div` B = k `div` B + 1.
Proof.
  intros HB Hm. pose proof (Z.div_mod k B ltac:(lia)) as Hk. rewrite Hm in Hk.
  split; symmetry.
  - apply Z.div_unique with (r := B - 1); lia.
  - apply Z.div_unique with (r := 0); lia.
Qed.

Lemma div_inside_group B k :
  0 < B → k `mod` B ≠ 0 →
  (k + B - 1) `div` B = k `div` B + 1
  ∧ (k + 1 + B - 1) `div` B = k `div` B + 1
  ∧ (k - 1) `div` B = k `div` B.
Proof.
  intros HB Hm. pose proof (Z.div_mod k B ltac:(lia)) as Hk.
  pose proof (Z.mod_pos_bound k B HB) as Hr.
  split_and!; symmetry.
  - apply Z.div_unique with (r := k `mod` B - 1); lia.
  - apply Z.div_unique with (r := k `mod` B); lia.
  - apply Z.div_unique with (r := k `mod` B - 1); lia.
Qed.

Section KLoop.
Context (ROWS COLS BLOCK_K : Z) (load_scale_and_zeros compute : Z → Z → regs → regs).
Context (Inv : regs → Prop) (Loaded : Z → regs → Prop).
Context (j : Z) (Hj : 0 ≤ j) (HBK : BLOCK_K = 2 ^ j).
Context (Hload : ∀ kb r, Inv r →
  Inv (ForcedUnroll COLS (λ i, load_scale_and_zeros i kb) r)
  ∧ Loaded kb (ForcedUnroll COLS (λ i, load_scale_and_zeros i kb) r)).
Context (Hcompute : ∀ k kb r, Inv r → Loaded kb r →
  Inv (ForcedUnroll (ROWS * COLS) (λ i, compute i k) r)
  ∧ Loaded kb (ForcedUnroll (ROWS * COLS) (λ i, compute i k) r)).

Local Abbreviation step := (k_loop_step ROWS COLS BLOCK_K load_scale_and_zeros compute).


End KLoop.

(** ** The reload of the scale and zero registers *)

Lemma ForcedUnroll_S {St} (n : nat) (f : Z → St → St) (s : St) :
  ForcedUnroll (Z.of_nat (S n)) f s = f (Z.of_nat n) (ForcedUnroll (Z.of_nat n) f s).
Proof. unfold ForcedUnroll, irange. by rewrite seqZ_S, foldl_snoc, Z.add_0_l. Qed.

Lemma ForcedUnroll_ind {St} (P : Z → St → Prop) (n : Z) (f : Z → St → St) (s : St) :
  P 0 s → (∀ i s', 0 ≤ i < n → P i s' → P (i + 1) (f i s')) →
  0 ≤ n → P n (ForcedUnroll n f s).
Proof.
  intros H0 Hstep Hn.
  assert (Hm : ∀ m : nat, Z.of_nat m ≤ n →
            P (Z.of_nat m) (ForcedUnroll (Z.of_nat m) f s)).
  { induction m as [|m IH]; intros Hle; [done|].
    rewrite ForcedUnroll_S. replace (Z.of_nat (S m)) with (Z.of_nat m + 1) by lia.
    apply Hstep; [lia|]. apply IH. lia. }
  rewrite <- (Z2Nat.id n) by done. apply Hm. lia.
Qed.

Lemma ForcedUnroll_neg {St} (n : Z) (f : Z → St → St) (s : St) :
  n ≤ 0 → ForcedUnroll n f s = s.
Proof. intros. unfold ForcedUnroll, irange. by rewrite seqZ_nil. Qed.

(** A loop that stores the pair of column vector [i] at its step [i]
    leaves all the pairs in the registers. *)
Lemma reload_loads COLS (ld : Z → regs → regs) (scales zeros : Z → list float) r :
  (∀ i r', 0 ≤ i < COLS → pair_regs_sized COLS r' →
     scale (ld i r') = store (scale r') i (scales i)
     ∧ zero (ld i r') = store (zero r') i (zeros i)) →
  pair_regs_sized COLS r →
  pair_regs_sized COLS (ForcedUnroll COLS ld r)
  ∧ pairs_loaded COLS scales zeros (ForcedUnroll COLS ld r).
Proof.
  intros Hld Hsz.
  destruct (decide (0 ≤ COLS)) as [HC | HC].
  2:{ rewrite ForcedUnroll_neg by lia. split; [done|]. intros c Hc. lia. }
  apply (ForcedUnroll_ind
    (λ n r', pair_regs_sized COLS r' ∧ pairs_loaded n scales zeros r')); [| |done].
  - split; [done|]. intros c Hc. lia.
  - intros i r' Hi [Hsz' Hl]. destruct (Hld i r' Hi Hsz') as [Es Ez].
    destruct Hsz' as [Ls Lz]. split.
    + unfold pair_regs_sized. by rewrite Es, Ez, !length_store.
    + intros c Hc. rewrite Es, Ez. destruct (decide (c = i)) as [-> | Hne].
      * by rewrite !load_store_eq by lia.
      * rewrite !load_store_ne by done. apply Hl. lia.
Qed.

Lemma ForcedUnroll_preserve {St X} (proj : St → X) (n : Z) (f : Z → St → St) (s : St) :
  (∀ i s', proj (f i s') = proj s') → proj (ForcedUnroll n f s) = proj s.
Proof.
  intros Hf. unfold ForcedUnroll. generalize (irange n). intros l. revert s.
  induction l as [|i l IH]; intros s; [done|]. simpl. by rewrite IH, Hf.
Qed.

Lemma load_vload {X} `{!Inhabited X} (p : ptr X) n j :
  0 ≤ j < n → load (vload p n) j = ptr_get p j.
Proof.
  intros Hj. unfold vload, load, irange. rewrite bool_decide_eq_true_2 by lia.
  rewrite list_lookup_total_alt, list_lookup_fmap, lookup_seqZ_lt by lia.
  simpl. f_equal. lia.
Qed.

Lemma length_vload {X} `{!Inhabited X} (p : ptr X) n :
  length (vload p n) = Z.to_nat n.
Proof. unfold vload, irange. by rewrite length_fmap, length_seqZ. Qed.

Lemma ptr_get_add {X} `{!Inhabited X} (p : ptr X) a b :
  ptr_get (ptr_add p a) b = ptr_get p (a + b).
Proof. unfold ptr_get, ptr_add. simpl. f_equal. lia. Qed.

(** The transposition of a loaded [{16, 2}] block into scales and zeros. *)
Lemma deinterleave_avx512 (t : list BFloat16) :
  length t = 32%nat →
  _mm512_mask_permutex2var_ps (cvtbf16_fp32 t).1 65535 idx1_512 (cvtbf16_fp32 t).2
  = (λ l, bf16_to_float (load t (l * 2))) <$> irange 16
  ∧ _mm512_mask_permutex2var_ps (cvtbf16_fp32 t).1 65535 idx2_512 (cvtbf16_fp32 t).2
    = (λ l, bf16_to_float (load t (l * 2 + 1))) <$> irange 16.
Proof.
  intros Hlen. do 33 (destruct t as [|? t]; try discriminate Hlen).
  split; vm_compute; reflexivity.
Qed.

Lemma deinterleave_avx2 (t : list BFloat16) :
  length t = 16%nat →
  let a := _mm256_permutevar8x32_ps (cvtbf16_fp32 t).1 idx1_256 in
  let b := _mm256_permutevar8x32_ps (cvtbf16_fp32 t).2 idx1_256 in
  _mm256_permute2f128_ps a b 32 = (λ l, bf16_to_float (load t (l * 2))) <$> irange 8
  ∧ _mm256_permute2f128_ps a b 49
    = (λ l, bf16_to_float (load t (l * 2 + 1))) <$> irange 8.
Proof.
  intros Hlen. do 17 (destruct t as [|? t]; try discriminate Hlen).
  split; vm_compute; reflexivity.
Qed.

Lemma deinterleaved_scales S off width (stride : Z) c kb ldc :
  0 ≤ width → width * 2 ≤ stride → off = kb * ldc * 2 + width * 2 * c →
  (λ l, bf16_to_float (load (vload (ptr_add S off) stride) (l * 2))) <$> irange width
  = group_scales S ldc width c kb
  ∧ (λ l, bf16_to_float (load (vload (ptr_add S off) stride) (l * 2 + 1))) <$> irange width
    = group_zeros S ldc width c kb.
Proof.
  intros Hw Hs ->. unfold group_scales, group_zeros.
  split; apply list_fmap_ext; intros ? l Hl%list_elem_of_lookup_2%elem_of_irange;
    rewrite load_vload, ptr_get_add by lia.
  - by replace (kb * ldc * 2 + width * 2 * c + l * 2)
      with (kb * ldc * 2 + (width * c + l) * 2) by lia.
  - by replace (kb * ldc * 2 + width * 2 * c + (l * 2 + 1))
      with (kb * ldc * 2 + (width * c + l) * 2 + 1) by lia.
Qed.

Lemma load_scale_and_zeros_avx512_effect S ldc COLS i kb r :
  0 ≤ i < COLS → pair_regs_sized COLS r →
  scale (load_scale_and_zeros_avx512 S ldc i kb r)
  = store (scale r) i (group_scales S ldc 16 i kb)
  ∧ zero (load_scale_and_zeros_avx512 S ldc i kb r)
    = store (zero r) i (group_zeros S ldc 16 i kb).
Proof.
  intros Hi Hsz. unfold load_scale_and_zeros_avx512.
  destruct (deinterleaved_scales S (kb * ldc * 2 + 32 * i) 16 32 i kb ldc) as [Hs Hz];
    [lia..|].
  destruct (deinterleave_avx512 (vload (ptr_add S (kb * ldc * 2 + 32 * i)) 32))
    as [Es Ez]; [by rewrite length_vload|].
  rewrite Hs in Es. rewrite Hz in Ez. clear Hs Hz.
  destruct (cvtbf16_fp32 _) as [a b]. cbn [fst snd] in Es, Ez. rewrite Es, Ez.
  split; reflexivity.
Qed.

Lemma load_scale_and_zeros_avx2_effect S ldc COLS i kb r :
  0 ≤ i < COLS → pair_regs_sized COLS r →
  scale (load_scale_and_zeros_avx2 S ldc i kb r)
  = store (scale r) i (group_scales S ldc 8 i kb)
  ∧ zero (load_scale_and_zeros_avx2 S ldc i kb r)
    = store (zero r) i (group_zeros_avx2 S ldc i kb).
Proof.
  intros Hi [Ls Lz]. unfold load_scale_and_zeros_avx2.
  destruct (deinterleaved_scales S (kb * ldc * 2 + 16 * i) 8 16 i kb ldc) as [Hs Hz];
    [lia..|].
  destruct (deinterleave_avx2 (vload (ptr_add S (kb * ldc * 2 + 16 * i)) 16))
    as [Es Ez]; [by rewrite length_vload|].
  cbn zeta in Es, Ez. rewrite Hs in Es. rewrite Hz in Ez. clear Hs Hz.
  destruct (cvtbf16_fp32 _) as [a b]. cbn [fst snd] in Es, Ez. rewrite Es, Ez.
  unfold set_zero, set_scale, group_zeros_avx2. cbn [scale zero].
  split; [reflexivity|].
  rewrite !load_store_eq by (rewrite ?length_store; lia).
  unfold store. case_bool_decide; [|lia]. by rewrite list_insert_insert_eq.
Qed.

Lemma compute_avx512_pairs NB_SIZE A B lda ldb i k r :
  scale (compute_avx512 NB_SIZE A B lda ldb i k r) = scale r
  ∧ zero (compute_avx512 NB_SIZE A B lda ldb i k r) = zero r.
Proof.
  unfold compute_avx512.
  repeat match goal with |- context [if ?b then _ else _] => destruct b end;
    cbn [scale zero set_va set_vb set_vc dequant_avx512]; split; reflexivity.
Qed.

Lemma compute_avx2_pairs NB_SIZE A B lda ldb i k r :
  scale (compute_avx2 NB_SIZE A B lda ldb i k r) = scale r
  ∧ zero (compute_avx2 NB_SIZE A B lda ldb i k r) = zero r.
Proof.
  unfold compute_avx2.
  repeat match goal with |- context [if ?b then _ else _] => destruct b end;
    cbn [scale zero set_va set_vb set_vc dequant_avx2]; split; reflexivity.
Qed.

Lemma regs_init_sized ROWS COLS n (loadc : Z → regs → regs) :
  0 ≤ COLS →
  (∀ i r, scale (loadc i r) = scale r ∧ zero (loadc i r) = zero r) →
  pair_regs_sized COLS (ForcedUnroll n loadc (regs_init ROWS COLS)).
Proof.
  intros HC Hl. unfold pair_regs_sized.
  rewrite (ForcedUnroll_preserve scale), (ForcedUnroll_preserve zero)
    by (intros; apply Hl).
  unfold regs_init. cbn [scale zero]. rewrite !length_replicate. lia.
Qed.



(** Iteration [k] of the K loop computes in the registers
    [k_loop_regs_at ... k]. *)
Lemma k_loop_iteration ROWS COLS BLOCK_K load_scale_and_zeros compute r0 k :
  0 ≤ k →
  (foldl (k_loop_step ROWS COLS BLOCK_K load_scale_and_zeros compute) (r0, 0)
     (irange (k + 1))).1
  = ForcedUnroll (ROWS * COLS) (λ i, compute i k)
      (k_loop_regs_at ROWS COLS BLOCK_K load_scale_and_zeros compute r0 k).
Proof.
  intros Hk. unfold k_loop_regs_at, irange.
  rewrite <- (Z2Nat.id k) at 1 by done.
  replace (Z.of_nat (Z.to_nat k) + 1) with (Z.of_nat (S (Z.to_nat k))) by lia.
  rewrite seqZ_S, foldl_snoc, Z.add_0_l, Z2Nat.id by done.
  unfold k_loop_step at 1. by destruct (k_loop_reload _ _ _ _ _).
Qed.


(** ** The scheduler's index arithmetic *)

Lemma data_index_step_divmod MB' NB' i :
  0 < NB' → 0 ≤ i →
  data_index_step (i `quot` NB') MB' (i `rem` NB') NB'
  = ((i + 1) `quot` NB', (i + 1) `rem` NB').
Proof.
  intros HNB Hi. unfold data_index_step.
  pose proof (Z.quot_rem' i NB') as Hqr.
  pose proof (Z.rem_bound_pos i NB' Hi HNB) as Hr.
  destruct (Z.eqb_spec (i `rem` NB' + 1) NB') as [Heq | Hne].
  - assert (i + 1 = (i `quot` NB' + 1) * NB') as -> by lia.
    rewrite Z.quot_mul, Z.rem_mul by lia. done.
  - assert (Hq : (i + 1) `quot` NB' = i `quot` NB').
    { symmetry. apply Z.quot_unique with (r := i `rem` NB' + 1); lia. }
    assert (Hm : (i + 1) `rem` NB' = i `rem` NB' + 1).
    { symmetry. apply Z.rem_unique with (q := i `quot` NB'); lia. }
    by rewrite Hq, Hm.
Qed.

(** ** Tile shapes *)

Lemma supported_mb_cases x :
  supported_mb x = true ↔ x = 1 ∨ x = 2 ∨ x = 3 ∨ x = 4.
Proof. unfold supported_mb. lia. Qed.

Lemma supported_nb_cases x :
  supported_nb x = true ↔ x = 16 ∨ x = 32 ∨ x = 48 ∨ x = 64.
Proof. unfold supported_nb. lia. Qed.

Lemma MB_spec M : 0 ≤ M → (MB M - 1) * BLOCK_M < M ≤ MB M * BLOCK_M.
Proof. unfold MB, BLOCK_M. intros. clia. Qed.

Lemma NB_spec cap N : 0 ≤ N → (NB cap N - 1) * BLOCK_N cap < N ≤ NB cap N * BLOCK_N cap.
Proof. unfold NB. intros. destruct (BLOCK_N_cases cap) as [-> | ->]; clia. Qed.

Lemma tile_coords cap M N i :
  0 ≤ i < MB M * NB cap N → 0 < NB cap N →
  (0 ≤ i `quot` NB cap N < MB M) ∧ (0 ≤ i `rem` NB cap N < NB cap N).
Proof.
  intros Hi HNB. split.
  - split; [apply Z.quot_pos; lia|]. apply Z.quot_lt_upper_bound; lia.
  - apply Z.rem_bound_pos; lia.
Qed.

Lemma tile_mb_size_range cap M N i :
  0 ≤ M → 0 ≤ i < MB M * NB cap N → 0 < NB cap N →
  1 ≤ tile_mb_size cap M N i ≤ 4.
Proof.
  intros HM Hi HNB. destruct (tile_coords cap M N i Hi HNB) as [Hmb _].
  pose proof (MB_spec M HM). unfold tile_mb_size, BLOCK_M in *. nia.
Qed.

Lemma tile_nb_size_range cap M N i :
  0 ≤ N → 0 ≤ i < MB M * NB cap N → 0 < NB cap N →
  1 ≤ tile_nb_size cap N i ≤ BLOCK_N cap
  ∧ i `rem` NB cap N * BLOCK_N cap + tile_nb_size cap N i ≤ N.
Proof.
  intros HN Hi HNB. destruct (tile_coords cap M N i Hi HNB) as [_ Hnb].
  pose proof (NB_spec cap N HN). unfold tile_nb_size.
  destruct (BLOCK_N_cases cap) as [HB | HB]; rewrite HB in *; nia.
Qed.

Lemma tile_mb_supported cap M N i :
  0 ≤ M → 0 ≤ i < MB M * NB cap N → 0 < NB cap N →
  supported_mb (tile_mb_size cap M N i) = true.
Proof.
  intros. apply supported_mb_cases.
  pose proof (tile_mb_size_range cap M N i). lia.
Qed.

Lemma tile_nb_supported cap M N i :
  0 ≤ N → N `rem` 16 = 0 → 0 ≤ i < MB M * NB cap N → 0 < NB cap N →
  supported_nb (tile_nb_size cap N i) = true.
Proof.
  intros HN H16 Hi HNB. apply supported_nb_cases.
  pose proof (tile_nb_size_range cap M N i HN Hi HNB) as [Hr _].
  assert (tile_nb_size cap N i `rem` 16 = 0).
  { unfold tile_nb_size. destruct (BLOCK_N_cases cap) as [HB | HB]; rewrite HB in *; clia. }
  destruct (BLOCK_N_cases cap) as [HB | HB]; rewrite HB in *; clia.
Qed.

Lemma NB_pos cap N : 0 < N → 0 < NB cap N.
Proof. unfold NB. intros. destruct (BLOCK_N_cases cap) as [-> | ->]; clia. Qed.

Lemma MB_pos M : 0 < M → 0 < MB M.
Proof. unfold MB, BLOCK_M. intros. clia. Qed.

Lemma MB_NB_nonneg cap M N : 0 ≤ M → 0 ≤ N → 0 ≤ MB M * NB cap N.
Proof.
  intros. assert (0 ≤ MB M) by (unfold MB, BLOCK_M; clia).
  assert (0 ≤ NB cap N) by (unfold NB; destruct (BLOCK_N_cases cap) as [-> | ->]; clia).
  nia.
Qed.

Lemma NB_pos_of_tiles cap M N : 0 ≤ N → 0 < MB M * NB cap N → 0 < NB cap N.
Proof.
  intros HN HT.
  assert (0 ≤ NB cap N) by (unfold NB; destruct (BLOCK_N_cases cap) as [-> | ->]; clia).
  destruct (decide (NB cap N = 0)) as [Hz | ?]; [|lia].
  rewrite Hz, Z.mul_0_r in HT. lia.
Qed.

(** ** The tiles partition the output *)

(** An element of a tile is the element of the output in row
    [mb * BLOCK_M + m] and column [nb * BLOCK_N + n]. *)
Lemma tile_addr_global cap M N i m n :
  0 ≤ N → 0 ≤ i < MB M * NB cap N → 0 < NB cap N →
  0 ≤ m < tile_mb_size cap M N i → 0 ≤ n < tile_nb_size cap N i →
  let row := i `quot` NB cap N * BLOCK_M + m in
  let col := i `rem` NB cap N * BLOCK_N cap + n in
  tile_addr cap N i m n = row * N + col ∧ 0 ≤ row < M ∧ 0 ≤ col < N.
Proof.
  intros HN Hi HNB Hm Hn row col.
  destruct (tile_coords cap M N i Hi HNB) as [Hmb Hnb].
  pose proof (tile_nb_size_range cap M N i HN Hi HNB) as [Hns HnsN].
  unfold tile_addr, tile_mb_size, BLOCK_M in *. subst row col.
  split_and!; try lia; nia.
Qed.

(** Two tile elements at the same index are the same element of the same
    tile. *)
Lemma tile_addr_inj cap M N i1 m1 n1 i2 m2 n2 :
  0 ≤ N → 0 < NB cap N →
  0 ≤ i1 < MB M * NB cap N → 0 ≤ i2 < MB M * NB cap N →
  0 ≤ m1 < tile_mb_size cap M N i1 → 0 ≤ n1 < tile_nb_size cap N i1 →
  0 ≤ m2 < tile_mb_size cap M N i2 → 0 ≤ n2 < tile_nb_size cap N i2 →
  tile_addr cap N i1 m1 n1 = tile_addr cap N i2 m2 n2 →
  i1 = i2 ∧ m1 = m2 ∧ n1 = n2.
Proof.
  intros HN HNB Hi1 Hi2 Hm1 Hn1 Hm2 Hn2 Heq.
  destruct (tile_addr_global cap M N i1 m1 n1) as (E1 & Hr1 & Hc1); [done..|].
  destruct (tile_addr_global cap M N i2 m2 n2) as (E2 & Hr2 & Hc2); [done..|].
  rewrite E1, E2 in Heq. clear E1 E2.
  destruct (tile_coords cap M N i1 Hi1 HNB) as [Hmb1 Hnb1].
  destruct (tile_coords cap M N i2 Hi2 HNB) as [Hmb2 Hnb2].
  pose proof (tile_nb_size_range cap M N i1 HN Hi1 HNB) as [Hns1 _].
  pose proof (tile_nb_size_range cap M N i2 HN Hi2 HNB) as [Hns2 _].
  pose proof (Z.quot_rem' i1 (NB cap N)) as Hqr1.
  pose proof (Z.quot_rem' i2 (NB cap N)) as Hqr2.
  unfold tile_mb_size, BLOCK_M in *.
  set (q1 := i1 `quot` NB cap N) in *. set (r1 := i1 `rem` NB cap N) in *.
  set (q2 := i2 `quot` NB cap N) in *. set (r2 := i2 `rem` NB cap N) in *.
  clearbody q1 r1 q2 r2.
  assert (Hrow : q1 * 4 + m1 = q2 * 4 + m2) by nia.
  assert (Hcol : r1 * BLOCK_N cap + n1 = r2 * BLOCK_N cap + n2) by nia.
  assert (q1 = q2 ∧ m1 = m2) as [-> ->] by lia.
  assert (r1 = r2 ∧ n1 = n2) as [-> ->].
  { destruct (BLOCK_N_cases cap) as [HB | HB]; rewrite HB in *; lia. }
  split_and!; [congruence|done..].
Qed.

(** Every element of the output is an element of a tile. *)
Lemma tile_addr_cover cap M N row col :
  0 ≤ row < M → 0 ≤ col < N →
  ∃ i m n, 0 ≤ i < MB M * NB cap N
    ∧ 0 ≤ m < tile_mb_size cap M N i ∧ 0 ≤ n < tile_nb_size cap N i
    ∧ i `quot` NB cap N * BLOCK_M + m = row
    ∧ i `rem` NB cap N * BLOCK_N cap + n = col
    ∧ tile_addr cap N i m n = row * N + col.
Proof.
  intros Hrow Hcol.
  pose proof (NB_pos cap N ltac:(lia)) as HNB.
  pose proof (NB_spec cap N ltac:(lia)) as HNBs.
  pose proof (MB_spec M ltac:(lia)) as HMBs.
  assert (HBN : 0 < BLOCK_N cap) by (destruct (BLOCK_N_cases cap); lia).
  set (mb := row `quot` BLOCK_M). set (nb := col `quot` BLOCK_N cap).
  assert (Hmb : 0 ≤ mb < MB M ∧ mb * BLOCK_M ≤ row < mb * BLOCK_M + BLOCK_M).
  { subst mb. unfold BLOCK_M in *. clia. }
  assert (Hnb : 0 ≤ nb < NB cap N ∧ nb * BLOCK_N cap ≤ col < nb * BLOCK_N cap + BLOCK_N cap).
  { subst nb. destruct (BLOCK_N_cases cap) as [HB | HB]; rewrite HB in *; clia. }
  clearbody mb nb.
  assert (Hq : (mb * NB cap N + nb) `quot` NB cap N = mb).
  { symmetry. apply Z.quot_unique with (r := nb); lia. }
  assert (Hr : (mb * NB cap N + nb) `rem` NB cap N = nb).
  { symmetry. apply Z.rem_unique with (q := mb); lia. }
  exists (mb * NB cap N + nb), (row - mb * BLOCK_M), (col - nb * BLOCK_N cap).
  unfold tile_addr, tile_mb_size, tile_nb_size. rewrite Hq, Hr.
  unfold BLOCK_M in *. split_and!; try lia; nia.
Qed.

Lemma elem_of_tile_addrs cap M N i x :
  x ∈ tile_addrs cap M N i ↔
    ∃ m n, 0 ≤ m < tile_mb_size cap M N i ∧ 0 ≤ n < tile_nb_size cap N i
           ∧ x = tile_addr cap N i m n.
Proof.
  unfold tile_addrs. rewrite list_elem_of_bind.
  setoid_rewrite list_elem_of_bind. setoid_rewrite list_elem_of_singleton.
  setoid_rewrite elem_of_irange. split.
  - intros (m & (n & -> & Hn) & Hm). by exists m, n.
  - intros (m & n & Hm & Hn & ->). exists m. split; [|done]. by exists n.
Qed.

Lemma NoDup_tile_addrs cap M N i :
  0 ≤ N → 0 ≤ i < MB M * NB cap N → 0 < NB cap N → NoDup (tile_addrs cap M N i).
Proof.
  intros HN Hi HNB. unfold tile_addrs.
  assert (Hinj : ∀ m1 n1 m2 n2,
    0 ≤ m1 < tile_mb_size cap M N i → 0 ≤ n1 < tile_nb_size cap N i →
    0 ≤ m2 < tile_mb_size cap M N i → 0 ≤ n2 < tile_nb_size cap N i →
    tile_addr cap N i m1 n1 = tile_addr cap N i m2 n2 → m1 = m2 ∧ n1 = n2).
  { intros m1 n1 m2 n2 ? ? ? ? Heq.
    by destruct (tile_addr_inj cap M N i m1 n1 i m2 n2) as (_ & ? & ?). }
  apply NoDup_bind; [| |apply NoDup_seqZ].
  - intros m1 m2 x Hm1%elem_of_irange Hm2%elem_of_irange.
    rewrite !list_elem_of_bind. setoid_rewrite list_elem_of_singleton.
    setoid_rewrite elem_of_irange.
    intros (n1 & -> & Hn1) (n2 & Heq & Hn2).
    by destruct (Hinj m1 n1 m2 n2).
  - intros m Hm%elem_of_irange. apply NoDup_bind; [| |apply NoDup_seqZ].
    + intros n1 n2 x Hn1%elem_of_irange Hn2%elem_of_irange.
      rewrite !list_elem_of_singleton. intros -> Heq.
      by destruct (Hinj m n1 m n2).
    + intros. apply NoDup_singleton.
Qed.

(** The tiles of the grid cover the output, each element once. *)
Lemma tiles_partition_output cap M N :
  0 ≤ M → 0 ≤ N →
  irange2 0 (MB M * NB cap N) ≫= tile_addrs cap M N ≡ₚ seqZ 0 (M * N).
Proof.
  intros HM HN. apply NoDup_Permutation; [|apply NoDup_seqZ|].
  - apply NoDup_bind; [| |apply NoDup_seqZ].
    + intros i1 i2 x Hi1%elem_of_irange2 Hi2%elem_of_irange2.
      rewrite !elem_of_tile_addrs.
      intros (m1 & n1 & Hm1 & Hn1 & ->) (m2 & n2 & Hm2 & Hn2 & Heq).
      assert (0 < NB cap N) by (apply (NB_pos_of_tiles cap M N); lia).
      by destruct (tile_addr_inj cap M N i1 m1 n1 i2 m2 n2) as (? & _).
    + intros i Hi%elem_of_irange2. apply (NoDup_tile_addrs cap M); [done|lia|].
      apply (NB_pos_of_tiles cap M N); lia.
  - intros x. rewrite list_elem_of_bind, elem_of_seqZ.
    setoid_rewrite elem_of_irange2. setoid_rewrite elem_of_tile_addrs. split.
    + intros (i & (m & n & Hm & Hn & ->) & Hi).
      assert (0 < NB cap N) by (apply (NB_pos_of_tiles cap M N); lia).
      destruct (tile_addr_global cap M N i m n) as (-> & Hr & Hc); [done|lia|done..|].
      nia.
    + intros Hx.
      assert (HN0 : 0 < N) by nia.
      destruct (tile_addr_cover cap M N (x `quot` N) (x `rem` N)) as
        (i & m & n & Hi & Hm & Hn & _ & _ & Ha); [cnia|clia|].
      exists i. split; [|lia]. exists m, n. split_and!; [lia..|].
      rewrite Ha. clia.
Qed.

Section SchedulerFacts.
Context (cap : cpu_capability).
Context (A_data : list BFloat16) (B_data : list Z) (S_data : list BFloat16).
Context (M N K BLOCK_K : Z).

Local Abbreviation mm_dispatch' := (mm_dispatch cap N K BLOCK_K).
Local Abbreviation mm_tile_writes' := (mm_tile_writes cap A_data B_data S_data M N K BLOCK_K).
Local Abbreviation mm_tile' := (mm_tile cap A_data B_data S_data M N K BLOCK_K).
Local Abbreviation mm_tiles' := (mm_tiles cap A_data B_data S_data M N K BLOCK_K).
Local Abbreviation mm_tiles_flat' := (mm_tiles_flat cap A_data B_data S_data M N K BLOCK_K).
Local Abbreviation mm_chunk' := (mm_chunk cap A_data B_data S_data M N K BLOCK_K).
Local Abbreviation NB' := (NB cap N).
Local Abbreviation MB' := (MB M).

Lemma mm_tiles_eq_flat (len : nat) b st :
  0 < NB' → 0 ≤ b →
  mm_tiles' (seqZ b (Z.of_nat len)) (b `quot` NB') (b `rem` NB') st
  = mm_tiles_flat' (seqZ b (Z.of_nat len)) st.
Proof.
  intros HNB. revert b st. induction len as [|len IH]; intros b st Hb; [done|].
  rewrite seqZ_cons by lia. simpl. unfold mm_tile_flat.
  destruct (mm_tile' _ _ st) as [[|msg] st']; [|done].
  rewrite data_index_step_divmod by done.
  replace (Z.pred (Z.of_nat (S len))) with (Z.of_nat len) by lia.
  replace (Z.succ b) with (b + 1) by lia. apply IH. lia.
Qed.

Lemma mm_chunk_flat b e st :
  0 < NB' → 0 ≤ b → mm_chunk' b e st = mm_tiles_flat' (irange2 b e) st.
Proof.
  intros HNB Hb. unfold mm_chunk, data_index_init, irange2.
  destruct (decide (0 ≤ e - b)).
  - rewrite <- (Z2Nat.id (e - b)) by done. by apply mm_tiles_eq_flat.
  - by rewrite seqZ_nil by lia.
Qed.

Lemma mm_tiles_flat_app l1 l2 st :
  mm_tiles_flat' (l1 ++ l2) st
  = match mm_tiles_flat' l1 st with
    | (Done, st') => mm_tiles_flat' l2 st'
    | r => r
    end.
Proof.
  revert st. induction l1 as [|i l1 IH]; intros st; [done|].
  simpl. destruct (mm_tile_flat _ _ _ _ _ _ _ _ i st) as [[|msg] st']; [apply IH|done].
Qed.

Lemma mm_dispatch_ok mb_size nb_size A_ptr B_ptr S_ptr C_ptr st :
  supported_mb mb_size = true → supported_nb nb_size = true →
  mm_dispatch' mb_size nb_size A_ptr B_ptr S_ptr C_ptr st
  = (Done, apply_writes_C st
             (tile_writes cap mb_size nb_size A_ptr B_ptr S_ptr C_ptr
                K (nb_size `quot` 2) N K BLOCK_K)).
Proof.
  rewrite supported_mb_cases, supported_nb_cases.
  unfold mm_dispatch, LAUNCH_TINYGEMM_NB_SIZE, LAUNCH_TINYGEMM_KERNEL.
  intros [-> | [-> | [-> | ->]]] [-> | [-> | [-> | ->]]]; simpl;
    by rewrite tinygemm_kernel_is_writes.
Qed.

Lemma mm_dispatch_bad_m mb_size nb_size A_ptr B_ptr S_ptr C_ptr st :
  supported_mb mb_size = false →
  mm_dispatch' mb_size nb_size A_ptr B_ptr S_ptr C_ptr st
  = (Raised ("Unsupported m block size: " +:+ pretty mb_size), st).
Proof.
  unfold supported_mb, mm_dispatch. intros Hm.
  destruct (mb_size =? 1), (mb_size =? 2), (mb_size =? 3), (mb_size =? 4);
    try discriminate; done.
Qed.

Lemma mm_dispatch_bad_n mb_size nb_size A_ptr B_ptr S_ptr C_ptr st :
  supported_mb mb_size = true → supported_nb nb_size = false →
  mm_dispatch' mb_size nb_size A_ptr B_ptr S_ptr C_ptr st
  = (Raised ("Unsupported n block size: " +:+ pretty nb_size), st).
Proof.
  rewrite supported_mb_cases.
  unfold supported_nb, mm_dispatch, LAUNCH_TINYGEMM_NB_SIZE.
  intros Hm Hn.
  destruct (nb_size =? 16), (nb_size =? 32), (nb_size =? 48), (nb_size =? 64);
    try discriminate.
  destruct Hm as [-> | [-> | [-> | ->]]]; done.
Qed.

Lemma mm_tile_flat_ok i st :
  supported_mb (tile_mb_size cap M N i) = true →
  supported_nb (tile_nb_size cap N i) = true →
  mm_tile_flat cap A_data B_data S_data M N K BLOCK_K i st
  = (Done, apply_writes_C st (mm_tile_writes' i)).
Proof. intros Hm Hn. unfold mm_tile_flat, mm_tile. by rewrite mm_dispatch_ok. Qed.

Lemma mm_tiles_flat_ok tiles st :
  (∀ i, i ∈ tiles → supported_mb (tile_mb_size cap M N i) = true
                    ∧ supported_nb (tile_nb_size cap N i) = true) →
  mm_tiles_flat' tiles st = (Done, apply_writes_C st (tiles ≫= mm_tile_writes')).
Proof.
  revert st. induction tiles as [|i tiles IH]; intros st Hok; [done|].
  simpl. destruct (Hok i) as [Hm Hn]; [left|].
  rewrite mm_tile_flat_ok by done. rewrite IH.
  - by rewrite apply_writes_C_app.
  - intros j Hj. apply Hok. by right.
Qed.

(** The chunks of the executor, run one after the other, are the run over
    the whole range. *)
Lemma parallel_for_mm_flat num_threads st :
  0 < num_threads → 0 ≤ MB' * NB' → (0 < MB' * NB' → 0 < NB') →
  int4pack_mm_kernel cap A_data B_data S_data M N K BLOCK_K num_threads st
  = mm_tiles_flat' (irange2 0 (MB' * NB')) st.
Proof.
  intros Hnt HT HNB. unfold int4pack_mm_kernel, parallel_for.
  set (T := MB' * NB') in *. set (c := (T - 0 + num_threads - 1) `quot` num_threads).
  set (step := λ (s : outcome * out_buf) (tid : Z), _).
  assert (Hc : 0 ≤ c) by (subst c; clia).
  assert (Hinv : ∀ t : nat, Z.of_nat t ≤ num_threads →
    foldl step (Done, st) (seqZ 0 (Z.of_nat t))
    = mm_tiles_flat' (irange2 0 (Z.min T (Z.of_nat t * c))) st).
  { induction t as [|t IH]; intros Ht.
    - simpl. unfold irange2. rewrite seqZ_nil by lia. done.
    - rewrite seqZ_S, foldl_snoc, IH by lia. clear IH.
      assert (Hsplit : irange2 0 (Z.min T (Z.of_nat (S t) * c))
                = irange2 0 (Z.min T (Z.of_nat t * c))
                  ++ irange2 (Z.of_nat t * c) (Z.min T (Z.of_nat t * c + c))).
      { unfold irange2.
        destruct (decide (Z.of_nat t * c < T)) as [Hlt | Hge].
        - assert (0 ≤ Z.of_nat t * c) by nia.
          rewrite (Z.min_r T (Z.of_nat t * c)) by lia.
          replace (Z.of_nat (S t) * c) with (Z.of_nat t * c + c) by lia.
          replace (Z.min T (Z.of_nat t * c + c) - 0)
            with ((Z.of_nat t * c - 0) + (Z.min T (Z.of_nat t * c + c) - Z.of_nat t * c)) by lia.
          rewrite seqZ_app by lia. do 2 f_equal; lia.
        - rewrite (seqZ_nil (Z.of_nat t * c)) by lia. rewrite app_nil_r.
          f_equal. nia. }
      rewrite Hsplit, mm_tiles_flat_app.
      destruct (mm_tiles_flat' _ st) as [[|msg] st'] eqn:Hrun; [|done].
      unfold step at 1. simpl. rewrite !Z.add_0_l.
      destruct (Z.ltb_spec (Z.of_nat t * c) T) as [Hlt | Hge].
      + rewrite mm_chunk_flat; [done| |nia]. apply HNB. nia.
      + unfold irange2. rewrite seqZ_nil by lia. done. }
  unfold irange. rewrite <- (Z2Nat.id num_threads) by lia.
  rewrite Hinv by lia. rewrite Z2Nat.id by lia.
  f_equal. f_equal. subst c. cnia.
Qed.

Lemma mm_tile_flat_bad_n i st :
  supported_mb (tile_mb_size cap M N i) = true →
  supported_nb (tile_nb_size cap N i) = false →
  mm_tile_flat cap A_data B_data S_data M N K BLOCK_K i st
  = (Raised ("Unsupported n block size: " +:+ pretty (tile_nb_size cap N i)), st).
Proof. intros Hm Hn. unfold mm_tile_flat, mm_tile. by rewrite mm_dispatch_bad_n. Qed.

(** The loop over the tiles ends at the first tile that raises, after the
    stores of the tiles before it. *)
Lemma mm_tiles_flat_first_bad j T msg st :
  0 ≤ j < T →
  (∀ i, 0 ≤ i < j → supported_mb (tile_mb_size cap M N i) = true
                     ∧ supported_nb (tile_nb_size cap N i) = true) →
  (∀ st', mm_tile_flat cap A_data B_data S_data M N K BLOCK_K j st' = (Raised msg, st')) →
  mm_tiles_flat' (irange2 0 T) st
  = (Raised msg, apply_writes_C st (irange2 0 j ≫= mm_tile_writes')).
Proof.
  intros Hj Hok Hbad.
  assert (Hsplit : irange2 0 T = irange2 0 j ++ j :: irange2 (j + 1) T).
  { unfold irange2.
    replace (T - 0) with (j + (1 + (T - (j + 1)))) by lia.
    rewrite seqZ_app by lia. rewrite Z.sub_0_r, Z.add_0_l. f_equal.
    rewrite seqZ_cons by lia. f_equal. f_equal; lia. }
  rewrite Hsplit, mm_tiles_flat_app.
  rewrite mm_tiles_flat_ok by (intros i Hi%elem_of_irange2; apply Hok; lia).
  cbn [mm_tiles_flat]. by rewrite Hbad.
Qed.

(** The tile kernels run on the tiles of a list, one after the other, make
    the stores of these tiles. *)
Lemma foldl_tiles_is_writes (tiles : list Z) st :
  foldl (λ st' i,
    tinygemm_kernel cap
      (Z.min BLOCK_M (M - i `quot` NB' * BLOCK_M))
      (Z.min (BLOCK_N cap) (N - i `rem` NB' * BLOCK_N cap))
      (ptr_add (Ptr A_data 0) (i `quot` NB' * BLOCK_M * K))
      (ptr_add (Ptr B_data 0) ((i `rem` NB' * BLOCK_N cap * K) `quot` 2))
      (ptr_add (Ptr S_data 0) (i `rem` NB' * BLOCK_N cap * 2))
      (0 + (i `quot` NB' * BLOCK_M * N + i `rem` NB' * BLOCK_N cap))
      K (Z.min (BLOCK_N cap) (N - i `rem` NB' * BLOCK_N cap) `quot` 2) N K BLOCK_K st')
    st tiles
  = apply_writes_C st (tiles ≫= mm_tile_writes').
Proof.
  revert st. induction tiles as [|i tiles IH]; intros st; [done|].
  rewrite bind_cons, apply_writes_C_app. cbn [foldl].
  rewrite IH. f_equal. apply tinygemm_kernel_is_writes.
Qed.

(** With [N] a multiple of 16 every tile is dispatched, and the kernel is
    the sequence of the stores of its tiles. *)
Lemma int4pack_mm_kernel_ok num_threads st :
  0 < num_threads → 0 ≤ M → 0 ≤ N → N `rem` 16 = 0 →
  int4pack_mm_kernel cap A_data B_data S_data M N K BLOCK_K num_threads st
  = (Done, apply_writes_C st (irange2 0 (MB' * NB') ≫= mm_tile_writes')).
Proof.
  intros Hnt HM HN H16.
  rewrite parallel_for_mm_flat;
    [|done|by apply MB_NB_nonneg|by apply NB_pos_of_tiles].
  apply mm_tiles_flat_ok. intros i Hi%elem_of_irange2.
  assert (0 < NB') by (apply (NB_pos_of_tiles cap M N); lia).
  split; [by apply tile_mb_supported | by apply (tile_nb_supported cap M)].
Qed.

(** With [N] not a multiple of 16 the run ends at the last tile of the
    first row of tiles. *)
Lemma int4pack_mm_kernel_raises num_threads st :
  0 < num_threads → 1 ≤ M → 0 ≤ N → N `rem` 16 ≠ 0 →
  (int4pack_mm_kernel cap A_data B_data S_data M N K BLOCK_K num_threads st).1
  = Raised ("Unsupported n block size: " +:+ pretty (N `rem` BLOCK_N cap)).
Proof.
  intros Hnt HM HN H16.
  assert (HN0 : 0 < N) by clia.
  pose proof (NB_pos cap N HN0) as HNB. pose proof (MB_pos M ltac:(lia)) as HMB.
  pose proof (NB_spec cap N HN) as HNBs.
  rewrite parallel_for_mm_flat; [|done|apply MB_NB_nonneg; lia|done].
  assert (Hsplit : irange2 0 (MB' * NB')
            = irange2 0 (NB' - 1) ++ (NB' - 1) :: irange2 NB' (MB' * NB')).
  { unfold irange2.
    replace (MB' * NB' - 0) with ((NB' - 1) + (1 + (MB' * NB' - NB'))) by lia.
    rewrite seqZ_app by nia. rewrite Z.sub_0_r, Z.add_0_l. f_equal.
    rewrite seqZ_cons by nia. f_equal. f_equal; lia. }
  rewrite Hsplit, mm_tiles_flat_app.
  rewrite mm_tiles_flat_ok.
  2:{ intros i Hi%elem_of_irange2.
      assert (Hi' : 0 ≤ i < MB' * NB') by nia.
      split; [apply tile_mb_supported; lia|].
      apply supported_nb_cases. unfold tile_nb_size.
      rewrite Z.rem_small by lia.
      destruct (BLOCK_N_cases cap) as [HB | HB]; rewrite HB in *; lia. }
  simpl. rewrite mm_tile_flat_bad_n.
  - simpl. do 3 f_equal. unfold tile_nb_size. rewrite Z.rem_small by lia.
    destruct (BLOCK_N_cases cap) as [HB | HB]; rewrite HB in *; clia.
  - apply tile_mb_supported; [lia|nia|done].
  - apply not_true_is_false. rewrite supported_nb_cases.
    unfold tile_nb_size. rewrite Z.rem_small by lia.
    destruct (BLOCK_N_cases cap) as [HB | HB]; rewrite HB in *; clia.
Qed.
End SchedulerFacts.

(** ** The non-vectorized build *)

Lemma mm_tile_writes_addrs_scalar A_data B_data S_data M N K BLOCK_K i :
  (mm_tile_writes DEFAULT A_data B_data S_data M N K BLOCK_K i).*1
  = tile_addrs DEFAULT M N i.
Proof.
  unfold mm_tile_writes, tile_writes, scalar_tile_writes, tile_addrs.
  rewrite fmap_bind. apply list_bind_ext; [|done]. intros m.
  rewrite fmap_bind. by apply list_bind_ext.
Qed.



(** C1, as amended: the weights are stored as the 4-bit codes 0..15, and
    the kernel's conversion of the nibble packed for position (n, k) is
    the float of the code minus 8: [W[n,k] - 8], not [W[n,k]]. *)
Theorem pack_unpack_round_trip out W N K n k :
  N `rem` 2 = 0 → 0 ≤ n < N → 0 ≤ k < K →
  (N * K) `quot` 2 ≤ Z.of_nat (length out) →
  Z.of_nat (length W) = N * K → Forall (λ w, 0 ≤ w < 16) W →
  kernel_unpack_scalar (weight_to_int4pack_kernel DEFAULT out W N K) N K n k
  = float_of_int (load W (n * K + k) - 8).
Proof.
  intros HN Hn Hk Hout HlenW HW.
  apply pack_unpack_scalar; [done..|].
  exact (load_Forall (λ w, 0 ≤ w < 16) W (N * K) HlenW HW).
Qed.



(** C9: the stores of two different tiles hit different elements of the
    output, and the stores of all tiles together hit every element of the
    M x N output exactly once: the log of the stores of a run is a
    permutation of the indices [0, M * N). *)
Theorem output_written_exactly_once A_data B_data S_data M N K BLOCK_K num_threads C0 :
  0 < num_threads → 0 ≤ M → 0 ≤ N → N `rem` 16 = 0 →
  let run := int4pack_mm_kernel DEFAULT A_data B_data S_data M N K BLOCK_K
               num_threads (OutBuf C0 []) in
  let stores i := (mm_tile_writes DEFAULT A_data B_data S_data M N K BLOCK_K i).*1 in
  run.1 = Done
  ∧ C_writes run.2 = irange2 0 (MB M * NB DEFAULT N) ≫= stores
  ∧ (∀ i j x, 0 ≤ i < MB M * NB DEFAULT N → 0 ≤ j < MB M * NB DEFAULT N → i ≠ j →
       x ∈ stores i → x ∉ stores j)
  ∧ C_writes run.2 ≡ₚ seqZ 0 (M * N).
Proof.
  intros Hnt HM HN H16 run stores.
  assert (Hlog : C_writes run.2 = irange2 0 (MB M * NB DEFAULT N) ≫= stores).
  { subst run stores. rewrite int4pack_mm_kernel_ok by done. cbn [snd].
    rewrite C_writes_apply_writes_C. cbn [C_writes app]. apply fmap_bind. }
  assert (Hst : ∀ i, stores i = tile_addrs DEFAULT M N i).
  { intros i. apply mm_tile_writes_addrs_scalar. }
  split_and!.
  - subst run. by rewrite int4pack_mm_kernel_ok.
  - done.
  - intros i j x Hi Hj Hne. rewrite !Hst, !elem_of_tile_addrs.
    intros (m1 & n1 & Hm1 & Hn1 & ->) (m2 & n2 & Hm2 & Hn2 & Heq).
    assert (0 < NB DEFAULT N) by (apply (NB_pos_of_tiles DEFAULT M N); lia).
    by destruct (tile_addr_inj DEFAULT M N i m1 n1 j m2 n2) as (? & _).
  - rewrite Hlog.
    rewrite (list_bind_ext stores (tile_addrs DEFAULT M N) _ (irange2 0 (MB M * NB DEFAULT N)))
      by done.
    by apply tiles_partition_output.
Qed.

(** C5: the scheduler cuts the output into [MB = ceil(M / BLOCK_M)] by
    [NB = ceil(N / BLOCK_N)] tiles.  A run on a supported shape ([N] a
    multiple of 16) ends normally and is the tile kernel run on the flat
    indices [0, ..., MB * NB - 1], one after the other, where for the
    index [i] the tile is [(mb, nb) = (i div NB, i mod NB)], with the
    sizes [min(BLOCK_M, M - mb * BLOCK_M)] and
    [min(BLOCK_N, N - nb * BLOCK_N)] and the pointers of that tile; every
    such [(mb, nb)] is in the grid, and from one index to the next [nb]
    advances, carrying into [mb] when [nb] reaches [NB]. *)
Theorem tile_grid_mapping cap A_data B_data S_data M N K BLOCK_K num_threads st :
  0 < num_threads → 0 ≤ M → 0 ≤ N → N `rem` 16 = 0 →
  let tile (st' : out_buf) (i : Z) : out_buf :=
    let mb := i `quot` NB cap N in
    let nb := i `rem` NB cap N in
    let mb_size := Z.min BLOCK_M (M - mb * BLOCK_M) in
    let nb_size := Z.min (BLOCK_N cap) (N - nb * BLOCK_N cap) in
    tinygemm_kernel cap mb_size nb_size
      (ptr_add (Ptr A_data 0) (mb * BLOCK_M * K))
      (ptr_add (Ptr B_data 0) ((nb * BLOCK_N cap * K) `quot` 2))
      (ptr_add (Ptr S_data 0) (nb * BLOCK_N cap * 2))
      (0 + (mb * BLOCK_M * N + nb * BLOCK_N cap))
      K (nb_size `quot` 2) N K BLOCK_K st' in
  ((MB M - 1) * BLOCK_M < M ≤ MB M * BLOCK_M)
  ∧ ((NB cap N - 1) * BLOCK_N cap < N ≤ NB cap N * BLOCK_N cap)
  ∧ int4pack_mm_kernel cap A_data B_data S_data M N K BLOCK_K num_threads st
    = (Done, foldl tile st (irange2 0 (MB M * NB cap N)))
  ∧ (∀ i, 0 ≤ i < MB M * NB cap N →
       0 ≤ i `quot` NB cap N < MB M ∧ 0 ≤ i `rem` NB cap N < NB cap N)
  ∧ (∀ i, 0 ≤ i → i + 1 < MB M * NB cap N →
       ((i + 1) `quot` NB cap N, (i + 1) `rem` NB cap N)
       = if i `rem` NB cap N + 1 =? NB cap N
         then (i `quot` NB cap N + 1, 0)
         else (i `quot` NB cap N, i `rem` NB cap N + 1)).
Proof.
  intros Hnt HM HN H16 tile. split_and!.
  - by apply MB_spec.
  - by apply MB_spec.
  - by apply NB_spec.
  - by apply NB_spec.
  - rewrite int4pack_mm_kernel_ok by done. f_equal. symmetry.
    apply foldl_tiles_is_writes.
  - intros i Hi.
    assert (HNB : 0 < NB cap N) by (apply (NB_pos_of_tiles cap M N); lia).
    by apply tile_coords.
  - intros i Hi Hie.
    assert (HNB : 0 < NB cap N) by (apply (NB_pos_of_tiles cap M N); lia).
    pose proof (data_index_step_divmod (MB M) (NB cap N) i HNB ltac:(lia)) as Hstep.
    unfold data_index_step in Hstep. by rewrite <- Hstep.
Qed.

(** C6, as amended: a tile whose [nb_size] is none of 16, 32, 48, 64 or
    whose [mb_size] is none of 1, 2, 3, 4 makes the dispatch raise at
    once: the outcome is the error whose message names the offending size,
    the dispatch stores nothing, and the loop over the tiles ends there
    without running a further tile.  The stores of the tiles that ran
    before it stay in the output: a run by one worker whose first
    unsupported tile has the flat index [j] ends with that error and with
    the stores of the tiles [0, ..., j - 1] made. *)
Theorem unsupported_shape_fails_fast cap A_data B_data S_data M N K BLOCK_K
    mb_size nb_size A_ptr B_ptr S_ptr C_ptr st :
  (nb_size ≠ 16 ∧ nb_size ≠ 32 ∧ nb_size ≠ 48 ∧ nb_size ≠ 64)
  ∨ (mb_size ≠ 1 ∧ mb_size ≠ 2 ∧ mb_size ≠ 3 ∧ mb_size ≠ 4) →
  let msg :=
    if supported_mb mb_size
    then "Unsupported n block size: " +:+ pretty nb_size
    else "Unsupported m block size: " +:+ pretty mb_size in
  mm_dispatch cap N K BLOCK_K mb_size nb_size A_ptr B_ptr S_ptr C_ptr st = (Raised msg, st)
  ∧ (∀ tiles mb nb,
       Z.min BLOCK_M (M - mb * BLOCK_M) = mb_size →
       Z.min (BLOCK_N cap) (N - nb * BLOCK_N cap) = nb_size →
       tiles ≠ [] →
       mm_tiles cap A_data B_data S_data M N K BLOCK_K tiles mb nb st = (Raised msg, st))
  ∧ (∀ j, 0 ≤ M → 0 ≤ N → 0 ≤ j < MB M * NB cap N →
       tile_mb_size cap M N j = mb_size → tile_nb_size cap N j = nb_size →
       (∀ i, 0 ≤ i < j → supported_mb (tile_mb_size cap M N i) = true
                          ∧ supported_nb (tile_nb_size cap N i) = true) →
       int4pack_mm_kernel cap A_data B_data S_data M N K BLOCK_K 1 st
       = (Raised msg,
          apply_writes_C st
            (irange2 0 j ≫= mm_tile_writes cap A_data B_data S_data M N K BLOCK_K))).
Proof.
  intros Hbad msg.
  assert (Hd : ∀ A_ptr B_ptr S_ptr C_ptr st',
    mm_dispatch cap N K BLOCK_K mb_size nb_size A_ptr B_ptr S_ptr C_ptr st' = (Raised msg, st')).
  { intros. subst msg. destruct (supported_mb mb_size) eqn:Hm.
    - apply mm_dispatch_bad_n; [done|]. apply not_true_is_false.
      rewrite supported_nb_cases. apply supported_mb_cases in Hm. lia.
    - by apply mm_dispatch_bad_m. }
  split_and!; [apply Hd| |].
  - intros [|i tiles] mb nb Hmb Hnb Hne; [done|].
    simpl. unfold mm_tile. rewrite Hmb, Hnb, Hd. done.
  - intros j HM HN Hj Hmb Hnb Hok.
    rewrite parallel_for_mm_flat;
      [|lia|by apply MB_NB_nonneg|intros _; apply (NB_pos_of_tiles cap M N); lia].
    apply mm_tiles_flat_first_bad; [done|done|].
    intros st'. unfold mm_tile_flat, mm_tile.
    unfold tile_mb_size in Hmb. unfold tile_nb_size in Hnb.
    rewrite Hmb, Hnb. apply Hd.
Qed.

(** C10: for [M >= 1] every tile of the grid has an [mb_size] among 1, 2,
    3, 4, so the check of the m block size never fails; the run succeeds
    exactly when [N] is a multiple of 16, and otherwise ends with the
    check of the n block size, raised for the last tile of a row, whose
    [nb_size] is [N mod BLOCK_N], not zero and none of 16, 32, 48. *)
Theorem only_n_block_check_reachable cap A_data B_data S_data M N K BLOCK_K
    num_threads st :
  1 ≤ M → 0 ≤ N → 0 < num_threads →
  let run := int4pack_mm_kernel cap A_data B_data S_data M N K BLOCK_K num_threads st in
  (∀ i, 0 ≤ i < MB M * NB cap N →
     tile_mb_size cap M N i = 1 ∨ tile_mb_size cap M N i = 2
     ∨ tile_mb_size cap M N i = 3 ∨ tile_mb_size cap M N i = 4)
  ∧ (N `rem` 16 = 0 → run.1 = Done)
  ∧ (N `rem` 16 ≠ 0 →
       run.1 = Raised ("Unsupported n block size: " +:+ pretty (N `rem` BLOCK_N cap)))
  ∧ (N `rem` 16 ≠ 0 ↔
       N `rem` BLOCK_N cap ≠ 0 ∧ N `rem` BLOCK_N cap ≠ 16
       ∧ N `rem` BLOCK_N cap ≠ 32 ∧ N `rem` BLOCK_N cap ≠ 48).
Proof.
  intros HM HN Hnt run. split_and!.
  - intros i Hi. apply supported_mb_cases.
    apply tile_mb_supported; [lia|done|]. apply (NB_pos_of_tiles cap M N); lia.
  - intros H16. subst run. rewrite int4pack_mm_kernel_ok by (done || lia). done.
  - intros H16. subst run. by apply int4pack_mm_kernel_raises.
  - destruct (BLOCK_N_cases cap) as [HB | HB]; rewrite HB; clia.
Qed.

End KernelFacts.

(** * The vector kernels: the element behind every store *)

Section VectorFacts.
Context `{FloatOps}.

(** ** The group whose pairs are loaded at step [k] *)

Lemma reloads_before_0 BLOCK_K : reloads_before BLOCK_K 0 = 0.
Proof. reflexivity. Qed.

Lemma reloads_before_S BLOCK_K k :
  0 ≤ k →
  reloads_before BLOCK_K (k + 1)
  = reloads_before BLOCK_K k + (if is_block_start k BLOCK_K then 1 else 0).
Proof.
  intros Hk. unfold reloads_before, irange.
  rewrite <- (Z2Nat.id k) at 1 by done.
  replace (Z.of_nat (Z.to_nat k) + 1) with (Z.of_nat (S (Z.to_nat k))) by lia.
  rewrite seqZ_S, filter_app, length_app, Z.add_0_l, Z2Nat.id by done.
  rewrite filter_cons, filter_nil.
  destruct (is_block_start k BLOCK_K); [rewrite decide_True by done|rewrite decide_False by done];
    simpl; lia.
Qed.

Lemma is_block_start_0 BLOCK_K : is_block_start 0 BLOCK_K = true.
Proof. reflexivity. Qed.

Lemma reloads_before_pow2 j k :
  0 ≤ j → 0 ≤ k → reloads_before (2 ^ j) k = (k + 2 ^ j - 1) `div` 2 ^ j.
Proof.
  intros Hj Hk. assert (HB : 0 < 2 ^ j) by lia.
  rewrite <- (Z2Nat.id k) by done. generalize (Z.to_nat k). clear k Hk. intros k.
  induction k as [|k IH].
  - simpl. rewrite reloads_before_0. symmetry. apply Z.div_small. lia.
  - replace (Z.of_nat (S k)) with (Z.of_nat k + 1) by lia.
    rewrite reloads_before_S, IH by lia.
    destruct (is_block_start (Z.of_nat k) (2 ^ j)) eqn:Hbs.
    + apply is_block_start_pow2 in Hbs; [|done].
      destruct (div_at_boundary (2 ^ j) (Z.of_nat k) HB Hbs) as [E1 E2]. lia.
    + assert (Hnz : Z.of_nat k `mod` 2 ^ j ≠ 0).
      { intros Hz. apply is_block_start_pow2 in Hz; [|done]. congruence. }
      destruct (div_inside_group (2 ^ j) (Z.of_nat k) HB Hnz) as (E1 & E2 & E3). lia.
Qed.

Lemma group_at_pow2 j k : 0 ≤ j → 0 ≤ k → group_at (2 ^ j) k = k `quot` 2 ^ j.
Proof.
  intros Hj Hk. unfold group_at. rewrite reloads_before_pow2 by lia.
  rewrite Z.quot_div_nonneg by lia.
  replace (k + 1 + 2 ^ j - 1) with (k + 1 * 2 ^ j) by lia.
  rewrite Z.div_add by lia. lia.
Qed.

Section KLoopAt.
Context (ROWS COLS BLOCK_K : Z) (load_scale_and_zeros compute : Z → Z → regs → regs).
Context (Inv : Z → regs → Prop) (Loaded : Z → regs → Prop).
Context (Hload : ∀ k kb r, Inv k r →
  Inv k (ForcedUnroll COLS (λ i, load_scale_and_zeros i kb) r)
  ∧ Loaded kb (ForcedUnroll COLS (λ i, load_scale_and_zeros i kb) r)).
Context (Hcompute : ∀ k r, 0 ≤ k → Inv k r → Loaded (group_at BLOCK_K k) r →
  Inv (k + 1) (ForcedUnroll (ROWS * COLS) (λ i, compute i k) r)
  ∧ Loaded (group_at BLOCK_K k) (ForcedUnroll (ROWS * COLS) (λ i, compute i k) r)).

Local Abbreviation step := (k_loop_step ROWS COLS BLOCK_K load_scale_and_zeros compute).

Lemma k_loop_state_at (k : nat) r0 :
  Inv 0 r0 →
  let s := foldl step (r0, 0) (irange (Z.of_nat k)) in
  s.2 = reloads_before BLOCK_K (Z.of_nat k)
  ∧ Inv (Z.of_nat k) s.1
  ∧ (0 < Z.of_nat k → Loaded (group_at BLOCK_K (Z.of_nat k - 1)) s.1).
Proof.
  intros Hr0. induction k as [|k IH].
  - simpl. split_and!; [done|done|lia].
  - unfold irange in *. rewrite seqZ_S, foldl_snoc. rewrite Z.add_0_l.
    destruct (foldl step (r0, 0) (seqZ 0 (Z.of_nat k))) as [r kb].
    cbn [fst snd] in IH. destruct IH as (Hkb & Hinv & Hld).
    unfold k_loop_step, k_loop_reload.
    replace (Z.of_nat (S k)) with (Z.of_nat k + 1) by lia.
    replace (Z.of_nat k + 1 - 1) with (Z.of_nat k) by lia.
    pose proof (reloads_before_S BLOCK_K (Z.of_nat k) ltac:(lia)) as HS.
    assert (Hg : group_at BLOCK_K (Z.of_nat k) = reloads_before BLOCK_K (Z.of_nat k + 1) - 1)
      by done.
    destruct (is_block_start (Z.of_nat k) BLOCK_K) eqn:Hbs.
    + destruct (Hload (Z.of_nat k) kb r Hinv) as [Hinv' Hld'].
      assert (Hgkb : group_at BLOCK_K (Z.of_nat k) = kb) by lia.
      pose proof (Hcompute (Z.of_nat k) _ ltac:(lia) Hinv') as Hc.
      rewrite Hgkb in Hc. destruct (Hc Hld') as [Hinv'' Hld''].
      cbn [fst snd]. rewrite Hgkb. split_and!; [lia|done|done].
    + assert (Hk : 0 < Z.of_nat k).
      { destruct k; [|lia]. by rewrite is_block_start_0 in Hbs. }
      specialize (Hld Hk).
      replace (group_at BLOCK_K (Z.of_nat k - 1)) with (group_at BLOCK_K (Z.of_nat k)) in Hld.
      2:{ unfold group_at. replace (Z.of_nat k - 1 + 1) with (Z.of_nat k) by lia. lia. }
      destruct (Hcompute (Z.of_nat k) r ltac:(lia) Hinv Hld) as [Hinv' Hld'].
      cbn [fst snd]. split_and!; [lia|done|done].
Qed.

Lemma k_loop_inv K r0 :
  0 ≤ K → Inv 0 r0 →
  Inv K (k_loop ROWS COLS K BLOCK_K load_scale_and_zeros compute r0).
Proof.
  intros HK Hr0. unfold k_loop. rewrite <- (Z2Nat.id K) by done.
  by destruct (k_loop_state_at (Z.to_nat K) r0 Hr0) as (_ & ? & _).
Qed.
End KLoopAt.

(** ** The compute sweep of one step *)

Lemma quot_pred i C : 0 < C → 0 ≤ i → i `rem` C ≠ 0 → (i - 1) `quot` C = i `quot` C.
Proof.
  intros HC Hi Hr. pose proof (Z.quot_rem' i C) as Hqr.
  pose proof (Z.rem_bound_pos i C Hi HC) as Hb.
  assert (i ≠ 0) by (intros ->; rewrite Z.rem_0_l in Hr by lia; done).
  symmetry. apply Z.quot_unique with (r := i `rem` C - 1); lia.
Qed.

Section Sweep.
Context (ROWS COLS : Z) (a : Z → float) (set1 : float → list float)
        (fm : list float → list float → list float → list float)
        (loadB : Z → regs → regs) (compute : Z → regs → regs).
Context (VB : Z → list float) (Ready : Z → list (list float) → Prop) (r0 : regs).
Context (Hcompute : ∀ i r, compute i r =
   let row := i `quot` COLS in
   let col := i `rem` COLS in
   let r := if col =? 0 then set_va r (set1 (a row)) else r in
   let r := if row =? 0 then loadB col r else r in
   let idx := row * COLS + col in
   set_vc r idx (fm (va r) (load (vb r) col) (load (vc r) idx))).
Context (HloadB_frame : ∀ col r, va (loadB col r) = va r ∧ vc (loadB col r) = vc r
   ∧ scale (loadB col r) = scale r ∧ zero (loadB col r) = zero r).
Context (HReady_get : ∀ i vbs c, 0 ≤ c < i → i ≤ COLS → Ready i vbs → load vbs c = VB c).
Context (HReady_step : ∀ col r, 0 ≤ col < COLS →
    scale r = scale r0 → zero r = zero r0 → Ready col (vb r) →
    Ready (col + 1) (vb (loadB col r))).

Local Abbreviation sweep_inv := (sweep_invariant ROWS COLS a set1 fm VB Ready r0).

Lemma sweep_step i r :
  0 < COLS → Z.of_nat (length (vc r0)) = ROWS * COLS →
  0 ≤ i < ROWS * COLS → sweep_inv i r → sweep_inv (i + 1) (compute i r).
Proof.
  intros HC Hlen Hi (Hs & Hz & Hl & Hrdy & Hva & Hvc).
  rewrite Hcompute. cbn zeta.
  pose proof (Z.quot_rem' i COLS) as Hqr.
  assert (Hcol : 0 ≤ i `rem` COLS < COLS) by (apply Z.rem_bound_pos; lia).
  assert (Hrow : 0 ≤ i `quot` COLS) by (apply Z.quot_pos; lia).
  set (row := i `quot` COLS) in *. set (col := i `rem` COLS) in *.
  replace (row * COLS + col) with i by lia.
  set (r1 := if col =? 0 then set_va r (set1 (a row)) else r).
  assert (H1 : va r1 = set1 (a row) ∧ vb r1 = vb r ∧ vc r1 = vc r
               ∧ scale r1 = scale r ∧ zero r1 = zero r).
  { subst r1. destruct (Z.eqb_spec col 0) as [E | E]; [done|].
    split_and!; [|done..]. rewrite Hva by lia. do 2 f_equal. subst row col.
    apply quot_pred; lia. }
  destruct H1 as (Hva1 & Hvb1 & Hvc1 & Hs1 & Hz1).
  set (r2 := if row =? 0 then loadB col r1 else r1).
  assert (H2 : va r2 = va r1 ∧ vc r2 = vc r1 ∧ scale r2 = scale r1 ∧ zero r2 = zero r1
               ∧ Ready (Z.min (i + 1) COLS) (vb r2)).
  { subst r2. destruct (Z.eqb_spec row 0) as [E | E].
    - destruct (HloadB_frame col r1) as (? & ? & ? & ?). split_and!; [done..|].
      assert (i = col) as Hic by lia.
      replace (Z.min (i + 1) COLS) with (col + 1) by lia.
      apply HReady_step; [done|congruence|congruence|].
      rewrite Hvb1. by replace col with (Z.min i COLS) at 1 by lia.
    - split_and!; [done..|]. rewrite Hvb1.
      assert (COLS ≤ i) by nia.
      by replace (Z.min (i + 1) COLS) with (Z.min i COLS) by lia. }
  destruct H2 as (Hva2 & Hvc2 & Hs2 & Hz2 & Hrdy2).
  assert (Hvbc : load (vb r2) col = VB col).
  { apply (HReady_get (Z.min (i + 1) COLS)); [lia|lia|done]. }
  unfold sweep_invariant, set_vc. cbn [va vb vc scale zero].
  rewrite Hvbc, Hva2, Hva1, Hvc2, Hvc1, Hs2, Hs1, Hz2, Hz1.
  split_and!; [done|done|by rewrite length_store|done| |].
  - intros _. by replace (i + 1 - 1) with i by lia.
  - intros idx Hidx. destruct (decide (idx = i)) as [-> | Hne].
    + rewrite load_store_eq by lia.
      rewrite (Hvc i Hi), Z.ltb_irrefl.
      destruct (Z.ltb_spec i (i + 1)); [done|lia].
    + rewrite load_store_ne by done. rewrite (Hvc idx Hidx).
      destruct (Z.ltb_spec idx i), (Z.ltb_spec idx (i + 1)); done || lia.
Qed.

Lemma sweep_effect :
  0 < COLS → 0 ≤ ROWS → Z.of_nat (length (vc r0)) = ROWS * COLS →
  Ready 0 (vb r0) →
  let r' := ForcedUnroll (ROWS * COLS) compute r0 in
  scale r' = scale r0 ∧ zero r' = zero r0 ∧ length (vc r') = length (vc r0)
  ∧ (0 < ROWS → Ready COLS (vb r'))
  ∧ ∀ idx, 0 ≤ idx < ROWS * COLS →
      load (vc r') idx
      = fm (set1 (a (idx `quot` COLS))) (VB (idx `rem` COLS)) (load (vc r0) idx).
Proof.
  intros HC HR Hlen Hrdy r'.
  assert (Hinv : sweep_inv (ROWS * COLS) r').
  { subst r'. apply (ForcedUnroll_ind sweep_inv); [| |nia].
    - split_and!; [done|done|done| |lia|].
      + by replace (Z.min 0 COLS) with 0 by lia.
      + intros idx Hidx. destruct (Z.ltb_spec idx 0); [lia|done].
    - intros i s' Hi Hs'. by apply sweep_step. }
  destruct Hinv as (Hs & Hz & Hl & Hrdy' & _ & Hvc).
  split_and!; [done|done|done| |].
  - intros HR'. by replace (Z.min (ROWS * COLS) COLS) with COLS in Hrdy' by nia.
  - intros idx Hidx. rewrite (Hvc idx Hidx).
    destruct (Z.ltb_spec idx (ROWS * COLS)); [done|lia].
Qed.
End Sweep.

(** ** AVX512: the weight registers of a step *)

Lemma store_store {X} (p : list X) i x y : store (store p i x) i y = store p i y.
Proof. unfold store. case_bool_decide; [|done]. by rewrite list_insert_insert_eq. Qed.

Lemma dequant_avx512_effect r col b32 :
  0 ≤ col < Z.of_nat (length (vb r)) →
  dequant_avx512 r col b32
  = set_vb r col (_mm512_fmadd_ps (_mm512_permutexvar_ps b32 lut512)
                    (load (scale r) col) (load (zero r) col)).
Proof.
  intros Hc. unfold dequant_avx512, set_vb. cbn [va vb vc scale zero].
  by rewrite load_store_eq, store_store by lia.
Qed.

Lemma compute_avx512_sweep MB_SIZE NB_SIZE A B lda ldb k r0 :
  0 < NB_SIZE `quot` 16 → 0 ≤ MB_SIZE →
  Z.of_nat (length (vc r0)) = MB_SIZE * (NB_SIZE `quot` 16) →
  Z.of_nat (length (vb r0)) = NB_SIZE `quot` 16 →
  let r' := ForcedUnroll (MB_SIZE * (NB_SIZE `quot` 16))
              (λ i, compute_avx512 NB_SIZE A B lda ldb i k) r0 in
  scale r' = scale r0 ∧ zero r' = zero r0
  ∧ length (vc r') = length (vc r0) ∧ length (vb r') = length (vb r0)
  ∧ ∀ idx, 0 ≤ idx < MB_SIZE * (NB_SIZE `quot` 16) →
      load (vc r') idx
      = _mm512_fmadd_ps
          (_mm512_set1_ps (bf16_to_float (ptr_get A (idx `quot` (NB_SIZE `quot` 16) * lda + k))))
          (vb_avx512 NB_SIZE B ldb (idx `rem` (NB_SIZE `quot` 16)) k
             (load (scale r0) (idx `rem` (NB_SIZE `quot` 16)))
             (load (zero r0) (idx `rem` (NB_SIZE `quot` 16))))
          (load (vc r0) idx).
Proof.
  intros HC HR Hlvc Hlvb r'.
  set (COLS := NB_SIZE `quot` 16) in *.
  set (VB := λ c, vb_avx512 NB_SIZE B ldb c k (load (scale r0) c) (load (zero r0) c)).
  pose proof (sweep_effect MB_SIZE COLS
    (λ row, bf16_to_float (ptr_get A (row * lda + k)))
    _mm512_set1_ps _mm512_fmadd_ps (load_b_avx512 NB_SIZE B ldb k)
    (λ i, compute_avx512 NB_SIZE A B lda ldb i k) VB (ready_avx512 NB_SIZE VB) r0) as Hsw.
  cbn zeta in Hsw. fold r' in Hsw.
  assert (Hlen_vb : length (vb r') = length (vb r0)).
  { subst r'. apply (ForcedUnroll_preserve (λ r, length (vb r))). intros i s.
    unfold compute_avx512. fold COLS.
    repeat match goal with |- context [if ?b then _ else _] => destruct b end;
      cbn [va vb vc scale zero set_va set_vb set_vc dequant_avx512];
      rewrite ?length_store; reflexivity. }
  destruct Hsw as (Hs & Hz & Hl & _ & Hvc); [| | | |done|done|done| |by split_and!].
  - reflexivity.
  - intros col r. unfold load_b_avx512.
    repeat match goal with |- context [if ?b then _ else _] => destruct b end;
      cbn [va vb vc scale zero set_vb dequant_avx512]; done.
  - intros i vbs c Hc Hi [_ Hr]. apply Hr; [fold COLS; lia|left; lia].
  - intros col r Hcol Hs Hz [Hlen Hr]. fold COLS in Hlen, Hr. unfold load_b_avx512. fold COLS.
    destruct (Z.eqb_spec COLS 4) as [E4 | E4].
    + destruct (Z.eqb_spec col 0) as [E0 | E0].
      * cbn zeta.
        rewrite (dequant_avx512_effect r 0) by lia.
        rewrite (dequant_avx512_effect _ 2) by (cbn [vb set_vb]; rewrite ?length_store; lia).
        rewrite (dequant_avx512_effect _ 1) by (cbn [vb set_vb]; rewrite ?length_store; lia).
        rewrite (dequant_avx512_effect _ 3) by (cbn [vb set_vb]; rewrite ?length_store; lia).
        cbn [va vb vc scale zero set_vb]. rewrite Hs, Hz.
        split; [by rewrite !length_store|]. fold COLS. intros c Hc _.
        assert (c = 0 ∨ c = 1 ∨ c = 2 ∨ c = 3) as [-> | [-> | [-> | ->]]] by lia.
        all: repeat (rewrite load_store_ne by lia);
          rewrite load_store_eq by (rewrite ?length_store; lia).
        all: subst VB; cbn beta; unfold vb_avx512, b32_avx512; fold COLS;
          rewrite E4; cbn [Z.eqb Pos.eqb]; reflexivity.
      * split; [done|]. fold COLS. intros c Hc _. apply Hr; [done|right; lia].
    + cbn zeta. rewrite dequant_avx512_effect by lia. cbn [vb set_vb]. rewrite Hs, Hz.
      split; [by rewrite length_store|]. fold COLS. intros c Hc [Hlt | [? _]]; [|done].
      destruct (decide (c = col)) as [-> | Hne].
      * rewrite load_store_eq by lia.
        subst VB; cbn beta; unfold vb_avx512, b32_avx512; fold COLS.
        destruct (Z.eqb_spec COLS 4); [done|reflexivity].
      * rewrite load_store_ne by done. apply Hr; [done|left; lia].
  - split; [done|]. fold COLS. intros c Hc [? | [_ ?]]; lia.
Qed.

(** ** AVX512: the accumulators after the K loop *)

Lemma irange_S k : 0 ≤ k → irange (k + 1) = irange k ++ [k].
Proof.
  intros Hk. unfold irange. rewrite <- (Z2Nat.id k) at 1 by done.
  replace (Z.of_nat (Z.to_nat k) + 1) with (Z.of_nat (S (Z.to_nat k))) by lia.
  by rewrite seqZ_S, Z.add_0_l, Z2Nat.id.
Qed.

Lemma loadc_effect ROWS COLS (z : list float) (loadc : Z → regs → regs) :
  (∀ i r, loadc i r = set_vc r i z) → 0 ≤ ROWS → 0 ≤ COLS →
  let r := ForcedUnroll (ROWS * COLS) loadc (regs_init ROWS COLS) in
  regs_sized ROWS COLS r ∧ ∀ idx, 0 ≤ idx < ROWS * COLS → load (vc r) idx = z.
Proof.
  intros Hl HR HC r.
  assert (Hinv : (λ n r, regs_sized ROWS COLS r ∧ ∀ idx, 0 ≤ idx < n → load (vc r) idx = z)
                   (ROWS * COLS) r).
  { subst r. apply ForcedUnroll_ind; [| |nia].
    - split; [|intros; lia]. unfold regs_sized, pair_regs_sized, regs_init.
      cbn [va vb vc scale zero]. rewrite !length_replicate. lia.
    - intros i r Hi [(Hp & Hb & Hc) Hv]. rewrite Hl. split.
      + unfold regs_sized, pair_regs_sized, set_vc in *. cbn [va vb vc scale zero] in *.
        by rewrite length_store.
      + intros idx Hidx. unfold set_vc. cbn [vc].
        destruct (decide (idx = i)) as [-> | Hne].
        * by rewrite load_store_eq by lia.
        * rewrite load_store_ne by done. apply Hv. lia. }
  done.
Qed.

Lemma load_scale_and_zeros_avx512_frame S ldc i kb r :
  va (load_scale_and_zeros_avx512 S ldc i kb r) = va r
  ∧ vb (load_scale_and_zeros_avx512 S ldc i kb r) = vb r
  ∧ vc (load_scale_and_zeros_avx512 S ldc i kb r) = vc r.
Proof. unfold load_scale_and_zeros_avx512. by destruct (cvtbf16_fp32 _). Qed.

Lemma accumulate_avx512_value MB_SIZE NB_SIZE A B S lda ldb ldc K BLOCK_K :
  0 < NB_SIZE `quot` 16 → 0 ≤ MB_SIZE →
  let r := accumulate_avx512 MB_SIZE NB_SIZE A B S lda ldb ldc K BLOCK_K in
  regs_sized MB_SIZE (NB_SIZE `quot` 16) r
  ∧ ∀ idx, 0 ≤ idx < MB_SIZE * (NB_SIZE `quot` 16) →
      load (vc r) idx = vc_avx512 NB_SIZE A B S lda ldb ldc BLOCK_K idx K.
Proof.
  intros HC HR r. subst r. unfold accumulate_avx512.
  set (COLS := NB_SIZE `quot` 16) in *.
  destruct (loadc_effect MB_SIZE COLS _mm512_setzero_ps loadc_avx512) as [Hsz0 Hv0];
    [done|done|lia|].
  set (r0 := ForcedUnroll (MB_SIZE * COLS) loadc_avx512 (regs_init MB_SIZE COLS)) in *.
  destruct (decide (0 ≤ K)) as [HK | HK].
  2:{ unfold k_loop, vc_avx512, irange. rewrite !seqZ_nil by lia. done. }
  apply (k_loop_inv MB_SIZE COLS BLOCK_K (load_scale_and_zeros_avx512 S ldc)
           (compute_avx512 NB_SIZE A B lda ldb)
           (λ k r, regs_sized MB_SIZE COLS r
                   ∧ ∀ idx, 0 ≤ idx < MB_SIZE * COLS →
                       load (vc r) idx = vc_avx512 NB_SIZE A B S lda ldb ldc BLOCK_K idx k)
           (λ kb, pairs_loaded COLS (λ c, group_scales S ldc 16 c kb)
                    (λ c, group_zeros S ldc 16 c kb))); [| |done|].
  - intros k kb r [(Hp & Hb & Hc) Hv].
    destruct (reload_loads COLS (λ i, load_scale_and_zeros_avx512 S ldc i kb)
                (λ c, group_scales S ldc 16 c kb) (λ c, group_zeros S ldc 16 c kb) r)
      as [Hp' Hl']; [|done|].
    { intros i r' Hi Hr'. by apply (load_scale_and_zeros_avx512_effect S ldc COLS). }
    split; [|done]. unfold regs_sized.
    rewrite (ForcedUnroll_preserve vb), (ForcedUnroll_preserve vc)
      by (intros; apply load_scale_and_zeros_avx512_frame).
    done.
  - intros k r Hk [(Hp & Hb & Hc) Hv] Hl.
    destruct (compute_avx512_sweep MB_SIZE NB_SIZE A B lda ldb k r)
      as (Hs & Hz & Hlc & Hlb & Hvc); [done..|].
    fold COLS in Hs, Hz, Hlc, Hlb, Hvc.
    split; [split|].
    + unfold regs_sized, pair_regs_sized in *. by rewrite Hs, Hz, Hlb, Hlc.
    + intros idx Hidx. rewrite (Hvc idx Hidx), (Hv idx Hidx).
      assert (Hcol : 0 ≤ idx `rem` COLS < COLS) by (apply Z.rem_bound_pos; lia).
      destruct (Hl _ Hcol) as [-> ->].
      unfold vc_avx512. fold COLS. by rewrite irange_S, foldl_snoc.
    + intros c Hc'. rewrite Hs, Hz. by apply Hl.
  - split; [done|]. intros idx Hidx. by rewrite Hv0.
Qed.

(** ** Lists *)

Lemma bind_singleton_fmap {A B} (f : A → B) (l : list A) : l ≫= (λ x, [f x]) = f <$> l.
Proof. induction l as [|x l IH]; [done|]. by rewrite bind_cons, IH. Qed.

Lemma irange_add a b :
  0 ≤ a → 0 ≤ b → irange (a + b) = irange a ++ (Z.add a <$> irange b).
Proof.
  intros Ha Hb. unfold irange. rewrite seqZ_app by done.
  by rewrite fmap_add_seqZ, Z.add_0_r.
Qed.

Lemma irange_mul_bind {X} (R Cn : Z) (f : Z → list X) :
  0 ≤ R → 0 ≤ Cn →
  irange (R * Cn) ≫= f = irange R ≫= λ row, irange Cn ≫= λ col, f (row * Cn + col).
Proof.
  intros HR HC. rewrite <- (Z2Nat.id R) by done. generalize (Z.to_nat R). clear R HR.
  intros R. induction R as [|R IH]; [done|].
  replace (Z.of_nat (S R)) with (Z.of_nat R + 1) by lia.
  replace ((Z.of_nat R + 1) * Cn) with (Z.of_nat R * Cn + Cn) by lia.
  rewrite irange_add by nia. rewrite bind_app, IH.
  rewrite (irange_S (Z.of_nat R)) by lia. rewrite bind_app. f_equal.
  rewrite bind_singleton, list_fmap_bind.
  done.
Qed.

Lemma load_lookup {X} `{!Inhabited X} (p : list X) (i : nat) x :
  p !! i = Some x → load p (Z.of_nat i) = x.
Proof.
  intros Hx. unfold load. rewrite bool_decide_eq_true_2 by lia.
  rewrite Nat2Z.id. by rewrite list_lookup_total_alt, Hx.
Qed.

Lemma storeu_writes_lanes i (vs : list BFloat16) :
  storeu_writes i vs = (λ l, (i + l, load vs l)) <$> irange (Z.of_nat (length vs)).
Proof.
  unfold storeu_writes, irange. apply list_eq. intros j.
  rewrite !list_lookup_fmap, list_lookup_imap.
  destruct (vs !! j) as [x|] eqn:Hx.
  - rewrite lookup_seqZ_lt by (apply lookup_lt_Some in Hx; lia).
    simpl. rewrite Z.add_0_l. by rewrite (load_lookup vs j x).
  - rewrite lookup_seqZ_ge by (apply lookup_ge_None in Hx; lia). done.
Qed.

Lemma storeu_writes_app i (a b : list BFloat16) :
  storeu_writes i (a ++ b)
  = storeu_writes i a ++ storeu_writes (i + Z.of_nat (length a)) b.
Proof.
  unfold storeu_writes. rewrite imap_app, fmap_app. f_equal.
  rewrite !fmap_imap. apply imap_ext. intros j x _. simpl. f_equal. lia.
Qed.

Lemma length_zip_with3 {X} (f : X → X → X → X) a b c (n : nat) :
  length a = n → length b = n → length c = n → length (zip_with3 f a b c) = n.
Proof.
  intros Ha Hb Hc. unfold zip_with3. rewrite length_zip_with, length_zip. lia.
Qed.

Lemma load_zip_with3 {X} `{!Inhabited X} (f : X → X → X → X) a b c (n : nat) l :
  length a = n → length b = n → length c = n → 0 ≤ l < Z.of_nat n →
  load (zip_with3 f a b c) l = f (load a l) (load b l) (load c l).
Proof.
  intros Ha Hb Hc Hl. rewrite <- (Z2Nat.id l) by lia.
  destruct (lookup_lt_is_Some_2 a (Z.to_nat l)) as [x Hx]; [lia|].
  destruct (lookup_lt_is_Some_2 b (Z.to_nat l)) as [y Hy]; [lia|].
  destruct (lookup_lt_is_Some_2 c (Z.to_nat l)) as [z Hz]; [lia|].
  rewrite (load_lookup a _ x), (load_lookup b _ y), (load_lookup c _ z) by done.
  apply load_lookup. unfold zip_with3.
  rewrite lookup_zip_with, lookup_zip_with, Hx, Hy, Hz. done.
Qed.

Lemma load_replicate {X} `{!Inhabited X} (n : nat) (x : X) l :
  0 ≤ l < Z.of_nat n → load (replicate n x) l = x.
Proof.
  intros Hl. rewrite <- (Z2Nat.id l) by lia. apply load_lookup.
  apply lookup_replicate_2. lia.
Qed.

Lemma load_fmap_irange {X} `{!Inhabited X} (f : Z → X) n l :
  0 ≤ l < n → load (f <$> irange n) l = f l.
Proof.
  intros Hl. rewrite <- (Z2Nat.id l) at 1 by lia. apply load_lookup.
  unfold irange. rewrite list_lookup_fmap, lookup_seqZ_lt by lia.
  cbn [fmap option_fmap option_map]. by rewrite Z.add_0_l, Z2Nat.id by lia.
Qed.

(** A fold of lane-wise steps is, lane by lane, the fold of the steps. *)
Lemma load_foldl_lanes (n : nat) (g : Z → list float → list float)
    (gl : Z → float → float) (ks : list Z) (v0 : list float) (l : Z) :
  (∀ k v, k ∈ ks → length v = n →
     length (g k v) = n ∧ load (g k v) l = gl k (load v l)) →
  length v0 = n →
  length (foldl (λ v k, g k v) v0 ks) = n
  ∧ load (foldl (λ v k, g k v) v0 ks) l = foldl (λ c k, gl k c) (load v0 l) ks.
Proof.
  revert v0. induction ks as [|k ks IH]; intros v0 Hg Hv0; [done|].
  cbn [foldl]. destruct (Hg k v0) as [Hlen Hld]; [left|done|].
  destruct (IH (g k v0)) as [IH1 IH2]; [|done|].
  { intros k' v Hk'. apply Hg. by right. }
  split; [done|]. by rewrite IH2, Hld.
Qed.

Lemma quot_rem_mul_add q b r :
  0 ≤ q → 0 ≤ r < b → (q * b + r) `quot` b = q ∧ (q * b + r) `rem` b = r.
Proof.
  intros Hq Hr. split; symmetry.
  - apply Z.quot_unique with (r := r); nia.
  - apply Z.rem_unique with (q := q); nia.
Qed.

Lemma bind_nil_l {X Y} (f : X → list Y) : [] ≫= f = [].
Proof. done. Qed.

Lemma length_lanes w n v : length (lanes w n v) = n.
Proof. unfold lanes. by rewrite length_fmap, length_seq. Qed.

Lemma load_fmap {X Y} `{!Inhabited X, !Inhabited Y} (f : X → Y) (xs : list X) l :
  0 ≤ l < Z.of_nat (length xs) → load (f <$> xs) l = f (load xs l).
Proof.
  intros Hl. rewrite <- (Z2Nat.id l) by lia.
  destruct (lookup_lt_is_Some_2 xs (Z.to_nat l)) as [x Hx]; [lia|].
  rewrite (load_lookup xs _ x) by done. apply load_lookup.
  by rewrite list_lookup_fmap, Hx.
Qed.

Lemma length_group_scales S ldc w c kb : length (group_scales S ldc w c kb) = Z.to_nat w.
Proof. unfold group_scales, irange. by rewrite length_fmap, length_seqZ. Qed.

Lemma length_group_zeros S ldc w c kb : length (group_zeros S ldc w c kb) = Z.to_nat w.
Proof. unfold group_zeros, irange. by rewrite length_fmap, length_seqZ. Qed.

(** Lane [l] of the accumulator of column vector [col] in row [row]. *)
Lemma vc_avx512_lane NB_SIZE A B S lda ldb ldc BLOCK_K row col l K :
  0 ≤ row → 0 ≤ col < NB_SIZE `quot` 16 → 0 ≤ l < 16 →
  let v := vc_avx512 NB_SIZE A B S lda ldb ldc BLOCK_K (row * (NB_SIZE `quot` 16) + col) K in
  length v = 16%nat
  ∧ load v l = foldl (avx512_step NB_SIZE A B S lda ldb ldc BLOCK_K row (col * 16 + l))
                 (float_of_int 0) (irange K).
Proof.
  intros Hrow Hcol Hl v. subst v. unfold vc_avx512.
  destruct (quot_rem_mul_add row (NB_SIZE `quot` 16) col Hrow Hcol) as [-> ->].
  destruct (quot_rem_mul_add col 16 l ltac:(lia) Hl) as [Eq Er].
  pose proof (load_foldl_lanes 16
    (λ k v, _mm512_fmadd_ps
       (_mm512_set1_ps (bf16_to_float (ptr_get A (row * lda + k))))
       (vb_avx512 NB_SIZE B ldb col k
          (group_scales S ldc 16 col (group_at BLOCK_K k))
          (group_zeros S ldc 16 col (group_at BLOCK_K k))) v)
    (λ k c, avx512_step NB_SIZE A B S lda ldb ldc BLOCK_K row (col * 16 + l) c k)
    (irange K) _mm512_setzero_ps l) as Hf.
  cbn beta in Hf.
  replace (load _mm512_setzero_ps l) with (float_of_int 0) in Hf
    by (symmetry; apply load_replicate; lia).
  apply Hf; [|done]. clear Hf. intros k v _ Hv.
  assert (Hlb : length (vb_avx512 NB_SIZE B ldb col k
                  (group_scales S ldc 16 col (group_at BLOCK_K k))
                  (group_zeros S ldc 16 col (group_at BLOCK_K k))) = 16%nat).
  { apply length_zip_with3;
      [unfold _mm512_permutexvar_ps; by rewrite length_fmap, length_lanes
      |by rewrite length_group_scales|by rewrite length_group_zeros]. }
  split.
  - apply length_zip_with3; [apply length_replicate|done|done].
  - unfold _mm512_fmadd_ps at 1.
    rewrite (load_zip_with3 _ _ _ _ 16) by (done || apply length_replicate || lia).
    unfold _mm512_set1_ps. rewrite load_replicate by lia.
    unfold vb_avx512, _mm512_fmadd_ps.
    rewrite (load_zip_with3 _ _ _ _ 16);
      [|unfold _mm512_permutexvar_ps; by rewrite length_fmap, length_lanes
       |by rewrite length_group_scales|by rewrite length_group_zeros|lia].
    unfold _mm512_permutexvar_ps. rewrite load_fmap by (rewrite length_lanes; lia).
    unfold group_scales, group_zeros. rewrite !load_fmap_irange by lia.
    unfold avx512_step. rewrite Eq, Er.
    by replace ((16 * col + l) * 2) with ((col * 16 + l) * 2) by lia.
Qed.

(** ** The stores of the AVX512 kernel *)

Lemma storeu_cvtfp32_bf16 i (v : list float) (w : Z) :
  Z.of_nat (length v) = w →
  storeu_writes i (cvtfp32_bf16 v)
  = irange w ≫= λ l, [(i + l, float_to_bf16 (load v l))].
Proof.
  intros Hw. rewrite storeu_writes_lanes, bind_singleton_fmap. unfold cvtfp32_bf16.
  rewrite length_fmap, Hw. apply list_fmap_ext.
  intros ? l Hl%list_elem_of_lookup_2%elem_of_irange.
  by rewrite load_fmap by lia.
Qed.

Lemma storec_row_avx512 NB_SIZE C ldc r row :
  NB_SIZE = 16 ∨ NB_SIZE = 32 ∨ NB_SIZE = 48 ∨ NB_SIZE = 64 → 0 ≤ row →
  (∀ col, 0 ≤ col < NB_SIZE `quot` 16 →
     length (load (vc r) (row * (NB_SIZE `quot` 16) + col)) = 16%nat) →
  irange (NB_SIZE `quot` 16) ≫=
    (λ col, storec_writes_avx512 NB_SIZE C ldc r (row * (NB_SIZE `quot` 16) + col))
  = irange (NB_SIZE `quot` 16) ≫= λ col,
      storeu_writes (C + (row * ldc + col * 16))
        (cvtfp32_bf16 (load (vc r) (row * (NB_SIZE `quot` 16) + col))).
Proof.
  intros HNB Hrow Hlen.
  destruct (decide (NB_SIZE = 64)) as [-> | Hne].
  - change (64 `quot` 16) with 4 in *. unfold storec_writes_avx512.
    change (64 `quot` 16) with 4. change (irange 4) with [0; 1; 2; 3].
    rewrite !bind_cons, !bind_nil_l.
    destruct (quot_rem_mul_add row 4 0 Hrow ltac:(lia)) as [-> ->].
    destruct (quot_rem_mul_add row 4 1 Hrow ltac:(lia)) as [_ ->].
    destruct (quot_rem_mul_add row 4 2 Hrow ltac:(lia)) as [_ ->].
    destruct (quot_rem_mul_add row 4 3 Hrow ltac:(lia)) as [_ ->].
    cbn [Z.eqb Pos.eqb]. unfold cvtfp32_bf16_2, cvtfp32_bf16.
    rewrite !storeu_writes_app, !length_fmap, !app_nil_r.
    rewrite (Hlen 0), (Hlen 2) by lia. rewrite <- !app_assoc.
    replace (C + (row * ldc + 0 * 32) + Z.of_nat 16) with (C + (row * ldc + 1 * 16)) by lia.
    replace (C + (row * ldc + 1 * 32) + Z.of_nat 16) with (C + (row * ldc + 3 * 16)) by lia.
    replace (C + (row * ldc + 0 * 32)) with (C + (row * ldc + 0 * 16)) by lia.
    replace (C + (row * ldc + 1 * 32)) with (C + (row * ldc + 2 * 16)) by lia.
    reflexivity.
  - apply Forall_bind_ext, Forall_forall. intros col Hcol%elem_of_irange.
    unfold storec_writes_avx512.
    destruct (quot_rem_mul_add row (NB_SIZE `quot` 16) col Hrow Hcol) as [-> ->].
    destruct (Z.eqb_spec (NB_SIZE `quot` 16) 4) as [E | E]; [|done].
    exfalso. clia.
Qed.

Lemma storec_avx512_tile MB_SIZE NB_SIZE C ldc r :
  NB_SIZE = 16 ∨ NB_SIZE = 32 ∨ NB_SIZE = 48 ∨ NB_SIZE = 64 → 0 ≤ MB_SIZE →
  (∀ idx, 0 ≤ idx < MB_SIZE * (NB_SIZE `quot` 16) → length (load (vc r) idx) = 16%nat) →
  irange (MB_SIZE * (NB_SIZE `quot` 16)) ≫= storec_writes_avx512 NB_SIZE C ldc r
  = vec_tile_writes 16 MB_SIZE NB_SIZE C ldc (vc r).
Proof.
  intros HNB HMB Hlen.
  assert (HC : 0 < NB_SIZE `quot` 16 ∧ NB_SIZE = NB_SIZE `quot` 16 * 16) by clia.
  destruct HC as [HC HNBeq].
  rewrite irange_mul_bind by lia. unfold vec_tile_writes.
  apply Forall_bind_ext, Forall_forall. intros row Hrow%elem_of_irange.
  rewrite storec_row_avx512; [|done|lia|].
  2:{ intros col Hcol. apply Hlen. nia. }
  replace (irange NB_SIZE) with (irange (NB_SIZE `quot` 16 * 16)) by (f_equal; lia).
  rewrite irange_mul_bind by lia.
  apply Forall_bind_ext, Forall_forall. intros col Hcol%elem_of_irange.
  rewrite (storeu_cvtfp32_bf16 _ _ 16) by (rewrite Hlen; [done|nia]).
  apply Forall_bind_ext, Forall_forall. intros l Hl%elem_of_irange.
  destruct (quot_rem_mul_add col 16 l ltac:(lia) Hl) as [-> ->].
  do 2 f_equal. lia.
Qed.

Lemma tile_writes_avx512 MB_SIZE NB_SIZE A B S C lda ldb ldc K BLOCK_K :
  NB_SIZE = 16 ∨ NB_SIZE = 32 ∨ NB_SIZE = 48 ∨ NB_SIZE = 64 → 0 ≤ MB_SIZE →
  tile_writes AVX512 MB_SIZE NB_SIZE A B S C lda ldb ldc K BLOCK_K
  = tile_writes_of (avx512_step NB_SIZE A B S lda ldb ldc BLOCK_K) MB_SIZE NB_SIZE C ldc K.
Proof.
  intros HNB HMB. unfold tile_writes.
  assert (HC : 0 < NB_SIZE `quot` 16) by clia.
  destruct (accumulate_avx512_value MB_SIZE NB_SIZE A B S lda ldb ldc K BLOCK_K HC HMB)
    as [_ Hv].
  set (r := accumulate_avx512 MB_SIZE NB_SIZE A B S lda ldb ldc K BLOCK_K) in *.
  assert (Hlane : ∀ m n, 0 ≤ m < MB_SIZE → 0 ≤ n < NB_SIZE →
    length (load (vc r) (m * (NB_SIZE `quot` 16) + n `quot` 16)) = 16%nat
    ∧ load (load (vc r) (m * (NB_SIZE `quot` 16) + n `quot` 16)) (n `rem` 16)
      = foldl (avx512_step NB_SIZE A B S lda ldb ldc BLOCK_K m n)
          (float_of_int 0) (irange K)).
  { intros m n Hm Hn.
    assert (Hq : 0 ≤ n `quot` 16 < NB_SIZE `quot` 16 ∧ 0 ≤ n `rem` 16 < 16
                 ∧ n `quot` 16 * 16 + n `rem` 16 = n) by clia.
    destruct Hq as (Hq & Hr & Hn').
    rewrite Hv by nia.
    destruct (vc_avx512_lane NB_SIZE A B S lda ldb ldc BLOCK_K m (n `quot` 16)
                (n `rem` 16) K ltac:(lia) Hq Hr) as [Hl Hx].
    by rewrite Hn' in Hx. }
  rewrite storec_avx512_tile; [|done|done|].
  2:{ intros idx Hidx.
      pose proof (Z.quot_rem' idx (NB_SIZE `quot` 16)) as Hqr.
      assert (0 ≤ idx `rem` (NB_SIZE `quot` 16) < NB_SIZE `quot` 16)
        by (apply Z.rem_bound_pos; lia).
      assert (0 ≤ idx `quot` (NB_SIZE `quot` 16)) by (apply Z.quot_pos; lia).
      destruct (Hlane (idx `quot` (NB_SIZE `quot` 16)) (idx `rem` (NB_SIZE `quot` 16) * 16))
        as [Hl _]; [nia|clia|].
      replace ((idx `rem` (NB_SIZE `quot` 16) * 16) `quot` 16)
        with (idx `rem` (NB_SIZE `quot` 16)) in Hl by clia.
      by replace (idx `quot` (NB_SIZE `quot` 16) * (NB_SIZE `quot` 16)
                  + idx `rem` (NB_SIZE `quot` 16)) with idx in Hl by lia. }
  unfold vec_tile_writes, tile_writes_of.
  apply Forall_bind_ext, Forall_forall. intros m Hm%elem_of_irange.
  apply Forall_bind_ext, Forall_forall. intros n Hn%elem_of_irange.
  by destruct (Hlane m n Hm Hn) as [_ ->].
Qed.

(** ** AVX2: the weight registers of a step *)

Lemma dequant_avx2_effect r col b32 :
  0 ≤ col < Z.of_nat (length (vb r)) →
  dequant_avx2 r col b32
  = set_vb r col (_mm256_fmadd_ps (_mm256_cvtepi32_ps b32)
                    (load (scale r) col) (load (zero r) col)).
Proof.
  intros Hc. unfold dequant_avx2, set_vb. cbn [va vb vc scale zero].
  by rewrite load_store_eq, store_store by lia.
Qed.

Lemma compute_avx2_sweep MB_SIZE NB_SIZE A B lda ldb k r0 :
  0 < NB_SIZE `quot` 8 → (NB_SIZE `quot` 8) `rem` 2 = 0 → 0 ≤ MB_SIZE →
  Z.of_nat (length (vc r0)) = MB_SIZE * (NB_SIZE `quot` 8) →
  Z.of_nat (length (vb r0)) = NB_SIZE `quot` 8 →
  let r' := ForcedUnroll (MB_SIZE * (NB_SIZE `quot` 8))
              (λ i, compute_avx2 NB_SIZE A B lda ldb i k) r0 in
  scale r' = scale r0 ∧ zero r' = zero r0
  ∧ length (vc r') = length (vc r0) ∧ length (vb r') = length (vb r0)
  ∧ ∀ idx, 0 ≤ idx < MB_SIZE * (NB_SIZE `quot` 8) →
      load (vc r') idx
      = _mm256_fmadd_ps
          (_mm256_set1_ps (bf16_to_float (ptr_get A (idx `quot` (NB_SIZE `quot` 8) * lda + k))))
          (vb_avx2 NB_SIZE B ldb (idx `rem` (NB_SIZE `quot` 8)) k
             (load (scale r0) (idx `rem` (NB_SIZE `quot` 8)))
             (load (zero r0) (idx `rem` (NB_SIZE `quot` 8))))
          (load (vc r0) idx).
Proof.
  intros HC Hev HR Hlvc Hlvb r'.
  set (COLS := NB_SIZE `quot` 8) in *.
  set (VB := λ c, vb_avx2 NB_SIZE B ldb c k (load (scale r0) c) (load (zero r0) c)).
  pose proof (sweep_effect MB_SIZE COLS
    (λ row, bf16_to_float (ptr_get A (row * lda + k)))
    _mm256_set1_ps _mm256_fmadd_ps (load_b_avx2 NB_SIZE B ldb k)
    (λ i, compute_avx2 NB_SIZE A B lda ldb i k) VB (ready_avx2 NB_SIZE VB) r0) as Hsw.
  cbn zeta in Hsw. fold r' in Hsw.
  assert (Hlen_vb : length (vb r') = length (vb r0)).
  { subst r'. apply (ForcedUnroll_preserve (λ r, length (vb r))). intros i s.
    unfold compute_avx2. fold COLS.
    repeat match goal with |- context [if ?b then _ else _] => destruct b end;
      cbn [va vb vc scale zero set_va set_vb set_vc dequant_avx2];
      rewrite ?length_store; reflexivity. }
  destruct Hsw as (Hs & Hz & Hl & _ & Hvc); [| | | |done|done|done| |by split_and!].
  - reflexivity.
  - intros col r. unfold load_b_avx2.
    repeat match goal with |- context [if ?b then _ else _] => destruct b end;
      cbn [va vb vc scale zero set_vb dequant_avx2]; done.
  - intros i vbs c Hc Hi [_ Hr]. apply Hr; [fold COLS; lia|left; lia].
  - intros col r Hcol Hs Hz [Hlen Hr]. fold COLS in Hlen, Hr. unfold load_b_avx2. fold COLS.
    destruct (Z.eqb_spec COLS 4) as [E4 | E4].
    + destruct (Z.eqb_spec col 0) as [E0 | E0].
      * cbn zeta.
        rewrite (dequant_avx2_effect r 0) by lia.
        rewrite (dequant_avx2_effect _ 2) by (cbn [vb set_vb]; rewrite ?length_store; lia).
        rewrite (dequant_avx2_effect _ 1) by (cbn [vb set_vb]; rewrite ?length_store; lia).
        rewrite (dequant_avx2_effect _ 3) by (cbn [vb set_vb]; rewrite ?length_store; lia).
        cbn [va vb vc scale zero set_vb]. rewrite Hs, Hz.
        split; [by rewrite !length_store|]. fold COLS. intros c Hc _.
        assert (c = 0 ∨ c = 1 ∨ c = 2 ∨ c = 3) as [-> | [-> | [-> | ->]]] by lia.
        all: repeat (rewrite load_store_ne by lia);
          rewrite load_store_eq by (rewrite ?length_store; lia).
        all: subst VB; cbn beta; unfold vb_avx2, b32_avx2; fold COLS;
          rewrite E4; cbn [Z.eqb Pos.eqb]; reflexivity.
      * split; [done|]. fold COLS. intros c Hc _. apply Hr; [done|right; left; lia].
    + destruct (Z.eqb_spec (col `rem` 2) 0) as [Ec | Ec].
      * assert (Hc1 : col + 1 < COLS) by clia.
        cbn zeta.
        rewrite (dequant_avx2_effect r col) by lia.
        rewrite (dequant_avx2_effect _ (col + 1))
          by (cbn [vb set_vb]; rewrite ?length_store; lia).
        cbn [va vb vc scale zero set_vb]. rewrite Hs, Hz.
        split; [by rewrite !length_store|]. fold COLS. intros c Hc Hcase.
        destruct (decide (c = col + 1)) as [-> | Hne1].
        { rewrite load_store_eq by (rewrite ?length_store; lia).
          subst VB; cbn beta; unfold vb_avx2, b32_avx2; fold COLS.
          destruct (Z.eqb_spec COLS 4); [done|].
          assert ((col + 1) `rem` 2 = 1) as -> by clia.
          replace (col + 1 - 1) with col by lia. reflexivity. }
        rewrite load_store_ne by lia.
        destruct (decide (c = col)) as [-> | Hne].
        { rewrite load_store_eq by lia.
          subst VB; cbn beta; unfold vb_avx2, b32_avx2; fold COLS.
          destruct (Z.eqb_spec COLS 4); [done|].
          rewrite Ec. replace (col - 0) with col by lia. reflexivity. }
        rewrite load_store_ne by done. apply Hr; [done|].
        destruct Hcase as [? | [[? _] | [? ?]]]; [left; lia|done|].
        destruct (decide (c < col)); [left; lia|]. exfalso. clia.
      * split; [done|]. fold COLS. intros c Hc Hcase. apply Hr; [done|].
        destruct Hcase as [? | [[? _] | [? ?]]]; [|done|].
        -- destruct (decide (c = col)) as [-> | ?]; [right; right; clia|left; lia].
        -- destruct (decide (c = col + 1)) as [-> | ?]; [exfalso; clia|].
           right; right. split; [done|lia].
  - split; [done|]. fold COLS. intros c Hc [? | [[_ ?] | [? ?]]]; [lia|lia|].
    exfalso. clia.
Qed.

(** ** AVX2: the accumulators and the stores *)

Lemma load_scale_and_zeros_avx2_frame S ldc i kb r :
  va (load_scale_and_zeros_avx2 S ldc i kb r) = va r
  ∧ vb (load_scale_and_zeros_avx2 S ldc i kb r) = vb r
  ∧ vc (load_scale_and_zeros_avx2 S ldc i kb r) = vc r.
Proof. unfold load_scale_and_zeros_avx2. by destruct (cvtbf16_fp32 _). Qed.

Lemma accumulate_avx2_value MB_SIZE NB_SIZE A B S lda ldb ldc K BLOCK_K :
  0 < NB_SIZE `quot` 8 → (NB_SIZE `quot` 8) `rem` 2 = 0 → 0 ≤ MB_SIZE →
  let r := accumulate_avx2 MB_SIZE NB_SIZE A B S lda ldb ldc K BLOCK_K in
  regs_sized MB_SIZE (NB_SIZE `quot` 8) r
  ∧ ∀ idx, 0 ≤ idx < MB_SIZE * (NB_SIZE `quot` 8) →
      load (vc r) idx = vc_avx2 NB_SIZE A B S lda ldb ldc BLOCK_K idx K.
Proof.
  intros HC Hev HR r. subst r. unfold accumulate_avx2.
  set (COLS := NB_SIZE `quot` 8) in *.
  destruct (loadc_effect MB_SIZE COLS _mm256_setzero_ps loadc_avx2) as [Hsz0 Hv0];
    [done|done|lia|].
  set (r0 := ForcedUnroll (MB_SIZE * COLS) loadc_avx2 (regs_init MB_SIZE COLS)) in *.
  destruct (decide (0 ≤ K)) as [HK | HK].
  2:{ unfold k_loop, vc_avx2, irange. rewrite !seqZ_nil by lia. done. }
  apply (k_loop_inv MB_SIZE COLS BLOCK_K (load_scale_and_zeros_avx2 S ldc)
           (compute_avx2 NB_SIZE A B lda ldb)
           (λ k r, regs_sized MB_SIZE COLS r
                   ∧ ∀ idx, 0 ≤ idx < MB_SIZE * COLS →
                       load (vc r) idx = vc_avx2 NB_SIZE A B S lda ldb ldc BLOCK_K idx k)
           (λ kb, pairs_loaded COLS (λ c, group_scales S ldc 8 c kb)
                    (λ c, group_zeros_avx2 S ldc c kb))); [| |done|].
  - intros k kb r [(Hp & Hb & Hc) Hv].
    destruct (reload_loads COLS (λ i, load_scale_and_zeros_avx2 S ldc i kb)
                (λ c, group_scales S ldc 8 c kb) (λ c, group_zeros_avx2 S ldc c kb) r)
      as [Hp' Hl']; [|done|].
    { intros i r' Hi Hr'. by apply (load_scale_and_zeros_avx2_effect S ldc COLS). }
    split; [|done]. unfold regs_sized.
    rewrite (ForcedUnroll_preserve vb), (ForcedUnroll_preserve vc)
      by (intros; apply load_scale_and_zeros_avx2_frame).
    done.
  - intros k r Hk [(Hp & Hb & Hc) Hv] Hl.
    destruct (compute_avx2_sweep MB_SIZE NB_SIZE A B lda ldb k r)
      as (Hs & Hz & Hlc & Hlb & Hvc); [done..|].
    fold COLS in Hs, Hz, Hlc, Hlb, Hvc.
    split; [split|].
    + unfold regs_sized, pair_regs_sized in *. by rewrite Hs, Hz, Hlb, Hlc.
    + intros idx Hidx. rewrite (Hvc idx Hidx), (Hv idx Hidx).
      assert (Hcol : 0 ≤ idx `rem` COLS < COLS) by (apply Z.rem_bound_pos; lia).
      destruct (Hl _ Hcol) as [-> ->].
      unfold vc_avx2. fold COLS. by rewrite irange_S, foldl_snoc.
    + intros c Hc'. rewrite Hs, Hz. by apply Hl.
  - split; [done|]. intros idx Hidx. by rewrite Hv0.
Qed.

Lemma length_group_zeros_avx2 S ldc c kb : length (group_zeros_avx2 S ldc c kb) = 8%nat.
Proof.
  unfold group_zeros_avx2, _mm256_fmadd_ps. apply length_zip_with3;
    [by rewrite length_group_scales|apply length_replicate|by rewrite length_group_zeros].
Qed.

Lemma vc_avx2_lane NB_SIZE A B S lda ldb ldc BLOCK_K row col l K :
  0 ≤ row → 0 ≤ col < NB_SIZE `quot` 8 → 0 ≤ l < 8 →
  let v := vc_avx2 NB_SIZE A B S lda ldb ldc BLOCK_K (row * (NB_SIZE `quot` 8) + col) K in
  length v = 8%nat
  ∧ load v l = foldl (avx2_step NB_SIZE A B S lda ldb ldc BLOCK_K row (col * 8 + l))
                 (float_of_int 0) (irange K).
Proof.
  intros Hrow Hcol Hl v. subst v. unfold vc_avx2.
  destruct (quot_rem_mul_add row (NB_SIZE `quot` 8) col Hrow Hcol) as [-> ->].
  destruct (quot_rem_mul_add col 8 l ltac:(lia) Hl) as [Eq Er].
  pose proof (load_foldl_lanes 8
    (λ k v, _mm256_fmadd_ps
       (_mm256_set1_ps (bf16_to_float (ptr_get A (row * lda + k))))
       (vb_avx2 NB_SIZE B ldb col k
          (group_scales S ldc 8 col (group_at BLOCK_K k))
          (group_zeros_avx2 S ldc col (group_at BLOCK_K k))) v)
    (λ k c, avx2_step NB_SIZE A B S lda ldb ldc BLOCK_K row (col * 8 + l) c k)
    (irange K) _mm256_setzero_ps l) as Hf.
  cbn beta in Hf.
  replace (load _mm256_setzero_ps l) with (float_of_int 0) in Hf
    by (symmetry; apply load_replicate; lia).
  apply Hf; [|done]. clear Hf. intros k v _ Hv.
  assert (Hlb : length (vb_avx2 NB_SIZE B ldb col k
                  (group_scales S ldc 8 col (group_at BLOCK_K k))
                  (group_zeros_avx2 S ldc col (group_at BLOCK_K k))) = 8%nat).
  { apply length_zip_with3;
      [unfold _mm256_cvtepi32_ps; by rewrite length_fmap, length_lanes
      |by rewrite length_group_scales|by rewrite length_group_zeros_avx2]. }
  split.
  - apply length_zip_with3; [apply length_replicate|done|done].
  - unfold _mm256_fmadd_ps at 1.
    rewrite (load_zip_with3 _ _ _ _ 8) by (done || apply length_replicate || lia).
    unfold _mm256_set1_ps. rewrite load_replicate by lia.
    unfold vb_avx2, _mm256_fmadd_ps at 1.
    rewrite (load_zip_with3 _ _ _ _ 8);
      [|unfold _mm256_cvtepi32_ps; by rewrite length_fmap, length_lanes
       |by rewrite length_group_scales|by rewrite length_group_zeros_avx2|lia].
    unfold _mm256_cvtepi32_ps. rewrite load_fmap by (rewrite length_lanes; lia).
    unfold group_zeros_avx2, _mm256_fmadd_ps.
    rewrite (load_zip_with3 _ _ _ _ 8);
      [|by rewrite length_group_scales|apply length_replicate
       |by rewrite length_group_zeros|lia].
    unfold offset256, _mm256_set1_ps. rewrite load_replicate by lia.
    unfold group_scales, group_zeros. rewrite !load_fmap_irange by lia.
    unfold avx2_step. rewrite Eq, Er.
    by replace ((8 * col + l) * 2) with ((col * 8 + l) * 2) by lia.
Qed.

Lemma storec_row_avx2 NB_SIZE C ldc r row :
  NB_SIZE = 16 ∨ NB_SIZE = 32 → 0 ≤ row →
  (∀ col, 0 ≤ col < NB_SIZE `quot` 8 →
     length (load (vc r) (row * (NB_SIZE `quot` 8) + col)) = 8%nat) →
  irange (NB_SIZE `quot` 8) ≫=
    (λ col, storec_writes_avx2 NB_SIZE C ldc r (row * (NB_SIZE `quot` 8) + col))
  = irange (NB_SIZE `quot` 8) ≫= λ col,
      storeu_writes (C + (row * ldc + col * 8))
        (cvtfp32_bf16 (load (vc r) (row * (NB_SIZE `quot` 8) + col))).
Proof.
  intros [-> | ->] Hrow Hlen.
  - change (16 `quot` 8) with 2 in *. unfold storec_writes_avx2.
    change (16 `quot` 8) with 2. change (irange 2) with [0; 1].
    rewrite !bind_cons, !bind_nil_l.
    destruct (quot_rem_mul_add row 2 0 Hrow ltac:(lia)) as [-> ->].
    destruct (quot_rem_mul_add row 2 1 Hrow ltac:(lia)) as [-> ->].
    change (0 `rem` 2 =? 0) with true. change (1 `rem` 2 =? 0) with false. cbv iota.
    unfold cvtfp32_bf16_2, cvtfp32_bf16.
    rewrite !storeu_writes_app, !length_fmap, !app_nil_r.
    rewrite (Hlen 0) by lia.
    replace (C + (row * ldc + 0 * 8) + Z.of_nat 8) with (C + (row * ldc + 1 * 8)) by lia.
    replace (row * 2 + 0 + 1) with (row * 2 + 1) by lia.
    reflexivity.
  - change (32 `quot` 8) with 4 in *. unfold storec_writes_avx2.
    change (32 `quot` 8) with 4. change (irange 4) with [0; 1; 2; 3].
    rewrite !bind_cons, !bind_nil_l.
    destruct (quot_rem_mul_add row 4 0 Hrow ltac:(lia)) as [-> ->].
    destruct (quot_rem_mul_add row 4 1 Hrow ltac:(lia)) as [-> ->].
    destruct (quot_rem_mul_add row 4 2 Hrow ltac:(lia)) as [-> ->].
    destruct (quot_rem_mul_add row 4 3 Hrow ltac:(lia)) as [-> ->].
    change (0 `rem` 2 =? 0) with true. change (1 `rem` 2 =? 0) with false.
    change (2 `rem` 2 =? 0) with true. change (3 `rem` 2 =? 0) with false. cbv iota.
    unfold cvtfp32_bf16_2, cvtfp32_bf16.
    rewrite !storeu_writes_app, !length_fmap, !app_nil_r.
    rewrite (Hlen 0), (Hlen 2) by lia. rewrite <- !app_assoc.
    replace (C + (row * ldc + 0 * 8) + Z.of_nat 8) with (C + (row * ldc + 1 * 8)) by lia.
    replace (C + (row * ldc + 2 * 8) + Z.of_nat 8) with (C + (row * ldc + 3 * 8)) by lia.
    replace (row * 4 + 0 + 1) with (row * 4 + 1) by lia.
    replace (row * 4 + 2 + 1) with (row * 4 + 3) by lia.
    reflexivity.
Qed.

Lemma storec_avx2_tile MB_SIZE NB_SIZE C ldc r :
  NB_SIZE = 16 ∨ NB_SIZE = 32 → 0 ≤ MB_SIZE →
  (∀ idx, 0 ≤ idx < MB_SIZE * (NB_SIZE `quot` 8) → length (load (vc r) idx) = 8%nat) →
  irange (MB_SIZE * (NB_SIZE `quot` 8)) ≫= storec_writes_avx2 NB_SIZE C ldc r
  = vec_tile_writes 8 MB_SIZE NB_SIZE C ldc (vc r).
Proof.
  intros HNB HMB Hlen.
  assert (HC : 0 < NB_SIZE `quot` 8 ∧ NB_SIZE = NB_SIZE `quot` 8 * 8) by clia.
  destruct HC as [HC HNBeq].
  rewrite irange_mul_bind by lia. unfold vec_tile_writes.
  apply Forall_bind_ext, Forall_forall. intros row Hrow%elem_of_irange.
  rewrite storec_row_avx2; [|done|lia|].
  2:{ intros col Hcol. apply Hlen. nia. }
  replace (irange NB_SIZE) with (irange (NB_SIZE `quot` 8 * 8)) by (f_equal; lia).
  rewrite irange_mul_bind by lia.
  apply Forall_bind_ext, Forall_forall. intros col Hcol%elem_of_irange.
  rewrite (storeu_cvtfp32_bf16 _ _ 8) by (rewrite Hlen; [done|nia]).
  apply Forall_bind_ext, Forall_forall. intros l Hl%elem_of_irange.
  destruct (quot_rem_mul_add col 8 l ltac:(lia) Hl) as [-> ->].
  do 2 f_equal. lia.
Qed.

Lemma tile_writes_avx2 MB_SIZE NB_SIZE A B S C lda ldb ldc K BLOCK_K :
  NB_SIZE = 16 ∨ NB_SIZE = 32 → 0 ≤ MB_SIZE →
  tile_writes AVX2 MB_SIZE NB_SIZE A B S C lda ldb ldc K BLOCK_K
  = tile_writes_of (avx2_step NB_SIZE A B S lda ldb ldc BLOCK_K) MB_SIZE NB_SIZE C ldc K.
Proof.
  intros HNB HMB. unfold tile_writes.
  assert (HC : 0 < NB_SIZE `quot` 8 ∧ (NB_SIZE `quot` 8) `rem` 2 = 0)
    by (destruct HNB as [-> | ->]; done).
  destruct HC as [HC Hev].
  destruct (accumulate_avx2_value MB_SIZE NB_SIZE A B S lda ldb ldc K BLOCK_K HC Hev HMB)
    as [_ Hv].
  set (r := accumulate_avx2 MB_SIZE NB_SIZE A B S lda ldb ldc K BLOCK_K) in *.
  assert (Hlane : ∀ m n, 0 ≤ m < MB_SIZE → 0 ≤ n < NB_SIZE →
    length (load (vc r) (m * (NB_SIZE `quot` 8) + n `quot` 8)) = 8%nat
    ∧ load (load (vc r) (m * (NB_SIZE `quot` 8) + n `quot` 8)) (n `rem` 8)
      = foldl (avx2_step NB_SIZE A B S lda ldb ldc BLOCK_K m n)
          (float_of_int 0) (irange K)).
  { intros m n Hm Hn.
    assert (Hq : 0 ≤ n `quot` 8 < NB_SIZE `quot` 8 ∧ 0 ≤ n `rem` 8 < 8
                 ∧ n `quot` 8 * 8 + n `rem` 8 = n) by clia.
    destruct Hq as (Hq & Hr & Hn').
    rewrite Hv by nia.
    destruct (vc_avx2_lane NB_SIZE A B S lda ldb ldc BLOCK_K m (n `quot` 8)
                (n `rem` 8) K ltac:(lia) Hq Hr) as [Hl Hx].
    by rewrite Hn' in Hx. }
  rewrite storec_avx2_tile; [|done|done|].
  2:{ intros idx Hidx.
      pose proof (Z.quot_rem' idx (NB_SIZE `quot` 8)) as Hqr.
      assert (0 ≤ idx `rem` (NB_SIZE `quot` 8) < NB_SIZE `quot` 8)
        by (apply Z.rem_bound_pos; lia).
      assert (0 ≤ idx `quot` (NB_SIZE `quot` 8)) by (apply Z.quot_pos; lia).
      destruct (Hlane (idx `quot` (NB_SIZE `quot` 8)) (idx `rem` (NB_SIZE `quot` 8) * 8))
        as [Hl _]; [nia|clia|].
      replace ((idx `rem` (NB_SIZE `quot` 8) * 8) `quot` 8)
        with (idx `rem` (NB_SIZE `quot` 8)) in Hl by clia.
      by replace (idx `quot` (NB_SIZE `quot` 8) * (NB_SIZE `quot` 8)
                  + idx `rem` (NB_SIZE `quot` 8)) with idx in Hl by lia. }
  unfold vec_tile_writes, tile_writes_of.
  apply Forall_bind_ext, Forall_forall. intros m Hm%elem_of_irange.
  apply Forall_bind_ext, Forall_forall. intros n Hn%elem_of_irange.
  by destruct (Hlane m n Hm Hn) as [_ ->].
Qed.

(** ** Bytes and lanes *)

Lemma le_split_0 w : le_split w 0 = replicate w 0.
Proof.
  induction w as [|w IH]; [done|].
  change (le_split (S w) 0) with (0 :: le_split w 0). by rewrite IH.
Qed.

Lemma le_split_byte w b : is_byte b → le_split (S w) b = b :: replicate w 0.
Proof.
  intros Hb. cbn [le_split]. rewrite Z.mod_small, Z.div_small by done.
  by rewrite le_split_0.
Qed.

Lemma length_le_split w x : length (le_split w x) = w.
Proof. revert x. induction w as [|w IH]; intros x; [done|]. cbn [le_split length]. by rewrite IH. Qed.

Lemma le_join_zeros w : le_join (replicate w 0) = 0.
Proof. induction w as [|w IH]; [done|]. cbn [replicate le_join foldr] in *. fold (le_join (replicate w 0)). rewrite IH. done. Qed.

Lemma le_join_cons b bs : le_join (b :: bs) = b + 256 * le_join bs.
Proof. done. Qed.

Lemma le_join_pad w x : le_join (x :: replicate w 0) = x.
Proof. rewrite le_join_cons, le_join_zeros. lia. Qed.

Lemma le_split_le_join bs :
  Forall is_byte bs → le_split (length bs) (le_join bs) = bs.
Proof.
  induction 1 as [|b bs Hb _ IH]; [done|].
  cbn [length le_split]. rewrite le_join_cons.
  replace (b + 256 * le_join bs) with (b + le_join bs * 256) by lia.
  rewrite Z.mod_add, Z.div_add by done.
  rewrite Z.mod_small, Z.div_small by done. by rewrite Z.add_0_l, IH.
Qed.

Lemma le_split_le_join_n n bs :
  Forall is_byte bs → length bs = n → le_split n (le_join bs) = bs.
Proof. intros Hbs <-. by apply le_split_le_join. Qed.

Lemma unlanes_bytes w bs :
  Forall is_byte bs → unlanes (S w) bs = bs ≫= λ b, b :: replicate w 0.
Proof.
  intros Hbs. unfold unlanes. apply Forall_bind_ext.
  eapply Forall_impl; [done|]. intros b Hb. by apply le_split_byte.
Qed.

Lemma lanes_cons w n a rest :
  length a = w → lanes w (S n) (a ++ rest) = le_join a :: lanes w n rest.
Proof.
  intros Ha. unfold lanes. cbn [seq fmap list_fmap]. f_equal.
  - change (0 * w)%nat with 0%nat. rewrite drop_0. by rewrite take_app_length'.
  - rewrite <- fmap_S_seq, <- list_fmap_compose. apply list_fmap_ext.
    intros _ i _. cbn [compose]. do 2 f_equal.
    replace (S i * w)%nat with (w + i * w)%nat by lia. by rewrite drop_app_add'.
Qed.

Lemma lanes_nil w v : lanes w 0 v = [].
Proof. done. Qed.

Lemma lanes_pad {X} w (f : X → Z) (bs : list X) :
  lanes (S w) (length bs) (bs ≫= λ b, f b :: replicate w 0) = f <$> bs.
Proof.
  induction bs as [|b bs IH]; [done|].
  rewrite bind_cons. cbn [length].
  rewrite (lanes_cons (S w) _ (f b :: replicate w 0))
    by (cbn [length]; by rewrite length_replicate).
  by rewrite le_join_pad, IH.
Qed.

Lemma lanes_unlanes_bytes w n bs :
  Forall is_byte bs → length bs = n → lanes (S w) n (unlanes (S w) bs) = bs.
Proof.
  intros Hbs <-. rewrite unlanes_bytes by done.
  rewrite (lanes_pad w id). apply list_fmap_id.
Qed.

Lemma zip_with_pad (f : Z → Z → Z) w xs ys :
  f 0 0 = 0 →
  zip_with f (xs ≫= λ b, b :: replicate w 0) (ys ≫= λ b, b :: replicate w 0)
  = zip_with f xs ys ≫= λ b, b :: replicate w 0.
Proof.
  intros Hf. revert ys. induction xs as [|x xs IH]; intros [|y ys]; try done.
  rewrite !bind_cons. cbn [zip_with]. rewrite bind_cons. cbn [app zip_with]. f_equal.
  rewrite zip_with_app by (by rewrite !length_replicate).
  by rewrite zip_with_replicate, Hf, IH.
Qed.

Lemma zip_with_bind2 {X} (f : Z → Z → Z) (p q p' q' : X → Z) (bs : list X) :
  zip_with f (bs ≫= λ b, [p b; q b]) (bs ≫= λ b, [p' b; q' b])
  = bs ≫= λ b, [f (p b) (p' b); f (q b) (q' b)].
Proof.
  induction bs as [|b bs IH]; [done|]. rewrite !bind_cons. cbn [app zip_with].
  by rewrite IH.
Qed.

Lemma lookup_bind2 {X} (p q : X → Z) (bs : list X) (i : nat) :
  (bs ≫= λ b, [p b; q b]) !! (2 * i)%nat = p <$> bs !! i
  ∧ (bs ≫= λ b, [p b; q b]) !! (2 * i + 1)%nat = q <$> bs !! i.
Proof.
  revert i. induction bs as [|b bs IH]; intros i; [done|].
  rewrite bind_cons. destruct i as [|i]; [done|].
  replace (2 * S i)%nat with (S (S (2 * i))) by lia.
  replace (S (S (2 * i)) + 1)%nat with (S (S (2 * i + 1))) by lia.
  cbn [app lookup list_lookup]. apply IH.
Qed.

Lemma load_bind2 {X} `{!Inhabited X} (p q : X → Z) (bs : list X) l :
  0 ≤ l < 2 * Z.of_nat (length bs) →
  load (bs ≫= λ b, [p b; q b]) l
  = if l `rem` 2 =? 0 then p (load bs (l `quot` 2)) else q (load bs (l `quot` 2)).
Proof.
  intros Hl. pose proof (Z.quot_rem' l 2) as Hqr.
  assert (Hq : 0 ≤ l `quot` 2 < Z.of_nat (length bs)) by clia.
  destruct (lookup_lt_is_Some_2 bs (Z.to_nat (l `quot` 2))) as [x Hx]; [lia|].
  destruct (lookup_bind2 p q bs (Z.to_nat (l `quot` 2))) as [H0 H1].
  rewrite Hx in H0, H1. cbn [fmap option_fmap option_map] in H0, H1.
  replace (load bs (l `quot` 2)) with x
    by (symmetry; rewrite <- (Z2Nat.id (l `quot` 2)) by lia; by apply load_lookup).
  destruct (Z.eqb_spec (l `rem` 2) 0) as [Er | Er].
  - replace l with (Z.of_nat (2 * Z.to_nat (l `quot` 2))) at 1 by lia.
    by apply load_lookup.
  - replace l with (Z.of_nat (2 * Z.to_nat (l `quot` 2) + 1)) at 1 by clia.
    by apply load_lookup.
Qed.

Lemma byte_cases b : is_byte b → b ∈ seqZ 0 256.
Proof. intros Hb. apply elem_of_seqZ. unfold is_byte in Hb. lia. Qed.

(** The 16-bit lane of [conver_int4_to_int8] that comes from the byte [b]. *)
Lemma nibble_lane_table :
  Forall (λ b, le_split 2 (Z.shiftl (Z.land (Z.lxor 15 255) b) 4 `mod` 2 ^ 16)
               = [0; Z.shiftr b 4]
             ∧ Z.lor (Z.land 15 b) 0 = Z.land b 15
             ∧ is_byte (Z.land b 15) ∧ is_byte (Z.shiftr b 4)
             ∧ 0 ≤ Z.land b 15 < 16 ∧ 0 ≤ Z.shiftr b 4 < 16)
    (seqZ 0 256).
Proof.
  apply Forall_forall. intros b Hb.
  assert (Hdec : bool_decide (b ∈ seqZ 0 256) = true) by by apply bool_decide_eq_true.
  revert Hdec. generalize b. clear b Hb.
  assert (Hall : forallb (λ b,
    bool_decide (le_split 2 (Z.shiftl (Z.land (Z.lxor 15 255) b) 4 `mod` 2 ^ 16)
                 = [0; Z.shiftr b 4])
    && (Z.lor (Z.land 15 b) 0 =? Z.land b 15)
    && (0 <=? Z.land b 15) && (Z.land b 15 <? 16)
    && (0 <=? Z.shiftr b 4) && (Z.shiftr b 4 <? 16)) (seqZ 0 256) = true)
    by (vm_compute; reflexivity).
  rewrite forallb_forall in Hall. intros b Hb%bool_decide_eq_true.
  specialize (Hall b ltac:(by apply list_elem_of_In)).
  repeat (apply andb_prop in Hall as [Hall ?]).
  apply bool_decide_eq_true in Hall. unfold is_byte. split_and!; lia || done.
Qed.

Lemma nibble_lane b :
  is_byte b →
  le_split 2 (Z.shiftl (Z.land (Z.lxor 15 255) b) 4 `mod` 2 ^ 16) = [0; Z.shiftr b 4]
  ∧ Z.lor (Z.land 15 b) 0 = Z.land b 15
  ∧ is_byte (Z.land b 15) ∧ is_byte (Z.shiftr b 4)
  ∧ 0 ≤ Z.land b 15 < 16 ∧ 0 ≤ Z.shiftr b 4 < 16.
Proof.
  intros Hb%byte_cases. pose proof nibble_lane_table as Ht.
  rewrite Forall_forall in Ht. by apply Ht.
Qed.

Lemma length_bind_const {X Y} (f : X → list Y) (w : nat) (l : list X) :
  (∀ x, length (f x) = w) → length (l ≫= f) = (length l * w)%nat.
Proof.
  intros Hf. induction l as [|x l IH]; [done|].
  rewrite bind_cons, length_app, Hf, IH. simpl. lia.
Qed.

Lemma load_is_byte (mem : list Z) i : Forall is_byte mem → is_byte (load mem i).
Proof.
  intros Hmem. unfold load. case_bool_decide; [|by vm_compute].
  destruct (mem !! Z.to_nat i) as [x|] eqn:Hx.
  - rewrite list_lookup_total_alt, Hx. simpl. by eapply Forall_lookup_1.
  - rewrite list_lookup_total_alt, Hx. by vm_compute.
Qed.

Lemma vload_is_byte (p : ptr Z) n : Forall is_byte (ptr_mem p) → Forall is_byte (vload p n).
Proof.
  intros Hp. unfold vload. apply Forall_fmap, Forall_forall. intros i _.
  by apply load_is_byte.
Qed.

Lemma conver_int4_to_int8_nibbles (data : ptr Z) :
  Forall is_byte (ptr_mem data) →
  conver_int4_to_int8 data = vload data 8 ≫= λ b, [Z.land b 15; Z.shiftr b 4].
Proof.
  intros Hd. pose proof (vload_is_byte data 8 Hd) as Hbs.
  unfold conver_int4_to_int8, _mm_loadu_si64, _mm_cvtepu8_epi16, _mm_set1_epi8,
    _mm_andnot_si128, _mm_and_si128, _mm_slli_epi16, _mm_or_si128.
  assert (Hlen : length (vload data 8) = 8%nat) by by rewrite length_vload.
  set (bs := vload data 8) in *.
  rewrite take_app_length' by done.
  rewrite (unlanes_bytes 1) by done. change (15 `mod` 256) with 15.
  rewrite !zip_with_replicate_l
    by (rewrite (length_bind_const _ 2) by done; lia).
  rewrite !fmap_bind. cbn [fmap list_fmap].
  change (replicate 1 0) with [0].
  rewrite <- Hlen at 1. rewrite (lanes_pad 1 (λ b, Z.land (Z.lxor 15 255) b)).
  unfold unlanes. rewrite <- list_fmap_compose, list_fmap_bind.
  rewrite (Forall_bind_ext
             (le_split 2 ∘ ((λ x, Z.shiftl x 4 `mod` 2 ^ 16)
                            ∘ λ b, Z.land (Z.lxor 15 255) b))
             (λ b, [0; Z.shiftr b 4]) bs).
  2:{ eapply Forall_impl; [exact Hbs|]. intros b Hb. cbn [compose].
      by destruct (nibble_lane b Hb) as (-> & _). }
  change (λ x : Z, Z.land 15 x :: (Z.land 15 <$> [0])) with (λ x : Z, [Z.land 15 x; 0]).
  rewrite (zip_with_bind2 Z.lor). apply Forall_bind_ext.
  eapply Forall_impl; [exact Hbs|]. intros b Hb. cbn beta.
  destruct (nibble_lane b Hb) as (_ & -> & _). done.
Qed.

Lemma load_take {X} `{!Inhabited X} (xs : list X) (n : nat) l :
  0 ≤ l < Z.of_nat n → load (take n xs) l = load xs l.
Proof.
  intros Hl. unfold load. case_bool_decide; [|done].
  rewrite !list_lookup_total_alt, lookup_take_lt by lia. done.
Qed.

Lemma load_drop {X} `{!Inhabited X} (xs : list X) (d : nat) l :
  0 ≤ l → load (drop d xs) l = load xs (Z.of_nat d + l).
Proof.
  intros Hl. unfold load. rewrite !bool_decide_eq_true_2 by lia.
  rewrite !list_lookup_total_alt, lookup_drop. do 2 f_equal. lia.
Qed.

Lemma Forall_is_byte_take n bs : Forall is_byte bs → Forall is_byte (take n bs).
Proof. apply Forall_take. Qed.

Lemma Forall_is_byte_drop n bs : Forall is_byte bs → Forall is_byte (drop n bs).
Proof. apply Forall_drop. Qed.

Lemma nibble_lo_hi b :
  is_byte b → is_byte (Z.land b 15) ∧ is_byte (Z.shiftr b 4)
  ∧ 0 ≤ Z.land b 15 < 16 ∧ 0 ≤ Z.shiftr b 4 < 16.
Proof. intros Hb. by destruct (nibble_lane b Hb) as (_ & _ & ? & ? & ? & ?). Qed.

Lemma land_15_nibble x : 0 ≤ x < 16 → Z.land x 15 = x.
Proof.
  intros Hx. change 15 with (Z.ones 4). rewrite Z.land_ones by lia.
  apply Z.mod_small. lia.
Qed.

Lemma Forall_shiftr_byte bs :
  Forall is_byte bs → Forall is_byte ((λ x, Z.shiftr x 4) <$> bs).
Proof.
  intros Hbs. apply Forall_fmap. eapply Forall_impl; [done|].
  intros b Hb. by destruct (nibble_lo_hi b Hb) as (_ & ? & _).
Qed.

(** ** The nibbles of the AVX512 kernel *)

Lemma b32_avx512_lane NB_SIZE B ldb col k l :
  Forall is_byte (ptr_mem B) →
  0 ≤ col < NB_SIZE `quot` 16 → 0 ≤ l < 16 →
  Z.land (load (lanes 4 16 (b32_avx512 NB_SIZE B ldb col k)) l) 15
  = tile_nibble 16 NB_SIZE B ldb k (col * 16 + l)
  ∧ 0 ≤ tile_nibble 16 NB_SIZE B ldb k (col * 16 + l) < 16.
Proof.
  intros HB Hcol Hl. unfold b32_avx512, tile_nibble.
  destruct (Z.eqb_spec (NB_SIZE `quot` 16) 4) as [E4 | E4].
  - cbn zeta. unfold _mm256_load_si256, _mm512_cvtepu8_epi32, _mm256_castsi256_si128,
      _mm256_extracti128_si256, _mm512_srli_epi32.
    change (Z.to_nat (16 * Z.land 1 1)) with 16%nat.
    pose proof (vload_is_byte (ptr_add B (k * ldb)) 32 HB) as Hbs.
    assert (Hlen : length (vload (ptr_add B (k * ldb)) 32) = 32%nat) by by rewrite length_vload.
    set (bs := vload (ptr_add B (k * ldb)) 32) in *.
    rewrite take_take. change (16 `min` 16)%nat with 16%nat.
    assert (Hlo : lanes 4 16 (unlanes 4 (take 16 bs)) = take 16 bs).
    { apply (lanes_unlanes_bytes 3 16); [by apply Forall_take|rewrite length_take; lia]. }
    assert (Hhi : lanes 4 16 (unlanes 4 (take 16 (take 16 (drop 16 bs))))
                  = take 16 (drop 16 bs)).
    { rewrite take_take. change (16 `min` 16)%nat with 16%nat.
      apply (lanes_unlanes_bytes 3 16); [by apply Forall_take, Forall_drop|].
      rewrite length_take, length_drop; lia. }
    assert (Hsr : ∀ xs, Forall is_byte xs → length xs = 16%nat →
              lanes 4 16 (unlanes 4 ((λ x, Z.shiftr x 4) <$> xs)) = (λ x, Z.shiftr x 4) <$> xs).
    { intros xs Hxs Hl16. apply (lanes_unlanes_bytes 3 16);
        [by apply Forall_shiftr_byte|by rewrite length_fmap]. }
    assert (Hget : ∀ j, 0 ≤ j < 32 → load bs j = ptr_get B (k * ldb + j)).
    { intros j Hj. subst bs. by rewrite load_vload, ptr_get_add by lia. }
    assert (Hbyte : ∀ j, is_byte (ptr_get B (k * ldb + j))).
    { intros j. unfold ptr_get. by apply load_is_byte. }
    assert (col = 0 ∨ col = 1 ∨ col = 2 ∨ col = 3) as [-> | [-> | [-> | ->]]] by lia;
      cbn [Z.eqb Pos.eqb]; rewrite ?Hlo, ?Hhi;
      rewrite ?Hsr by (rewrite ?length_take, ?length_drop; try lia;
                       by repeat (apply Forall_take || apply Forall_drop));
      rewrite ?load_fmap by (rewrite ?length_take, ?length_drop; lia);
      rewrite load_take by lia; rewrite ?load_drop by lia; rewrite Hget by lia.
    + replace ((0 * 16 + l) `rem` (2 * 16)) with l by clia.
      destruct (Z.ltb_spec (0 * 16 + l) (2 * 16)); [|lia].
      split; [done|]. by destruct (nibble_lo_hi _ (Hbyte l)) as (_ & _ & ? & _).
    + replace ((1 * 16 + l) `rem` (2 * 16)) with (Z.of_nat 16 + l) by clia.
      destruct (Z.ltb_spec (1 * 16 + l) (2 * 16)); [|lia].
      split; [done|]. by destruct (nibble_lo_hi _ (Hbyte (Z.of_nat 16 + l))) as (_ & _ & ? & _).
    + replace ((2 * 16 + l) `rem` (2 * 16)) with l by clia.
      destruct (Z.ltb_spec (2 * 16 + l) (2 * 16)); [lia|].
      destruct (nibble_lo_hi _ (Hbyte l)) as (_ & _ & _ & ?).
      split; [by apply land_15_nibble|done].
    + replace ((3 * 16 + l) `rem` (2 * 16)) with (Z.of_nat 16 + l) by clia.
      destruct (Z.ltb_spec (3 * 16 + l) (2 * 16)); [lia|].
      destruct (nibble_lo_hi _ (Hbyte (Z.of_nat 16 + l))) as (_ & _ & _ & ?).
      split; [by apply land_15_nibble|done].
  - unfold _mm512_cvtepu8_epi32.
    rewrite conver_int4_to_int8_nibbles by done.
    set (p := ptr_add B (k * ldb + col * 8)).
    pose proof (vload_is_byte p 8 HB) as Hbs.
    assert (Hlen : length (vload p 8) = 8%nat) by by rewrite length_vload.
    assert (Hlen2 : length (vload p 8 ≫= λ b, [Z.land b 15; Z.shiftr b 4]) = 16%nat).
    { by rewrite (length_bind_const _ 2), Hlen. }
    rewrite take_ge by lia.
    rewrite (lanes_unlanes_bytes 3 16); [|apply Forall_bind, Forall_forall|done].
    2:{ intros b Hb. rewrite Forall_forall in Hbs.
        destruct (nibble_lo_hi b (Hbs b Hb)) as (? & ? & _).
        apply Forall_cons; split; [done|]. apply Forall_cons; split; [done|].
        apply Forall_nil_2. }
    rewrite load_bind2 by lia.
    assert (Hq : 0 ≤ l `quot` 2 < 8) by clia.
    subst p. rewrite load_vload, ptr_get_add by lia.
    replace ((col * 16 + l) `quot` 2) with (col * 8 + l `quot` 2) by clia.
    replace ((col * 16 + l) `rem` 2) with (l `rem` 2) by clia.
    replace (k * ldb + col * 8 + l `quot` 2) with (k * ldb + (col * 8 + l `quot` 2)) by lia.
    assert (Hbyte : is_byte (ptr_get B (k * ldb + (col * 8 + l `quot` 2)))).
    { unfold ptr_get. by apply load_is_byte. }
    destruct (nibble_lo_hi _ Hbyte) as (_ & _ & ? & ?).
    destruct (l `rem` 2 =? 0); (split; [by apply land_15_nibble|done]).
Qed.

(** ** The nibbles of the AVX2 kernel *)

Lemma and_mask_lanes xs :
  Forall is_byte xs → length xs = 8%nat →
  lanes 4 8 (_mm256_and_si256 (unlanes 4 xs) (_mm256_set1_epi32 15))
  = (λ b, Z.land b 15) <$> xs.
Proof.
  intros Hxs Hlen. unfold _mm256_and_si256, _mm256_set1_epi32.
  rewrite !(unlanes_bytes 3); [|by apply Forall_replicate; vm_compute|done].
  rewrite zip_with_pad by done.
  rewrite zip_with_replicate_r by lia.
  replace 8%nat with (length (flip Z.land 15 <$> xs)) at 1 by (by rewrite length_fmap).
  rewrite (lanes_pad 3 id). by rewrite list_fmap_id.
Qed.

Lemma shuffle_hi bs :
  Forall is_byte bs → length bs = 16%nat →
  take 8 (_mm_shuffle_epi32 bs (_MM_SHUFFLE 3 2 3 2)) = take 8 (drop 8 bs).
Proof.
  intros Hbs Hlen.
  assert (H2 : le_split 4 (le_join (take 4 (drop 8 bs))) = take 4 (drop 8 bs)).
  { apply (le_split_le_join_n 4); [by apply Forall_take, Forall_drop|].
    rewrite length_take, length_drop. lia. }
  assert (H3 : le_split 4 (le_join (take 4 (drop 12 bs))) = take 4 (drop 12 bs)).
  { apply (le_split_le_join_n 4); [by apply Forall_take, Forall_drop|].
    rewrite length_take, length_drop. lia. }
  unfold _mm_shuffle_epi32. change (_MM_SHUFFLE 3 2 3 2) with 238.
  change (irange 4) with [0; 1; 2; 3]. cbn [fmap list_fmap].
  change (Z.land (Z.shiftr 238 (2 * 0)) 3) with 2.
  change (Z.land (Z.shiftr 238 (2 * 1)) 3) with 3.
  change (Z.land (Z.shiftr 238 (2 * 2)) 3) with 2.
  change (Z.land (Z.shiftr 238 (2 * 3)) 3) with 3.
  assert (HL2 : load (lanes 4 4 bs) 2 = le_join (take 4 (drop 8 bs))) by done.
  assert (HL3 : load (lanes 4 4 bs) 3 = le_join (take 4 (drop 12 bs))) by done.
  rewrite HL2, HL3. unfold unlanes. rewrite !bind_cons, H2, H3.
  rewrite app_assoc, take_app_length'
    by (rewrite length_app, !length_take, !length_drop; lia).
  do 16 (destruct bs as [|? bs]; [discriminate Hlen|]). done.
Qed.

Lemma int32_of_lane_small x : 0 ≤ x < 2 ^ 31 → int32_of_lane x = x.
Proof. intros Hx. unfold int32_of_lane. destruct (Z.ltb_spec x (2 ^ 31)); lia. Qed.

Lemma set1_epi64x_lo (nb : list Z) (d : nat) :
  Forall is_byte nb → (d + 8 ≤ length nb)%nat →
  take 8 (_mm_set1_epi64x (le_join (take 8 (drop d nb)))) = take 8 (drop d nb).
Proof.
  intros Hnb Hlen. unfold _mm_set1_epi64x, unlanes. rewrite bind_cons.
  rewrite take_app_length' by (by rewrite length_le_split).
  apply (le_split_le_join_n 8); [by apply Forall_take, Forall_drop|].
  rewrite length_take, length_drop. lia.
Qed.

Lemma b32_avx2_lane NB_SIZE B ldb col k l :
  Forall is_byte (ptr_mem B) →
  0 ≤ col < NB_SIZE `quot` 8 → 0 ≤ l < 8 →
  int32_of_lane (load (lanes 4 8 (b32_avx2 NB_SIZE B ldb col k)) l)
  = tile_nibble 8 NB_SIZE B ldb k (col * 8 + l)
  ∧ 0 ≤ tile_nibble 8 NB_SIZE B ldb k (col * 8 + l) < 16.
Proof.
  intros HB Hcol Hl. unfold b32_avx2, tile_nibble.
  assert (Hbyte : ∀ j, is_byte (ptr_get B j)).
  { intros j. unfold ptr_get. by apply load_is_byte. }
  destruct (Z.eqb_spec (NB_SIZE `quot` 8) 4) as [E4 | E4].
  - cbn zeta. unfold _mm_load_si128, _mm256_cvtepu8_epi32, _mm256_srli_epi32.
    pose proof (vload_is_byte (ptr_add B (k * ldb)) 16 HB) as Hbs.
    assert (Hlen : length (vload (ptr_add B (k * ldb)) 16) = 16%nat) by by rewrite length_vload.
    set (bs := vload (ptr_add B (k * ldb)) 16) in *.
    rewrite (shuffle_hi bs) by done.
    assert (Hl8 : ∀ xs, Forall is_byte xs → length xs = 8%nat →
              lanes 4 8 (unlanes 4 xs) = xs).
    { intros xs Hxs Hl8. by apply (lanes_unlanes_bytes 3 8). }
    assert (Hsr : ∀ xs, Forall is_byte xs → length xs = 8%nat →
              lanes 4 8 (unlanes 4 ((λ x, Z.shiftr x 4) <$> lanes 4 8 (unlanes 4 xs)))
              = (λ x, Z.shiftr x 4) <$> xs).
    { intros xs Hxs Hl8'. rewrite (Hl8 xs) by done.
      apply (lanes_unlanes_bytes 3 8); [by apply Forall_shiftr_byte|by rewrite length_fmap]. }
    assert (Hget : ∀ j, 0 ≤ j < 16 → load bs j = ptr_get B (k * ldb + j)).
    { intros j Hj. subst bs. by rewrite load_vload, ptr_get_add by lia. }
    assert (Hlo : Forall is_byte (take 8 bs) ∧ length (take 8 bs) = 8%nat).
    { split; [by apply Forall_take|rewrite length_take; lia]. }
    assert (Hhi : Forall is_byte (take 8 (drop 8 bs)) ∧ length (take 8 (drop 8 bs)) = 8%nat).
    { split; [by apply Forall_take, Forall_drop|rewrite length_take, length_drop; lia]. }
    destruct Hlo as [Hlo1 Hlo2], Hhi as [Hhi1 Hhi2].
    assert (col = 0 ∨ col = 1 ∨ col = 2 ∨ col = 3) as [-> | [-> | [-> | ->]]] by lia;
      cbn [Z.eqb Pos.eqb];
      rewrite ?and_mask_lanes, ?Hsr by done;
      rewrite load_fmap by lia;
      rewrite load_take by lia; rewrite ?load_drop by lia; rewrite Hget by lia.
    + replace ((0 * 8 + l) `rem` (2 * 8)) with l by clia.
      destruct (Z.ltb_spec (0 * 8 + l) (2 * 8)); [|lia].
      destruct (nibble_lo_hi _ (Hbyte (k * ldb + l))) as (_ & _ & ? & _).
      split; [apply int32_of_lane_small; lia|done].
    + replace ((1 * 8 + l) `rem` (2 * 8)) with (Z.of_nat 8 + l) by clia.
      destruct (Z.ltb_spec (1 * 8 + l) (2 * 8)); [|lia].
      destruct (nibble_lo_hi _ (Hbyte (k * ldb + (Z.of_nat 8 + l)))) as (_ & _ & ? & _).
      split; [apply int32_of_lane_small; lia|done].
    + replace ((2 * 8 + l) `rem` (2 * 8)) with l by clia.
      destruct (Z.ltb_spec (2 * 8 + l) (2 * 8)); [lia|].
      destruct (nibble_lo_hi _ (Hbyte (k * ldb + l))) as (_ & _ & _ & ?).
      split; [apply int32_of_lane_small; lia|done].
    + replace ((3 * 8 + l) `rem` (2 * 8)) with (Z.of_nat 8 + l) by clia.
      destruct (Z.ltb_spec (3 * 8 + l) (2 * 8)); [lia|].
      destruct (nibble_lo_hi _ (Hbyte (k * ldb + (Z.of_nat 8 + l)))) as (_ & _ & _ & ?).
      split; [apply int32_of_lane_small; lia|done].
  - cbn zeta. rewrite conver_int4_to_int8_nibbles by done.
    set (p := ptr_add B (k * ldb + (col - col `rem` 2) * 4)).
    pose proof (vload_is_byte p 8 HB) as Hbs.
    assert (Hlen : length (vload p 8) = 8%nat) by by rewrite length_vload.
    set (nb := vload p 8 ≫= λ b, [Z.land b 15; Z.shiftr b 4]).
    assert (Hlen2 : length nb = 16%nat).
    { subst nb. by rewrite (length_bind_const _ 2), Hlen. }
    assert (Hnb : Forall is_byte nb).
    { subst nb. apply Forall_bind, Forall_forall. intros b Hb. rewrite Forall_forall in Hbs.
      destruct (nibble_lo_hi b (Hbs b Hb)) as (? & ? & _).
      apply Forall_cons; split; [done|]. apply Forall_cons; split; [done|].
      apply Forall_nil_2. }
    unfold _mm_extract_epi64, _mm256_cvtepu8_epi32.
    change (Z.land 0 1) with 0. change (Z.land 1 1) with 1.
    assert (HL0 : load (lanes 8 2 nb) 0 = le_join (take 8 (drop 0 nb))) by done.
    assert (HL1 : load (lanes 8 2 nb) 1 = le_join (take 8 (drop 8 nb))) by done.
    rewrite HL0, HL1, !set1_epi64x_lo by (done || lia).
    assert (Hq : 0 ≤ l `quot` 2 < 4 ∧ (Z.of_nat 8 + l) `quot` 2 = 4 + l `quot` 2
                 ∧ (Z.of_nat 8 + l) `rem` 2 = l `rem` 2) by clia.
    destruct Hq as (Hq & Hq8 & Hr8).
    replace ((col * 8 + l) `quot` 2) with (col * 4 + l `quot` 2) by clia.
    replace ((col * 8 + l) `rem` 2) with (l `rem` 2) by clia.
    assert (Hnib : ∀ j, 0 ≤ tile_nibble 8 NB_SIZE B ldb k j < 16 → True) by done.
    destruct (nibble_lo_hi _ (Hbyte (k * ldb + (col * 4 + l `quot` 2)))) as (_ & _ & ? & ?).
    destruct (Z.eqb_spec (col `rem` 2) 0) as [Ec | Ec].
    + rewrite (lanes_unlanes_bytes 3 8);
        [|by apply Forall_take, Forall_drop|rewrite length_take, length_drop; lia].
      rewrite load_take, load_drop by lia. change (Z.of_nat 0 + l) with l.
      subst nb. rewrite load_bind2 by lia.
      subst p. rewrite load_vload, ptr_get_add by lia.
      replace (k * ldb + (col - col `rem` 2) * 4 + l `quot` 2)
        with (k * ldb + (col * 4 + l `quot` 2)) by lia.
      destruct (l `rem` 2 =? 0); (split; [apply int32_of_lane_small; lia|done]).
    + assert (Ec1 : col `rem` 2 = 1) by clia.
      rewrite (lanes_unlanes_bytes 3 8);
        [|by apply Forall_take, Forall_drop|rewrite length_take, length_drop; lia].
      rewrite load_take, load_drop by lia.
      subst nb. rewrite load_bind2 by lia. rewrite Hq8, Hr8.
      subst p. rewrite load_vload, ptr_get_add by lia.
      replace (k * ldb + (col - col `rem` 2) * 4 + (4 + l `quot` 2))
        with (k * ldb + (col * 4 + l `quot` 2)) by lia.
      destruct (l `rem` 2 =? 0); (split; [apply int32_of_lane_small; lia|done]).
Qed.

(** ** The step of an element, by nibble *)

Lemma lut512_spec (u : Z) : 0 ≤ u < 16 → load lut512 u = float_of_int (u - 8).
Proof.
  intros Hu. apply nibble_cases in Hu.
  repeat (apply elem_of_cons in Hu as [-> | Hu]; [reflexivity|]).
  by apply elem_of_nil in Hu.
Qed.

Lemma avx512_step_nibble NB_SIZE A B S lda ldb ldc BLOCK_K m n c k :
  Forall is_byte (ptr_mem B) → 0 ≤ n → n `quot` 16 < NB_SIZE `quot` 16 →
  avx512_step NB_SIZE A B S lda ldb ldc BLOCK_K m n c k
  = kernel_step AVX512 NB_SIZE A B S lda ldb ldc BLOCK_K m n c k.
Proof.
  intros HB Hn Hcol. unfold avx512_step, kernel_step. cbn zeta.
  assert (Hq : 0 ≤ n `quot` 16 ∧ 0 ≤ n `rem` 16 < 16 ∧ n `quot` 16 * 16 + n `rem` 16 = n)
    by clia.
  destruct Hq as (Hq & Hr & Hn').
  destruct (b32_avx512_lane NB_SIZE B ldb (n `quot` 16) k (n `rem` 16) HB ltac:(lia) Hr)
    as [-> Hrange].
  rewrite Hn' in *. by rewrite lut512_spec.
Qed.

Lemma avx2_step_nibble NB_SIZE A B S lda ldb ldc BLOCK_K m n c k :
  Forall is_byte (ptr_mem B) → 0 ≤ n → n `quot` 8 < NB_SIZE `quot` 8 →
  avx2_step NB_SIZE A B S lda ldb ldc BLOCK_K m n c k
  = kernel_step AVX2 NB_SIZE A B S lda ldb ldc BLOCK_K m n c k.
Proof.
  intros HB Hn Hcol. unfold avx2_step, kernel_step. cbn zeta.
  assert (Hq : 0 ≤ n `quot` 8 ∧ 0 ≤ n `rem` 8 < 8 ∧ n `quot` 8 * 8 + n `rem` 8 = n)
    by clia.
  destruct Hq as (Hq & Hr & Hn').
  destruct (b32_avx2_lane NB_SIZE B ldb (n `quot` 8) k (n `rem` 8) HB ltac:(lia) Hr)
    as [-> Hrange].
  by rewrite Hn' in *.
Qed.

Lemma tile_writes_of_ext (step1 step2 : Z → Z → float → Z → float) MB_SIZE NB_SIZE C ldc K :
  (∀ m n c k, 0 ≤ m < MB_SIZE → 0 ≤ n < NB_SIZE → 0 ≤ k < K →
     step1 m n c k = step2 m n c k) →
  tile_writes_of step1 MB_SIZE NB_SIZE C ldc K = tile_writes_of step2 MB_SIZE NB_SIZE C ldc K.
Proof.
  intros Hs. unfold tile_writes_of.
  apply Forall_bind_ext, Forall_forall. intros m Hm%elem_of_irange.
  apply Forall_bind_ext, Forall_forall. intros n Hn%elem_of_irange.
  do 3 f_equal. apply foldl_ext_in. intros c k Hk%elem_of_irange. by apply Hs.
Qed.

Lemma tile_writes_kernel_step cap MB_SIZE NB_SIZE A B S C lda ldb ldc K BLOCK_K :
  tile_width_ok cap NB_SIZE → 0 ≤ MB_SIZE → Forall is_byte (ptr_mem B) →
  tile_writes cap MB_SIZE NB_SIZE A B S C lda ldb ldc K BLOCK_K
  = tile_writes_of (kernel_step cap NB_SIZE A B S lda ldb ldc BLOCK_K) MB_SIZE NB_SIZE C ldc K.
Proof.
  intros HNB HMB HB. destruct cap.
  - rewrite tile_writes_avx512 by done. apply tile_writes_of_ext.
    intros m n c k Hm Hn Hk. apply avx512_step_nibble; [done|lia|].
    cbn in HNB. clia.
  - rewrite tile_writes_avx2 by done. apply tile_writes_of_ext.
    intros m n c k Hm Hn Hk. apply avx2_step_nibble; [done|lia|].
    cbn in HNB. clia.
  - reflexivity.
Qed.

(** ** The scheduler, element by element *)

Lemma tile_writes_lanes cap MB_SIZE NB_SIZE A B S C lda ldb ldc K BLOCK_K :
  tile_width_ok cap NB_SIZE → 0 ≤ MB_SIZE →
  tile_writes cap MB_SIZE NB_SIZE A B S C lda ldb ldc K BLOCK_K
  = tile_writes_of (kernel_step_lanes cap NB_SIZE A B S lda ldb ldc BLOCK_K)
      MB_SIZE NB_SIZE C ldc K.
Proof.
  intros HNB HMB. destruct cap.
  - by apply tile_writes_avx512.
  - by apply tile_writes_avx2.
  - reflexivity.
Qed.

Lemma elem_of_tile_writes_of step MB_SIZE NB_SIZE C ldc K w :
  w ∈ tile_writes_of step MB_SIZE NB_SIZE C ldc K ↔
    ∃ m n, 0 ≤ m < MB_SIZE ∧ 0 ≤ n < NB_SIZE
      ∧ w = (C + (m * ldc + n),
             float_to_bf16 (foldl (step m n) (float_of_int 0) (irange K))).
Proof.
  unfold tile_writes_of. rewrite list_elem_of_bind.
  setoid_rewrite list_elem_of_bind. setoid_rewrite list_elem_of_singleton.
  setoid_rewrite elem_of_irange. split.
  - intros (m & (n & -> & Hn) & Hm). by exists m, n.
  - intros (m & n & Hm & Hn & ->). exists m. split; [|done]. by exists n.
Qed.

Lemma fst_tile_writes_of step MB_SIZE NB_SIZE C ldc K :
  (tile_writes_of step MB_SIZE NB_SIZE C ldc K).*1
  = irange MB_SIZE ≫= λ m, irange NB_SIZE ≫= λ n, [C + (m * ldc + n)].
Proof.
  unfold tile_writes_of. rewrite fmap_bind. apply list_bind_ext; [|done]. intros m.
  rewrite fmap_bind. by apply list_bind_ext.
Qed.

Lemma tile_width_supported cap M N i :
  0 ≤ N → N `rem` 16 = 0 → 0 ≤ i < MB M * NB cap N → 0 < NB cap N →
  tile_width_ok cap (tile_nb_size cap N i).
Proof.
  intros HN H16 Hi HNB.
  pose proof (tile_nb_supported cap M N i HN H16 Hi HNB) as Hs.
  apply supported_nb_cases in Hs.
  pose proof (tile_nb_size_range cap M N i HN Hi HNB) as [Hr _].
  destruct cap; cbn; [lia| |done].
  change (BLOCK_N AVX2) with 32 in Hr. lia.
Qed.

Section Sched.
Context (cap : cpu_capability).
Context (A_data : list BFloat16) (B_data : list Z) (S_data : list BFloat16).
Context (M N K BLOCK_K : Z).

Lemma mm_tile_writes_lanes i :
  0 ≤ M → 0 ≤ N → N `rem` 16 = 0 → 0 ≤ i < MB M * NB cap N →
  mm_tile_writes cap A_data B_data S_data M N K BLOCK_K i
  = tile_writes_of
      (kernel_step_lanes cap (tile_nb_size cap N i)
         (ptr_add (Ptr A_data 0) (i `quot` NB cap N * BLOCK_M * K))
         (ptr_add (Ptr B_data 0) ((i `rem` NB cap N * BLOCK_N cap * K) `quot` 2))
         (ptr_add (Ptr S_data 0) (i `rem` NB cap N * BLOCK_N cap * 2))
         K (tile_nb_size cap N i `quot` 2) N BLOCK_K)
      (tile_mb_size cap M N i) (tile_nb_size cap N i)
      (0 + (i `quot` NB cap N * BLOCK_M * N + i `rem` NB cap N * BLOCK_N cap)) N K.
Proof.
  intros HM HN H16 Hi.
  assert (HNB : 0 < NB cap N) by (apply (NB_pos_of_tiles cap M N); lia).
  unfold mm_tile_writes. apply tile_writes_lanes.
  - by apply (tile_width_supported cap M).
  - pose proof (tile_mb_size_range cap M N i HM Hi HNB). lia.
Qed.

Lemma mm_tile_writes_addrs i :
  0 ≤ M → 0 ≤ N → N `rem` 16 = 0 → 0 ≤ i < MB M * NB cap N →
  (mm_tile_writes cap A_data B_data S_data M N K BLOCK_K i).*1 = tile_addrs cap M N i.
Proof.
  intros HM HN H16 Hi. rewrite mm_tile_writes_lanes by done.
  rewrite fst_tile_writes_of. reflexivity.
Qed.

Lemma tile_of_element i m n :
  0 ≤ N → 0 ≤ i < MB M * NB cap N → 0 < NB cap N →
  0 ≤ m < tile_mb_size cap M N i → 0 ≤ n < tile_nb_size cap N i →
  let row := i `quot` NB cap N * BLOCK_M + m in
  let col := i `rem` NB cap N * BLOCK_N cap + n in
  tile_mb_start row = i `quot` NB cap N * BLOCK_M
  ∧ tile_nb_start cap col = i `rem` NB cap N * BLOCK_N cap
  ∧ Z.min (BLOCK_N cap) (N - tile_nb_start cap col) = tile_nb_size cap N i.
Proof.
  intros HN Hi HNB Hm Hn row col.
  destruct (tile_coords cap M N i Hi HNB) as [Hmb Hnb].
  pose proof (tile_nb_size_range cap M N i HN Hi HNB) as [Hns _].
  assert (Hms : tile_mb_size cap M N i ≤ 4) by (unfold tile_mb_size, BLOCK_M; lia).
  assert (E1 : tile_mb_start row = i `quot` NB cap N * BLOCK_M).
  { unfold tile_mb_start, row, BLOCK_M.
    destruct (quot_rem_mul_add (i `quot` NB cap N) 4 m) as [-> _]; lia. }
  assert (E2 : tile_nb_start cap col = i `rem` NB cap N * BLOCK_N cap).
  { unfold tile_nb_start, col.
    destruct (quot_rem_mul_add (i `rem` NB cap N) (BLOCK_N cap) n) as [-> _]; lia. }
  split_and!; [done|done|]. by rewrite E2.
Qed.

(** What a run leaves in the output, element by element. *)
Lemma int4pack_mm_kernel_value num_threads C0 log row col :
  0 < num_threads → 0 ≤ M → 0 ≤ N → N `rem` 16 = 0 →
  Z.of_nat (length C0) = M * N →
  0 ≤ row < M → 0 ≤ col < N →
  load (C_data (int4pack_mm_kernel cap A_data B_data S_data M N K BLOCK_K
                  num_threads (OutBuf C0 log)).2) (row * N + col)
  = mm_elem cap kernel_step_lanes A_data B_data S_data N K BLOCK_K row col.
Proof.
  intros Hnt HM HN H16 Hlen Hrow Hcol.
  rewrite (int4pack_mm_kernel_ok cap A_data B_data S_data M N K BLOCK_K) by done.
  cbn [snd]. rewrite C_data_apply_writes_C. cbn [C_data].
  pose proof (NB_pos cap N ltac:(lia)) as HNB.
  destruct (tile_addr_cover cap M N row col Hrow Hcol)
    as (i & m & n & Hi & Hm & Hn & Hr & Hc & Ha).
  assert (Hval : ∀ i' m' n', 0 ≤ i' < MB M * NB cap N →
    0 ≤ m' < tile_mb_size cap M N i' → 0 ≤ n' < tile_nb_size cap N i' →
    tile_addr cap N i' m' n' = row * N + col →
    float_to_bf16
      (foldl (kernel_step_lanes cap (tile_nb_size cap N i')
                (ptr_add (Ptr A_data 0) (i' `quot` NB cap N * BLOCK_M * K))
                (ptr_add (Ptr B_data 0) ((i' `rem` NB cap N * BLOCK_N cap * K) `quot` 2))
                (ptr_add (Ptr S_data 0) (i' `rem` NB cap N * BLOCK_N cap * 2))
                K (tile_nb_size cap N i' `quot` 2) N BLOCK_K m' n')
         (float_of_int 0) (irange K))
    = mm_elem cap kernel_step_lanes A_data B_data S_data N K BLOCK_K row col).
  { intros i' m' n' Hi' Hm' Hn' Ha'.
    destruct (tile_addr_inj cap M N i' m' n' i m n) as (-> & -> & ->);
      [done..|congruence|].
    destruct (tile_of_element i m n HN Hi HNB Hm Hn) as (E1 & E2 & E3).
    cbn zeta in E1, E2, E3. rewrite Hr in E1. rewrite Hc in E2, E3.
    unfold mm_elem. cbn zeta. rewrite E3, E1, E2.
    replace (row - i `quot` NB cap N * BLOCK_M) with m by lia.
    replace (col - i `rem` NB cap N * BLOCK_N cap) with n by lia.
    reflexivity. }
  apply apply_writes_hit.
  - nia.
  - eexists. split.
    + apply list_elem_of_bind. exists i. split; [|apply elem_of_irange2; lia].
      rewrite mm_tile_writes_lanes by done.
      apply elem_of_tile_writes_of. by exists m, n.
    + done.
  - intros w (i' & Hw & Hi'%elem_of_irange2)%list_elem_of_bind Hw1.
    rewrite mm_tile_writes_lanes in Hw by (done || lia).
    apply elem_of_tile_writes_of in Hw as (m' & n' & Hm' & Hn' & ->).
    cbn [fst snd] in *. apply Hval; done || lia.
Qed.

End Sched.

(** ** The packed layout as the vector kernels read it *)

(** The nibble a vector kernel reads for column [n] of tile [i] at step
    [k] from the weights packed by the same build is the weight of that
    column. *)
Lemma pack_tile_nibble cap out W N K i k n :
  cap ≠ DEFAULT → N `rem` 16 = 0 →
  0 ≤ i → i * BLOCK_N cap < N → 0 ≤ k < K →
  let nb_size := Z.min (BLOCK_N cap) (N - i * BLOCK_N cap) in
  0 ≤ n < nb_size →
  (N * K) `quot` 2 ≤ Z.of_nat (length out) →
  (∀ j, 0 ≤ j < N * K → 0 ≤ load W j < 16) →
  tile_nibble (vec_size cap) nb_size
    (ptr_add (Ptr (weight_to_int4pack_kernel cap out W N K) 0)
       ((i * BLOCK_N cap * K) `quot` 2))
    (nb_size `quot` 2) k n
  = load W ((i * BLOCK_N cap + n) * K + k).
Proof.
  intros Hcap H16 Hi HiN Hk nb_size Hn Hout HW.
  assert (Hvs : BLOCK_N cap = vec_size cap * 4 ∧ (vec_size cap = 16 ∨ vec_size cap = 8)).
  { destruct cap; [split; [done|by left]|split; [done|by right]|done]. }
  destruct Hvs as [HBN Hw].
  assert (Hns : nb_size `rem` 16 = 0 ∧ 0 < nb_size ≤ BLOCK_N cap
                ∧ i * BLOCK_N cap + nb_size ≤ N).
  { subst nb_size. destruct Hw as [Hw | Hw]; rewrite HBN, Hw; clia. }
  destruct Hns as (Hns16 & Hnsr & HnsN).
  assert (Hstr : is_strided cap nb_size = (nb_size =? BLOCK_N cap)) by (by destruct cap).
  assert (Hdef : nb_size = Z.min (BLOCK_N cap) (N - i * BLOCK_N cap)) by done.
  clearbody nb_size.
  unfold tile_nibble, ptr_get, ptr_add. cbn [ptr_mem ptr_off].
  destruct (Z.eqb_spec (nb_size `quot` vec_size cap) 4) as [E4 | E4].
  - assert (Efull : nb_size = BLOCK_N cap).
    { clear - Hw HBN E4 Hnsr Hns16. destruct Hw as [Hw | Hw]; rewrite HBN, Hw in *; clia. }
    pose proof (pack_strided_layout cap out W N K i k (n `rem` (2 * vec_size cap))) as Hlay.
    cbn zeta in Hlay. rewrite <- Hdef in Hlay.
    assert (Hhalf : BLOCK_N cap `quot` 2 = 2 * vec_size cap).
    { destruct Hw as [Hw | Hw]; rewrite HBN, Hw; reflexivity. }
    rewrite Hhalf in Hlay.
    assert (Hd : 0 ≤ n `rem` (2 * vec_size cap) < 2 * vec_size cap).
    { apply Z.rem_bound_pos; lia. }
    assert (Hs1 : is_strided cap nb_size = true).
    { rewrite Hstr. by apply Z.eqb_eq. }
    specialize (Hlay Hs1 Hi Hk Hd Hout).
    rewrite Efull, Hhalf.
    replace (0 + (i * BLOCK_N cap * K) `quot` 2 + (k * (2 * vec_size cap)
             + n `rem` (2 * vec_size cap)))
      with ((i * K * BLOCK_N cap) `quot` 2 + (k * (2 * vec_size cap)
             + n `rem` (2 * vec_size cap)))
      by (replace (i * BLOCK_N cap * K) with (i * K * BLOCK_N cap) by lia; lia).
    rewrite Hlay.
    assert (Hn2 : n < 2 * vec_size cap ∧ n `rem` (2 * vec_size cap) = n
                  ∨ 2 * vec_size cap ≤ n ∧ n `rem` (2 * vec_size cap) + 2 * vec_size cap = n).
    { clear - Hw HBN Hn Efull. destruct Hw as [Hw | Hw]; rewrite HBN, Hw in *; clia. }
    assert (Hrange : ∀ c, 0 ≤ c < BLOCK_N cap →
              0 ≤ i * BLOCK_N cap * K + (c * K + k) < N * K).
    { clear - Hi Hk HnsN Efull. intros c Hc.
      assert (0 ≤ i * BLOCK_N cap) by nia.
      assert (0 ≤ i * BLOCK_N cap * K) by nia.
      assert (0 ≤ c * K) by nia.
      assert ((i * BLOCK_N cap + c + 1) * K ≤ N * K)
        by (apply Z.mul_le_mono_nonneg_r; lia).
      lia. }
    assert (Hr1 : 0 ≤ i * BLOCK_N cap * K + (n `rem` (2 * vec_size cap) * K + k) < N * K).
    { apply Hrange. clear - Hd Hhalf HBN. lia. }
    assert (Hr2 : 0 ≤ i * BLOCK_N cap * K
                      + ((n `rem` (2 * vec_size cap) + 2 * vec_size cap) * K + k) < N * K).
    { apply Hrange. clear - Hd Hhalf HBN. lia. }
    destruct (pack_nibbles_unpack _ _ (HW _ Hr1) (HW _ Hr2)) as [Hlo Hhi].
    destruct Hn2 as [[Hlt E] | [Hge E]].
    + destruct (Z.ltb_spec n (2 * vec_size cap)); [|lia].
      rewrite Hlo, E. f_equal. lia.
    + destruct (Z.ltb_spec n (2 * vec_size cap)); [lia|].
      rewrite Hhi, E. f_equal. lia.
  - assert (Hpart : nb_size ≠ BLOCK_N cap).
    { intros E. apply E4. rewrite E, HBN. destruct Hw as [-> | ->]; done. }
    pose proof (pack_adjacent_layout cap out W N K i k n) as Hlay.
    cbn zeta in Hlay. rewrite <- Hdef in Hlay.
    assert (Hs0 : is_strided cap nb_size = false).
    { rewrite Hstr. by apply Z.eqb_neq. }
    assert (Hev : nb_size `rem` 2 = 0) by (clear - Hns16; clia).
    specialize (Hlay Hs0 Hev Hi Hk Hn Hout).
    assert (Hh : (k * nb_size) `quot` 2 = k * (nb_size `quot` 2)).
    { destruct (Z.rem_divide nb_size 2) as [Hdiv _]; [done|].
      destruct (Hdiv Hev) as [h Hh]. rewrite Hh.
      rewrite Z.mul_assoc, !Z.quot_mul by done. done. }
    replace (0 + (i * BLOCK_N cap * K) `quot` 2 + (k * (nb_size `quot` 2) + n `quot` 2))
      with ((i * K * BLOCK_N cap) `quot` 2 + ((k * nb_size) `quot` 2 + n `quot` 2))
      by (replace (i * BLOCK_N cap * K) with (i * K * BLOCK_N cap) by lia; lia).
    rewrite Hlay.
    assert (Hn2 : 0 ≤ n - n `rem` 2 ∧ n - n `rem` 2 + 2 ≤ nb_size
                  ∧ (n `rem` 2 = 0 ∨ n `rem` 2 = 1)) by (clear - Hn Hev; clia).
    destruct Hn2 as (Hn0 & Hn1 & Hpar).
    assert (Hrange : ∀ c, 0 ≤ c → c + 2 ≤ nb_size →
              0 ≤ i * BLOCK_N cap * K + (c * K + k) < N * K
              ∧ 0 ≤ i * BLOCK_N cap * K + (c * K + K + k) < N * K).
    { clear - Hi Hk HnsN Hnsr. intros c Hc0 Hc2.
      assert (0 ≤ i * BLOCK_N cap) by nia.
      assert (0 ≤ i * BLOCK_N cap * K) by nia.
      assert (0 ≤ c * K) by nia.
      assert ((i * BLOCK_N cap + c + 2) * K ≤ N * K)
        by (apply Z.mul_le_mono_nonneg_r; lia).
      lia. }
    destruct (Hrange (n - n `rem` 2) Hn0 Hn1) as [Hr1 Hr2].
    destruct (pack_nibbles_unpack _ _ (HW _ Hr1) (HW _ Hr2)) as [Hlo Hhi].
    destruct Hpar as [E | E]; rewrite E in *.
    + change (0 =? 0) with true. cbv iota. rewrite Hlo. f_equal. lia.
    + change (1 =? 0) with false. cbv iota. rewrite Hhi. f_equal. lia.
Qed.

(** ** Invariants of the packer *)

Lemma Forall_store {X} (P : X → Prop) (p : list X) i x :
  Forall P p → P x → Forall P (store p i x).
Proof.
  intros Hp Hx. unfold store. case_bool_decide; [|done].
  destruct (decide (Z.to_nat i < length p)%nat).
  - by apply Forall_insert.
  - by rewrite list_insert_ge by lia.
Qed.

Lemma Forall_apply_writes {X} (P : X → Prop) (ws : list (Z * X)) (p : list X) :
  Forall P p → (∀ w, w ∈ ws → P w.2) → Forall P (apply_writes p ws).
Proof.
  revert p. induction ws as [|w ws IH]; intros p Hp Hws; [done|].
  rewrite apply_writes_cons. apply IH.
  - apply Forall_store; [done|]. apply Hws. by left.
  - intros w' Hw'. apply Hws. by right.
Qed.

Lemma pack_row_writes_byte cap src K k nb_size dst w :
  w ∈ pack_row_writes cap src K k nb_size dst → is_byte w.2.
Proof.
  intros Hw%elem_of_pack_row_writes.
  destruct (is_strided cap nb_size).
  - destruct Hw as (d & _ & ->). apply pack_nibbles_range.
  - destruct Hw as (n & _ & ->). apply pack_nibbles_range.
Qed.

Lemma pack_writes_byte cap W N K w : w ∈ pack_writes cap W N K → is_byte w.2.
Proof.
  intros (i & k & _ & _ & Hw)%elem_of_pack_writes. by eapply pack_row_writes_byte.
Qed.

Lemma pack_is_byte cap out W N K :
  Forall is_byte out → Forall is_byte (weight_to_int4pack_kernel cap out W N K).
Proof.
  intros Hout. rewrite pack_is_writes. apply Forall_apply_writes; [done|].
  intros w. apply pack_writes_byte.
Qed.

Lemma bind_all_nil {X Y} (f : X → list Y) (l : list X) :
  (∀ x, f x = []) → l ≫= f = [].
Proof. intros Hf. induction l as [|x l IH]; [done|]. by rewrite bind_cons, Hf, IH. Qed.

Lemma pack_writes_empty cap W N K : N ≤ 0 ∨ K ≤ 0 → pack_writes cap W N K = [].
Proof.
  intros [HN | HK]; unfold pack_writes.
  - assert (HNB : (N + BLOCK_N cap - 1) `quot` BLOCK_N cap ≤ 0).
    { destruct (BLOCK_N_cases cap) as [-> | ->]; clia. }
    unfold irange2. by rewrite seqZ_nil by lia.
  - apply bind_all_nil. intros i. unfold pack_block_writes, irange.
    by rewrite seqZ_nil by lia.
Qed.

(** With [N] even, every store of the packer goes to one of the first
    [N * K / 2] bytes. *)
Lemma pack_writes_region cap W N K w :
  N `rem` 2 = 0 → w ∈ pack_writes cap W N K → 0 ≤ w.1 < (N * K) `quot` 2.
Proof.
  intros HN (i & k & [Hi HiN] & Hk & Hw)%elem_of_pack_writes.
  apply elem_of_pack_row_writes in Hw.
  assert (HBN : ∃ half, BLOCK_N cap = 2 * half ∧ BLOCK_N cap `quot` 2 = half ∧ 0 < half).
  { destruct (BLOCK_N_cases cap) as [-> | ->]; [by exists 32|by exists 16]. }
  destruct HBN as (half & HBN & Hhalf & Hhpos).
  assert (HNh : ∃ Nh, N = 2 * Nh) by (exists (N `quot` 2); clear - HN; clia).
  destruct HNh as [Nh HNh].
  assert (Hdst : (i * K * BLOCK_N cap) `quot` 2 = i * K * half).
  { rewrite HBN. replace (i * K * (2 * half)) with (i * K * half * 2) by lia.
    by rewrite Z.quot_mul. }
  assert (HNK : (N * K) `quot` 2 = Nh * K).
  { rewrite HNh. replace (2 * Nh * K) with (Nh * K * 2) by lia. by rewrite Z.quot_mul. }
  rewrite HNK.
  set (nb_size := Z.min (BLOCK_N cap) (N - i * BLOCK_N cap)) in *.
  assert (Hns : ∃ h, nb_size = 2 * h ∧ 0 < h ≤ half ∧ i * half + h ≤ Nh).
  { exists (Z.min half (Nh - i * half)). subst nb_size. clear - HBN HNh HiN Hhpos. lia. }
  destruct Hns as (h & Hnsh & Hh & HhN). clearbody nb_size.
  assert (Hbound : ∀ a, 0 ≤ a < K * h → 0 ≤ i * K * half + a < Nh * K).
  { clear - Hi Hk Hh HhN. intros a Ha.
    assert (0 ≤ i * half) by nia. assert (0 ≤ i * K * half) by nia.
    assert ((i * half + h) * K ≤ Nh * K) by (apply Z.mul_le_mono_nonneg_r; lia).
    lia. }
  destruct (is_strided cap nb_size) eqn:Hstr.
  - destruct Hw as (d & Hd & ->). unfold strided_write. cbn [fst].
    assert (Efull : nb_size = BLOCK_N cap).
    { clear - Hstr. destruct cap; cbn [is_strided] in Hstr; [by apply Z.eqb_eq..|done]. }
    assert (h = half) by lia. subst h.
    rewrite Hdst, Hhalf. rewrite Hhalf in Hd. apply Hbound. clear - Hd Hk. nia.
  - destruct Hw as (n & [Hn Hev] & ->). unfold adjacent_write. cbn [fst].
    rewrite Hdst.
    assert (E1 : (k * nb_size) `quot` 2 = k * h).
    { rewrite Hnsh. replace (k * (2 * h)) with (k * h * 2) by lia. by rewrite Z.quot_mul. }
    rewrite E1.
    assert (E2 : 0 ≤ n `quot` 2 < h) by (clear - Hn Hnsh; clia).
    apply Hbound. clear - E2 Hk Hh. nia.
Qed.

(** ** The group in the registers, for any group size *)

Lemma reloads_before_range BLOCK_K k :
  0 ≤ k → 0 ≤ reloads_before BLOCK_K k ≤ k ∧ (0 < k → 1 ≤ reloads_before BLOCK_K k).
Proof.
  intros Hk. rewrite <- (Z2Nat.id k) by done. generalize (Z.to_nat k). clear k Hk.
  intros k. induction k as [|k IH].
  - rewrite reloads_before_0. lia.
  - replace (Z.of_nat (S k)) with (Z.of_nat k + 1) by lia.
    rewrite reloads_before_S by lia.
    destruct k as [|k].
    + rewrite reloads_before_0, is_block_start_0. lia.
    + destruct (is_block_start _ _); lia.
Qed.

Lemma group_at_range BLOCK_K k : 0 ≤ k → 0 ≤ group_at BLOCK_K k ≤ k.
Proof.
  intros Hk. unfold group_at.
  pose proof (reloads_before_range BLOCK_K (k + 1) ltac:(lia)). lia.
Qed.

Section KLoopAt.
Context (ROWS COLS BLOCK_K : Z) (load_scale_and_zeros compute : Z → Z → regs → regs).
Context (Inv : Z → regs → Prop) (Loaded : Z → regs → Prop).
Context (Hload : ∀ k kb r, Inv k r →
  Inv k (ForcedUnroll COLS (λ i, load_scale_and_zeros i kb) r)
  ∧ Loaded kb (ForcedUnroll COLS (λ i, load_scale_and_zeros i kb) r)).
Context (Hcompute : ∀ k r, 0 ≤ k → Inv k r → Loaded (group_at BLOCK_K k) r →
  Inv (k + 1) (ForcedUnroll (ROWS * COLS) (λ i, compute i k) r)
  ∧ Loaded (group_at BLOCK_K k) (ForcedUnroll (ROWS * COLS) (λ i, compute i k) r)).

Lemma k_loop_regs_at_group r0 k :
  Inv 0 r0 → 0 ≤ k →
  Loaded (group_at BLOCK_K k)
    (k_loop_regs_at ROWS COLS BLOCK_K load_scale_and_zeros compute r0 k).
Proof.
  intros Hr0 Hk. unfold k_loop_regs_at. rewrite <- (Z2Nat.id k) by done.
  pose proof (k_loop_state_at ROWS COLS BLOCK_K load_scale_and_zeros compute Inv Loaded
                Hload Hcompute (Z.to_nat k) r0 Hr0) as Hs.
  cbn zeta in Hs.
  destruct (foldl _ (r0, 0) (irange (Z.of_nat (Z.to_nat k)))) as [r kb].
  cbn [fst snd] in Hs. destruct Hs as (Hkb & Hinv & Hld).
  pose proof (reloads_before_S BLOCK_K (Z.of_nat (Z.to_nat k)) ltac:(lia)) as HS.
  unfold k_loop_reload.
  destruct (is_block_start (Z.of_nat (Z.to_nat k)) BLOCK_K) eqn:Hbs.
  - destruct (Hload (Z.of_nat (Z.to_nat k)) kb r Hinv) as [_ Hld']. cbn [fst].
    replace (group_at BLOCK_K (Z.of_nat (Z.to_nat k))) with kb; [done|].
    unfold group_at. lia.
  - assert (Hk0 : 0 < Z.of_nat (Z.to_nat k)).
    { destruct (Z.to_nat k); [|lia]. by rewrite is_block_start_0 in Hbs. }
    cbn [fst].
    replace (group_at BLOCK_K (Z.of_nat (Z.to_nat k)))
      with (group_at BLOCK_K (Z.of_nat (Z.to_nat k) - 1)); [by apply Hld|].
    unfold group_at. replace (Z.of_nat (Z.to_nat k) - 1 + 1) with (Z.of_nat (Z.to_nat k)) by lia.
    lia.
Qed.
End KLoopAt.

Lemma avx512_pairs_at_group BLOCK_K k MB_SIZE NB_SIZE A B S lda ldb ldc :
  0 ≤ k → 0 ≤ NB_SIZE →
  pairs_loaded (NB_SIZE `quot` 16)
    (λ c, group_scales S ldc 16 c (group_at BLOCK_K k))
    (λ c, group_zeros S ldc 16 c (group_at BLOCK_K k))
    (k_loop_regs_at MB_SIZE (NB_SIZE `quot` 16) BLOCK_K
       (load_scale_and_zeros_avx512 S ldc) (compute_avx512 NB_SIZE A B lda ldb)
       (ForcedUnroll (MB_SIZE * (NB_SIZE `quot` 16)) loadc_avx512
          (regs_init MB_SIZE (NB_SIZE `quot` 16))) k).
Proof.
  intros Hk HNB.
  apply (k_loop_regs_at_group MB_SIZE (NB_SIZE `quot` 16) BLOCK_K _ _
           (λ _, pair_regs_sized (NB_SIZE `quot` 16))
           (λ kb, pairs_loaded (NB_SIZE `quot` 16)
                    (λ c, group_scales S ldc 16 c kb) (λ c, group_zeros S ldc 16 c kb)));
    [| | |done].
  - intros _ kb r Hr. apply reload_loads; [|done].
    intros i r' Hi Hr'. by apply (load_scale_and_zeros_avx512_effect S ldc (NB_SIZE `quot` 16)).
  - intros k' r _ [Ls Lz] Hl. unfold pair_regs_sized, pairs_loaded.
    rewrite (ForcedUnroll_preserve scale), (ForcedUnroll_preserve zero)
      by (intros; apply compute_avx512_pairs).
    done.
  - apply regs_init_sized; [clear - HNB; clia|done].
Qed.

Lemma avx2_pairs_at_group BLOCK_K k MB_SIZE NB_SIZE A B S lda ldb ldc :
  0 ≤ k → 0 ≤ NB_SIZE →
  pairs_loaded (NB_SIZE `quot` 8)
    (λ c, group_scales S ldc 8 c (group_at BLOCK_K k))
    (λ c, group_zeros_avx2 S ldc c (group_at BLOCK_K k))
    (k_loop_regs_at MB_SIZE (NB_SIZE `quot` 8) BLOCK_K
       (load_scale_and_zeros_avx2 S ldc) (compute_avx2 NB_SIZE A B lda ldb)
       (ForcedUnroll (MB_SIZE * (NB_SIZE `quot` 8)) loadc_avx2
          (regs_init MB_SIZE (NB_SIZE `quot` 8))) k).
Proof.
  intros Hk HNB.
  apply (k_loop_regs_at_group MB_SIZE (NB_SIZE `quot` 8) BLOCK_K _ _
           (λ _, pair_regs_sized (NB_SIZE `quot` 8))
           (λ kb, pairs_loaded (NB_SIZE `quot` 8)
                    (λ c, group_scales S ldc 8 c kb) (λ c, group_zeros_avx2 S ldc c kb)));
    [| | |done].
  - intros _ kb r Hr. apply reload_loads; [|done].
    intros i r' Hi Hr'. by apply (load_scale_and_zeros_avx2_effect S ldc (NB_SIZE `quot` 8)).
  - intros k' r _ [Ls Lz] Hl. unfold pair_regs_sized, pairs_loaded.
    rewrite (ForcedUnroll_preserve scale), (ForcedUnroll_preserve zero)
      by (intros; apply compute_avx2_pairs).
    done.
  - apply regs_init_sized; [clear - HNB; clia|done].
Qed.

(** ** Tiles of supported width *)

Lemma tile_width_of_supported cap M N i :
  0 ≤ N → 0 ≤ i < MB M * NB cap N → 0 < NB cap N →
  supported_nb (tile_nb_size cap N i) = true →
  tile_width_ok cap (tile_nb_size cap N i).
Proof.
  intros HN Hi HNB Hs. apply supported_nb_cases in Hs.
  pose proof (tile_nb_size_range cap M N i HN Hi HNB) as [Hr _].
  destruct cap; cbn; [lia| |done].
  change (BLOCK_N AVX2) with 32 in Hr. lia.
Qed.

Section Sched.
Context (cap : cpu_capability).
Context (A_data : list BFloat16) (B_data : list Z) (S_data : list BFloat16).
Context (M N K BLOCK_K : Z).

Local Abbreviation run := (int4pack_mm_kernel cap A_data B_data S_data M N K BLOCK_K).
Local Abbreviation tile_stores := (mm_tile_writes cap A_data B_data S_data M N K BLOCK_K).

Lemma mm_tile_writes_lanes_supported i :
  0 ≤ M → 0 ≤ N → 0 ≤ i < MB M * NB cap N →
  supported_nb (tile_nb_size cap N i) = true →
  tile_stores i
  = tile_writes_of
      (kernel_step_lanes cap (tile_nb_size cap N i)
         (ptr_add (Ptr A_data 0) (i `quot` NB cap N * BLOCK_M * K))
         (ptr_add (Ptr B_data 0) ((i `rem` NB cap N * BLOCK_N cap * K) `quot` 2))
         (ptr_add (Ptr S_data 0) (i `rem` NB cap N * BLOCK_N cap * 2))
         K (tile_nb_size cap N i `quot` 2) N BLOCK_K)
      (tile_mb_size cap M N i) (tile_nb_size cap N i)
      (0 + (i `quot` NB cap N * BLOCK_M * N + i `rem` NB cap N * BLOCK_N cap)) N K.
Proof.
  intros HM HN Hi Hs.
  assert (HNB : 0 < NB cap N) by (apply (NB_pos_of_tiles cap M N); lia).
  unfold mm_tile_writes. apply tile_writes_lanes.
  - by apply (tile_width_of_supported cap M).
  - pose proof (tile_mb_size_range cap M N i HM Hi HNB). lia.
Qed.

Lemma mm_tile_writes_addrs_supported i :
  0 ≤ M → 0 ≤ N → 0 ≤ i < MB M * NB cap N →
  supported_nb (tile_nb_size cap N i) = true →
  (tile_stores i).*1 = tile_addrs cap M N i.
Proof.
  intros HM HN Hi Hs. rewrite mm_tile_writes_lanes_supported by done.
  rewrite fst_tile_writes_of. reflexivity.
Qed.

(** With [N] not a multiple of 16 the run ends at the last tile of the
    first row of tiles, after the stores of the tiles before it. *)
Lemma int4pack_mm_kernel_raises_state num_threads st :
  0 < num_threads → 1 ≤ M → 0 ≤ N → N `rem` 16 ≠ 0 →
  run num_threads st
  = (Raised ("Unsupported n block size: " +:+ pretty (N `rem` BLOCK_N cap)),
     apply_writes_C st (irange2 0 (NB cap N - 1) ≫= tile_stores)).
Proof.
  intros Hnt HM HN H16.
  assert (HN0 : 0 < N) by (clear - HN H16; clia).
  pose proof (NB_pos cap N HN0) as HNB. pose proof (MB_pos M ltac:(lia)) as HMB.
  pose proof (NB_spec cap N HN) as HNBs.
  rewrite parallel_for_mm_flat; [|done|apply MB_NB_nonneg; lia|done].
  assert (Hsplit : irange2 0 (MB M * NB cap N)
            = irange2 0 (NB cap N - 1) ++ (NB cap N - 1) :: irange2 (NB cap N) (MB M * NB cap N)).
  { unfold irange2.
    replace (MB M * NB cap N - 0)
      with ((NB cap N - 1) + (1 + (MB M * NB cap N - NB cap N))) by lia.
    rewrite seqZ_app by nia. rewrite Z.sub_0_r, Z.add_0_l. f_equal.
    rewrite seqZ_cons by nia. f_equal. f_equal; lia. }
  rewrite Hsplit, mm_tiles_flat_app.
  rewrite mm_tiles_flat_ok.
  2:{ intros i Hi%elem_of_irange2.
      assert (Hi' : 0 ≤ i < MB M * NB cap N) by nia.
      split; [apply tile_mb_supported; lia|].
      apply supported_nb_cases. unfold tile_nb_size.
      rewrite Z.rem_small by lia.
      destruct (BLOCK_N_cases cap) as [HB | HB]; rewrite HB in *; lia. }
  cbn [mm_tiles_flat]. rewrite mm_tile_flat_bad_n.
  - do 4 f_equal. unfold tile_nb_size. rewrite Z.rem_small by lia.
    clear - HNBs H16 HN0. destruct (BLOCK_N_cases cap) as [HB | HB]; rewrite HB in *; clia.
  - apply tile_mb_supported; [lia|nia|done].
  - apply not_true_is_false. rewrite supported_nb_cases.
    unfold tile_nb_size. rewrite Z.rem_small by lia.
    clear - HNBs H16 HN0. destruct (BLOCK_N_cases cap) as [HB | HB]; rewrite HB in *; clia.
Qed.

End Sched.

(** ** The step on the weights before packing *)

Lemma mm_elem_fused cap A_data W S_data M N K BLOCK_K out row col :
  cap ≠ DEFAULT → 0 ≤ N → N `rem` 16 = 0 →
  (N * K) `quot` 2 ≤ Z.of_nat (length out) → Forall is_byte out →
  (∀ j, 0 ≤ j < N * K → 0 ≤ load W j < 16) →
  0 ≤ row < M → 0 ≤ col < N →
  mm_elem cap kernel_step_lanes A_data (weight_to_int4pack_kernel cap out W N K) S_data
    N K BLOCK_K row col
  = float_to_bf16 (foldl (fused_step cap A_data W S_data N K BLOCK_K row col)
                     (float_of_int 0) (irange K)).
Proof.
  intros Hcap HN H16 Hout Hbytes HW Hrow Hcol.
  unfold mm_elem. cbn zeta. f_equal. apply foldl_ext_in. intros c k Hk%elem_of_irange.
  set (B_data := weight_to_int4pack_kernel cap out W N K).
  assert (HB : Forall is_byte B_data) by by apply pack_is_byte.
  assert (Hvs : BLOCK_N cap = vec_size cap * 4 ∧ (vec_size cap = 16 ∨ vec_size cap = 8)).
  { destruct cap; [split; [done|by left]|split; [done|by right]|done]. }
  destruct Hvs as [HBN Hw].
  set (i := col `quot` BLOCK_N cap).
  assert (Hi : 0 ≤ i ∧ i * BLOCK_N cap ≤ col < i * BLOCK_N cap + BLOCK_N cap).
  { subst i. clear - Hcol HBN Hw. destruct Hw as [Hw | Hw]; rewrite HBN, Hw; clia. }
  unfold tile_nb_start, tile_mb_start. fold i.
  set (nb_size := Z.min (BLOCK_N cap) (N - i * BLOCK_N cap)).
  set (n := col - i * BLOCK_N cap).
  set (mb_start := row `quot` BLOCK_M * BLOCK_M).
  assert (Hns : nb_size `rem` 16 = 0 ∧ 0 ≤ n < nb_size).
  { subst nb_size n. clear - Hi Hcol H16 HBN Hw.
    destruct Hw as [Hw | Hw]; rewrite HBN, Hw in *; clia. }
  destruct Hns as [Hns16 Hn].
  pose proof (pack_tile_nibble cap out W N K i k n Hcap H16 (proj1 Hi) ltac:(lia) Hk) as Hnib.
  cbn zeta in Hnib. fold nb_size B_data in Hnib.
  specialize (Hnib Hn Hout HW).
  replace ((i * BLOCK_N cap + n) * K + k) with (col * K + k) in Hnib by (subst n; lia).
  assert (Hq : n `quot` vec_size cap < nb_size `quot` vec_size cap).
  { clear - Hn Hns16 Hw. destruct Hw as [-> | ->]; clia. }
  assert (HA : ∀ j, ptr_get (ptr_add (Ptr A_data 0) (mb_start * K)) ((row - mb_start) * K + j)
                    = load A_data (row * K + j)).
  { intros j. unfold ptr_get, ptr_add. cbn [ptr_mem ptr_off]. f_equal. lia. }
  assert (HS : ∀ g d, ptr_get (ptr_add (Ptr S_data 0) (i * BLOCK_N cap * 2))
                        (g * N * 2 + n * 2 + d)
                      = load S_data ((g * N + col) * 2 + d)).
  { intros g d. unfold ptr_get, ptr_add. cbn [ptr_mem ptr_off]. f_equal. subst n. lia. }
  assert (HS0 : ∀ g, ptr_get (ptr_add (Ptr S_data 0) (i * BLOCK_N cap * 2)) (g * N * 2 + n * 2)
                     = load S_data ((g * N + col) * 2)).
  { intros g. rewrite <- (Z.add_0_r (g * N * 2 + n * 2)), HS. f_equal. lia. }
  destruct cap; [| |done].
  - cbn [kernel_step_lanes]. change (vec_size AVX512) with 16 in Hnib, Hq.
    rewrite avx512_step_nibble; [|done|lia|exact Hq].
    unfold kernel_step, fused_step. cbn zeta. rewrite Hnib, HA, HS0, HS. done.
  - cbn [kernel_step_lanes]. change (vec_size AVX2) with 8 in Hnib, Hq.
    rewrite avx2_step_nibble; [|done|lia|exact Hq].
    unfold kernel_step, fused_step. cbn zeta. rewrite Hnib, HA, HS0, HS. done.
Qed.

(** ** Further properties of the kernels, the packer and the scheduler *)

(** X1: [conver_int4_to_int8] turns the 8 bytes at [data] into 16 bytes,
    one nibble each: byte [2 j] is the low nibble of [data[j]] and byte
    [2 j + 1] its high nibble. *)
Theorem conver_int4_to_int8_splits (data : ptr Z) :
  Forall is_byte (ptr_mem data) →
  length (conver_int4_to_int8 data) = 16%nat
  ∧ ∀ j, 0 ≤ j < 8 →
      load (conver_int4_to_int8 data) (2 * j) = Z.land (ptr_get data j) 15
      ∧ load (conver_int4_to_int8 data) (2 * j + 1) = Z.shiftr (ptr_get data j) 4.
Proof.
  intros Hd. rewrite conver_int4_to_int8_nibbles by done.
  assert (Hlen : length (vload data 8) = 8%nat) by by rewrite length_vload.
  split; [by rewrite (length_bind_const _ 2), Hlen|].
  intros j Hj. rewrite !load_bind2 by lia.
  replace ((2 * j) `rem` 2) with 0 by (clear; clia).
  replace ((2 * j + 1) `rem` 2) with 1 by (clear - Hj; clia).
  replace ((2 * j) `quot` 2) with j by (clear; clia).
  replace ((2 * j + 1) `quot` 2) with j by (clear - Hj; clia).
  by rewrite load_vload by lia.
Qed.

(** X2: whatever the group size, the K loop of the vector kernels
    computes at step [k] with the pairs it loaded last, those of the group
    [group_at BLOCK_K k] (one less than the number of steps [0..k] at
    which [is_block_start] holds); this group lies between [0] and [k],
    and it is [k / BLOCK_K] when [BLOCK_K] is a power of two. *)
Theorem vector_kernel_groups BLOCK_K k MB_SIZE NB_SIZE A B S lda ldb ldc :
  0 ≤ k → 0 ≤ NB_SIZE →
  let r512 := k_loop_regs_at MB_SIZE (NB_SIZE `quot` 16) BLOCK_K
      (load_scale_and_zeros_avx512 S ldc) (compute_avx512 NB_SIZE A B lda ldb)
      (ForcedUnroll (MB_SIZE * (NB_SIZE `quot` 16)) loadc_avx512
         (regs_init MB_SIZE (NB_SIZE `quot` 16))) k in
  let r256 := k_loop_regs_at MB_SIZE (NB_SIZE `quot` 8) BLOCK_K
      (load_scale_and_zeros_avx2 S ldc) (compute_avx2 NB_SIZE A B lda ldb)
      (ForcedUnroll (MB_SIZE * (NB_SIZE `quot` 8)) loadc_avx2
         (regs_init MB_SIZE (NB_SIZE `quot` 8))) k in
  (∀ c, 0 ≤ c < NB_SIZE `quot` 16 →
     load (scale r512) c = group_scales S ldc 16 c (group_at BLOCK_K k)
     ∧ load (zero r512) c = group_zeros S ldc 16 c (group_at BLOCK_K k))
  ∧ (∀ c, 0 ≤ c < NB_SIZE `quot` 8 →
       load (scale r256) c = group_scales S ldc 8 c (group_at BLOCK_K k)
       ∧ load (zero r256) c = group_zeros_avx2 S ldc c (group_at BLOCK_K k))
  ∧ 0 ≤ group_at BLOCK_K k ≤ k
  ∧ (∀ j, 0 ≤ j → BLOCK_K = 2 ^ j → group_at BLOCK_K k = k `quot` BLOCK_K).
Proof.
  intros Hk HNB r512 r256. split_and!.
  - exact (avx512_pairs_at_group BLOCK_K k MB_SIZE NB_SIZE A B S lda ldb ldc Hk HNB).
  - exact (avx2_pairs_at_group BLOCK_K k MB_SIZE NB_SIZE A B S lda ldb ldc Hk HNB).
  - by apply group_at_range.
  - by apply group_at_range.
  - intros j Hj ->. by apply group_at_pow2.
Qed.

(** X3: the AVX512 tile kernel stores the tile row by row, one store per
    element, and the element in row [m] and column [n] is the narrowing of
    the [float] accumulator built over [k = 0, ..., K-1], in this order,
    by [c <- fmadd(a, fmadd(lut[nibble], scale, zero), c)]. *)
Theorem avx512_kernel_elements MB_SIZE NB_SIZE A B S C lda ldb ldc K BLOCK_K st :
  NB_SIZE = 16 ∨ NB_SIZE = 32 ∨ NB_SIZE = 48 ∨ NB_SIZE = 64 → 0 ≤ MB_SIZE →
  Forall is_byte (ptr_mem B) →
  tinygemm_kernel AVX512 MB_SIZE NB_SIZE A B S C lda ldb ldc K BLOCK_K st
  = apply_writes_C st
      (tile_writes_of (kernel_step AVX512 NB_SIZE A B S lda ldb ldc BLOCK_K)
         MB_SIZE NB_SIZE C ldc K).
Proof.
  intros HNB HMB HB. rewrite tinygemm_kernel_is_writes.
  by rewrite (tile_writes_kernel_step AVX512).
Qed.

(** X4: the AVX2 tile kernel stores the tile row by row, one store per
    element, and the element in row [m] and column [n] is the narrowing of
    the [float] accumulator built over [k = 0, ..., K-1], in this order,
    by [c <- fmadd(a, fmadd(float(nibble), scale, fmadd(scale, -8, zero)), c)]. *)
Theorem avx2_kernel_elements MB_SIZE NB_SIZE A B S C lda ldb ldc K BLOCK_K st :
  NB_SIZE = 16 ∨ NB_SIZE = 32 → 0 ≤ MB_SIZE →
  Forall is_byte (ptr_mem B) →
  tinygemm_kernel AVX2 MB_SIZE NB_SIZE A B S C lda ldb ldc K BLOCK_K st
  = apply_writes_C st
      (tile_writes_of (kernel_step AVX2 NB_SIZE A B S lda ldb ldc BLOCK_K)
         MB_SIZE NB_SIZE C ldc K).
Proof.
  intros HNB HMB HB. rewrite tinygemm_kernel_is_writes.
  by rewrite (tile_writes_kernel_step AVX2).
Qed.

(** X5: for weights that are 4-bit codes, packed by a vector build, the
    nibble the tile kernel of that build reads for column [n] of the tile
    [i] at step [k] is the code of column [i * BLOCK_N + n] at [k], in
    full-width tiles (strided pairs) and in narrower ones (adjacent
    pairs). *)
Theorem vector_layout_round_trip cap out W N K i k n :
  cap ≠ DEFAULT → N `rem` 16 = 0 →
  0 ≤ i → i * BLOCK_N cap < N → 0 ≤ k < K →
  0 ≤ n < Z.min (BLOCK_N cap) (N - i * BLOCK_N cap) →
  (N * K) `quot` 2 ≤ Z.of_nat (length out) →
  Z.of_nat (length W) = N * K → Forall (λ w, 0 ≤ w < 16) W →
  let nb_size := Z.min (BLOCK_N cap) (N - i * BLOCK_N cap) in
  tile_nibble (vec_size cap) nb_size
    (ptr_add (Ptr (weight_to_int4pack_kernel cap out W N K) 0)
       ((i * BLOCK_N cap * K) `quot` 2))
    (nb_size `quot` 2) k n
  = load W ((i * BLOCK_N cap + n) * K + k).
Proof.
  intros Hcap H16 Hi HiN Hk Hn Hout HlenW HW0 nb_size.
  apply pack_tile_nibble; [done..|].
  exact (load_Forall (λ w, 0 ≤ w < 16) W (N * K) HlenW HW0).
Qed.

(** X6: in every build, the vector builds included, the stores of two
    different tiles hit different elements of the output and the stores of
    a run hit every element of the M x N output exactly once. *)
Theorem every_build_writes_once cap A_data B_data S_data M N K BLOCK_K
    num_threads C0 :
  0 < num_threads → 0 ≤ M → 0 ≤ N → N `rem` 16 = 0 →
  let run := int4pack_mm_kernel cap A_data B_data S_data M N K BLOCK_K
               num_threads (OutBuf C0 []) in
  let stores i := (mm_tile_writes cap A_data B_data S_data M N K BLOCK_K i).*1 in
  run.1 = Done
  ∧ C_writes run.2 = irange2 0 (MB M * NB cap N) ≫= stores
  ∧ (∀ i j x, 0 ≤ i < MB M * NB cap N → 0 ≤ j < MB M * NB cap N → i ≠ j →
       x ∈ stores i → x ∉ stores j)
  ∧ C_writes run.2 ≡ₚ seqZ 0 (M * N).
Proof.
  intros Hnt HM HN H16 run stores.
  assert (Hlog : C_writes run.2 = irange2 0 (MB M * NB cap N) ≫= stores).
  { subst run stores. rewrite int4pack_mm_kernel_ok by done. cbn [snd].
    rewrite C_writes_apply_writes_C. cbn [C_writes app]. apply fmap_bind. }
  assert (Hst : ∀ i, 0 ≤ i < MB M * NB cap N → stores i = tile_addrs cap M N i).
  { intros i Hi. by apply mm_tile_writes_addrs. }
  split_and!.
  - subst run. by rewrite int4pack_mm_kernel_ok.
  - done.
  - intros i j x Hi Hj Hne. rewrite !Hst, !elem_of_tile_addrs by done.
    intros (m1 & n1 & Hm1 & Hn1 & ->) (m2 & n2 & Hm2 & Hn2 & Heq).
    assert (0 < NB cap N) by (apply (NB_pos_of_tiles cap M N); lia).
    by destruct (tile_addr_inj cap M N i m1 n1 j m2 n2) as (? & _).
  - rewrite Hlog.
    rewrite (Forall_bind_ext stores (tile_addrs cap M N)).
    + by apply tiles_partition_output.
    + apply Forall_forall. intros i Hi%elem_of_irange2. apply Hst. lia.
Qed.

(** X7: for a vector build, the output of the scheduler on weights packed
    by the same build is, element by element, the narrowing of the float
    accumulator built over [k = 0, ..., K-1] from the activation
    [A[m,k]], the code [W[n,k]] of the weight and the pair of the group of
    [k]: [c <- fmadd(a, fmadd(w - 8, scale, zero), c)] for AVX512, and
    [c <- fmadd(a, fmadd(w, scale, fmadd(scale, -8, zero)), c)] for AVX2. *)
Theorem int4pack_mm_vector_elements cap A_data W S_data M N K BLOCK_K num_threads
    C0 log out :
  cap ≠ DEFAULT →
  0 < num_threads → 0 ≤ M → 0 ≤ N → N `rem` 16 = 0 →
  Z.of_nat (length C0) = M * N →
  (N * K) `quot` 2 ≤ Z.of_nat (length out) → Forall is_byte out →
  Z.of_nat (length W) = N * K → Forall (λ w, 0 ≤ w < 16) W →
  let B_data := weight_to_int4pack_kernel cap out W N K in
  let run := int4pack_mm_kernel cap A_data B_data S_data M N K BLOCK_K
               num_threads (OutBuf C0 log) in
  run.1 = Done
  ∧ ∀ m n, 0 ≤ m < M → 0 ≤ n < N →
      load (C_data run.2) (m * N + n)
      = float_to_bf16 (foldl (fused_step cap A_data W S_data N K BLOCK_K m n)
                         (float_of_int 0) (irange K)).
Proof.
  intros Hcap Hnt HM HN H16 Hlen Hout Hbytes HlenW HW0 B_data run.
  pose proof (load_Forall _ _ _ HlenW HW0) as HW. cbn beta in HW. split.
  - subst run. by rewrite int4pack_mm_kernel_ok.
  - intros m n Hm Hn. subst run B_data.
    rewrite int4pack_mm_kernel_value by done.
    by apply (mm_elem_fused cap A_data W S_data M).
Qed.

(** X9: a run by one worker with [N] not a multiple of 16 fails at the
    last tile of the first row of tiles, and what it has stored by then
    are exactly the tiles [0, ..., NB - 2] before it: the buffer is the
    one after the stores of these tiles and the stores made are their
    elements.  With [N < BLOCK_N] this is nothing, the buffer is as it
    was; with [N > BLOCK_N] the output is partly written, the element
    [C[0,0]] for one having been stored. *)
Theorem unsupported_n_partial_output cap A_data B_data S_data M N K BLOCK_K st :
  1 ≤ M → 0 ≤ N → N `rem` 16 ≠ 0 →
  let run := int4pack_mm_kernel cap A_data B_data S_data M N K BLOCK_K 1 st in
  run = (Raised ("Unsupported n block size: " +:+ pretty (N `rem` BLOCK_N cap)),
         apply_writes_C st
           (irange2 0 (NB cap N - 1) ≫=
              mm_tile_writes cap A_data B_data S_data M N K BLOCK_K))
  ∧ C_writes run.2 = C_writes st ++ (irange2 0 (NB cap N - 1) ≫= tile_addrs cap M N)
  ∧ (N < BLOCK_N cap → run.2 = st)
  ∧ (BLOCK_N cap < N → 0 ∈ drop (length (C_writes st)) (C_writes run.2)).
Proof.
  intros HM HN H16 run.
  assert (Hrun : run = (Raised ("Unsupported n block size: " +:+ pretty (N `rem` BLOCK_N cap)),
         apply_writes_C st
           (irange2 0 (NB cap N - 1) ≫=
              mm_tile_writes cap A_data B_data S_data M N K BLOCK_K))).
  { subst run. by apply int4pack_mm_kernel_raises_state. }
  assert (HN0 : 0 < N) by (clear - HN H16; clia).
  pose proof (NB_pos cap N HN0) as HNB. pose proof (MB_pos M ltac:(lia)) as HMB.
  pose proof (NB_spec cap N HN) as HNBs.
  assert (Hlog : C_writes run.2
                 = C_writes st ++ (irange2 0 (NB cap N - 1) ≫= tile_addrs cap M N)).
  { rewrite Hrun. cbn [snd].
    rewrite C_writes_apply_writes_C. f_equal. rewrite fmap_bind.
    apply Forall_bind_ext, Forall_forall. intros i Hi%elem_of_irange2.
    apply mm_tile_writes_addrs_supported; [lia|done|nia|].
    apply supported_nb_cases. unfold tile_nb_size. rewrite Z.rem_small by lia.
    destruct (BLOCK_N_cases cap) as [HB | HB]; rewrite HB in *; lia. }
  split_and!; [done|done| |].
  - intros Hlt. rewrite Hrun. cbn [snd].
    assert (HNB1 : NB cap N = 1).
    { clear - HNBs Hlt HN0 HNB. destruct (BLOCK_N_cases cap) as [HB | HB]; rewrite HB in *; nia. }
    rewrite HNB1. done.
  - intros Hgt. rewrite Hlog, drop_app_length.
    apply list_elem_of_bind. exists 0. split.
    + apply elem_of_tile_addrs. exists 0, 0. split_and!; [lia| |lia| |].
      * unfold tile_mb_size, BLOCK_M. rewrite Z.quot_0_l by lia. lia.
      * unfold tile_nb_size. rewrite Z.rem_0_l by lia.
        clear - Hgt. destruct (BLOCK_N_cases cap) as [HB | HB]; rewrite HB in *; lia.
      * unfold tile_addr. rewrite Z.quot_0_l, Z.rem_0_l by lia. lia.
    + apply elem_of_irange2.
      clear - HNBs Hgt. destruct (BLOCK_N_cases cap) as [HB | HB]; rewrite HB in *; nia.
Qed.

(** X10: with an empty reduction ([K <= 0]) every build stores the
    narrowing of [0] in every element of the output. *)
Theorem empty_reduction_stores_zero cap A_data B_data S_data M N K BLOCK_K
    num_threads C0 log m n :
  K ≤ 0 → 0 < num_threads → 0 ≤ M → 0 ≤ N → N `rem` 16 = 0 →
  Z.of_nat (length C0) = M * N → 0 ≤ m < M → 0 ≤ n < N →
  load (C_data (int4pack_mm_kernel cap A_data B_data S_data M N K BLOCK_K
                  num_threads (OutBuf C0 log)).2) (m * N + n)
  = float_to_bf16 (float_of_int 0).
Proof.
  intros HK Hnt HM HN H16 Hlen Hm Hn.
  rewrite int4pack_mm_kernel_value by done.
  unfold mm_elem, irange. by rewrite seqZ_nil by lia.
Qed.

(** X11: the packer keeps the length of the output buffer and stores
    bytes; it leaves the buffer as it is when [N <= 0] or [K <= 0]; and
    with [N] even it stores only to the first [N * K / 2] bytes. *)
Theorem packer_frame cap out W N K :
  length (weight_to_int4pack_kernel cap out W N K) = length out
  ∧ (Forall is_byte out → Forall is_byte (weight_to_int4pack_kernel cap out W N K))
  ∧ (N ≤ 0 ∨ K ≤ 0 → weight_to_int4pack_kernel cap out W N K = out)
  ∧ (N `rem` 2 = 0 → ∀ j, ¬ (0 ≤ j < (N * K) `quot` 2) →
       load (weight_to_int4pack_kernel cap out W N K) j = load out j).
Proof.
  split_and!.
  - rewrite pack_is_writes. apply length_apply_writes.
  - apply pack_is_byte.
  - intros Hempty. by rewrite pack_is_writes, pack_writes_empty.
  - intros HN j Hj. rewrite pack_is_writes. apply apply_writes_miss.
    intros w Hw%pack_writes_region; [|done]. lia.
Qed.

(** X12: in a block that is not packed with strided pairs (every block
    of the non-vectorized build, the narrower last block of the vector
    builds), the byte [n / 2] of row [k] holds the even column [n] in its
    low nibble and column [n + 1] in its high nibble. *)
Theorem adjacent_block_pairing cap out W N K i k n :
  let nb_size := Z.min (BLOCK_N cap) (N - i * BLOCK_N cap) in
  is_strided cap nb_size = false → nb_size `rem` 2 = 0 →
  0 ≤ i → 0 ≤ k < K → 0 ≤ n < nb_size → n `rem` 2 = 0 →
  (N * K) `quot` 2 ≤ Z.of_nat (length out) →
  Z.of_nat (length W) = N * K → Forall (λ w, 0 ≤ w < 16) W →
  let b := load (weight_to_int4pack_kernel cap out W N K)
             ((i * K * BLOCK_N cap) `quot` 2 + ((k * nb_size) `quot` 2 + n `quot` 2)) in
  Z.land b 15 = load W ((i * BLOCK_N cap + n) * K + k)
  ∧ Z.shiftr b 4 = load W ((i * BLOCK_N cap + n + 1) * K + k).
Proof.
  intros nb_size Hstr Hev Hi Hk Hn Hn2 Hout HlenW HW0 b. subst b.
  pose proof (load_Forall _ _ _ HlenW HW0) as HW. cbn beta in HW.
  pose proof (pack_adjacent_layout cap out W N K i k n) as Hlay.
  cbn zeta in Hlay. fold nb_size in Hlay.
  rewrite (Hlay Hstr Hev Hi Hk Hn Hout). rewrite Hn2, Z.sub_0_r.
  assert (Hns : i * BLOCK_N cap + nb_size ≤ N ∧ n + 2 ≤ nb_size).
  { subst nb_size. clear - Hn Hn2 Hev. clia. }
  destruct Hns as [HnsN Hn1]. clearbody nb_size.
  assert (Hrange : 0 ≤ i * BLOCK_N cap * K + (n * K + k) < N * K
                   ∧ 0 ≤ i * BLOCK_N cap * K + (n * K + K + k) < N * K).
  { assert (HBN : 0 < BLOCK_N cap) by (destruct (BLOCK_N_cases cap) as [-> | ->]; lia).
    clear - Hi Hk HnsN Hn Hn1 HBN.
    assert (0 ≤ i * BLOCK_N cap) by nia.
    assert (0 ≤ i * BLOCK_N cap * K) by nia.
    assert (0 ≤ n * K) by nia.
    assert ((i * BLOCK_N cap + n + 2) * K ≤ N * K)
      by (apply Z.mul_le_mono_nonneg_r; lia).
    lia. }
  destruct Hrange as [Hr1 Hr2].
  destruct (pack_nibbles_unpack _ _ (HW _ Hr1) (HW _ Hr2)) as [-> ->].
  split; f_equal; lia.
Qed.

(** X13: on a supported shape ([N] a multiple of 16), where no tile
    raises, the run ends normally and its output does not depend on the
    number of chunks the range of tiles is cut into. *)
Theorem chunking_is_irrelevant cap A_data B_data S_data M N K BLOCK_K t1 t2 st :
  0 < t1 → 0 < t2 → 0 ≤ M → 0 ≤ N → N `rem` 16 = 0 →
  (int4pack_mm_kernel cap A_data B_data S_data M N K BLOCK_K t1 st).1 = Done
  ∧ int4pack_mm_kernel cap A_data B_data S_data M N K BLOCK_K t1 st
    = int4pack_mm_kernel cap A_data B_data S_data M N K BLOCK_K t2 st.
Proof.
  intros Ht1 Ht2 HM HN H16. by rewrite !int4pack_mm_kernel_ok by done.
Qed.

(** X14: with no rows or no columns there is no tile: the run ends
    normally and stores nothing. *)
Theorem empty_output_no_store cap A_data B_data S_data M N K BLOCK_K num_threads st :
  0 < num_threads → (M = 0 ∧ 0 ≤ N) ∨ (0 ≤ M ∧ N = 0) →
  int4pack_mm_kernel cap A_data B_data S_data M N K BLOCK_K num_threads st = (Done, st).
Proof.
  intros Hnt Hempty.
  assert (HT : MB M * NB cap N = 0).
  { destruct Hempty as [[-> _] | [_ ->]].
    - reflexivity.
    - assert (NB cap 0 = 0) as -> by (by destruct cap). lia. }
  rewrite parallel_for_mm_flat; [|done|lia|lia].
  by rewrite HT.
Qed.

(** X15: a run that ends normally keeps the length of the output buffer
    and stores only to the elements of the M x N output. *)
Theorem output_frame cap A_data B_data S_data M N K BLOCK_K num_threads C0 log :
  0 < num_threads → 0 ≤ M → 0 ≤ N → N `rem` 16 = 0 →
  let run := int4pack_mm_kernel cap A_data B_data S_data M N K BLOCK_K
               num_threads (OutBuf C0 log) in
  length (C_data run.2) = length C0
  ∧ ∀ j, ¬ (0 ≤ j < M * N) → load (C_data run.2) j = load C0 j.
Proof.
  intros Hnt HM HN H16 run. subst run.
  rewrite int4pack_mm_kernel_ok by done. cbn [snd].
  rewrite C_data_apply_writes_C. cbn [C_data]. split; [apply length_apply_writes|].
  intros j Hj. apply apply_writes_miss.
  intros w (i & Hw & Hi%elem_of_irange2)%list_elem_of_bind Hw1.
  assert (Hi' : 0 ≤ i < MB M * NB cap N) by lia.
  assert (HNB : 0 < NB cap N) by (apply (NB_pos_of_tiles cap M N); lia).
  assert (Ha : w.1 ∈ tile_addrs cap M N i).
  { rewrite <- (mm_tile_writes_addrs cap A_data B_data S_data M N K BLOCK_K) by done.
    apply list_elem_of_fmap. by exists w. }
  apply elem_of_tile_addrs in Ha as (m & n & Hm & Hn & Ea).
  destruct (tile_addr_global cap M N i m n HN Hi' HNB Hm Hn) as (Eg & Hrow & Hcol).
  cbn zeta in Eg, Hrow, Hcol. rewrite Ea, Eg in Hw1. apply Hj. rewrite <- Hw1.
  clear - Hrow Hcol. nia.
Qed.

End VectorFacts.

(** * Concrete runs, on IEEE binary32 with bfloat16 storage *)

Import IEEE.

(** C1 as stated fails: for the weights -8, ..., 7, all within [-8, 7],
    the conversion of the nibble packed for position (0, 0) is 0, not
    W[0,0] = -8. *)
Lemma pack_unpack_round_trip_fails :
  Forall (λ w, -8 ≤ w ≤ 7) all_int4_values
  ∧ ¬ (∀ n k, 0 ≤ n < 16 → 0 ≤ k < 1 →
         kernel_unpack_scalar
           (weight_to_int4pack_kernel DEFAULT (replicate 8 0) all_int4_values 16 1) 16 1 n k
         = float_of_int (load all_int4_values (n * 1 + k))).
Proof.
  split.
  - eapply bool_decide_unpack; vm_compute; exact I.
  - intros Hclaim. specialize (Hclaim 0 0 ltac:(lia) ltac:(lia)).
    vm_compute in Hclaim. discriminate.
Qed.

Lemma pack_unpack_round_trip_witness :
  kernel_unpack_scalar
    (weight_to_int4pack_kernel DEFAULT (replicate 8 0) (replicate 16 15) 16 1) 16 1 3 0
  = float_of_int (load (replicate 16 15) (3 * 1 + 0) - 8).
Proof.
  apply (pack_unpack_round_trip (replicate 8 0) (replicate 16 15) 16 1 3 0).
  - reflexivity.
  - lia.
  - lia.
  - vm_compute. discriminate.
  - reflexivity.
  - eapply bool_decide_unpack; vm_compute; exact I.
Defined.

(** C3 as stated fails: with every weight 0 the outputs are -256, not 0,
    and with every weight 7 they are -32, not 224. *)
Lemma concrete_scenarios_fail :
  C_data (scenario DEFAULT 0 1).2 = replicate 16 (bf16_of_int (-256))
  ∧ C_data (scenario DEFAULT 0 1).2 ≠ replicate 16 (bf16_of_int 0)
  ∧ C_data (scenario DEFAULT 7 1).2 = replicate 16 (bf16_of_int (-32))
  ∧ C_data (scenario DEFAULT 7 1).2 ≠ replicate 16 (bf16_of_int 224).
Proof. vm_compute. split_and!; (reflexivity || discriminate). Qed.

(** C3, as amended: the weights are the codes 0..15 of the int4 values
    -8..7.  With every weight the code 8 (the int4 value 0) every output
    is 0, and with every weight the code 15 (the int4 value 7) and every
    activation 1 every output is 7 * 32 = 224; in each build and for each
    number of threads. *)
Theorem concrete_scenarios cap num_threads :
  0 < num_threads →
  ((scenario cap 8 num_threads).1 = Done
   ∧ C_data (scenario cap 8 num_threads).2 = replicate 16 (bf16_of_int 0))
  ∧ ((scenario cap 15 num_threads).1 = Done
     ∧ C_data (scenario cap 15 num_threads).2 = replicate 16 (bf16_of_int 224)).
Proof.
  intros Hnt. unfold scenario.
  split;
    (rewrite parallel_for_mm_flat;
      [ destruct cap; vm_compute; done
      | exact Hnt
      | destruct cap; vm_compute; discriminate
      | intros _; destruct cap; vm_compute; reflexivity ]).
Qed.

Lemma concrete_scenarios_witness :
  ((scenario AVX512 8 3).1 = Done
   ∧ C_data (scenario AVX512 8 3).2 = replicate 16 (bf16_of_int 0))
  ∧ ((scenario AVX512 15 3).1 = Done
     ∧ C_data (scenario AVX512 15 3).2 = replicate 16 (bf16_of_int 224)).
Proof. apply (concrete_scenarios AVX512 3). lia. Defined.

(** C4 as stated fails: in a block of 64 columns no byte pairs column 0
    with column 16, and in a block of 32 columns no byte pairs column 0
    with column 8. *)
Lemma full_block_lane_pairing_fails :
  ¬ (∃ j, 0 ≤ j < 32
       ∧ Z.land (load (weight_to_int4pack_kernel AVX512 (replicate 32 0) lanes_0_16 64 1) j) 15
         = load lanes_0_16 (0 * 1 + 0)
       ∧ Z.shiftr (load (weight_to_int4pack_kernel AVX512 (replicate 32 0) lanes_0_16 64 1) j) 4
         = load lanes_0_16 ((0 + 64 `quot` 4) * 1 + 0))
  ∧ ¬ (∃ j, 0 ≤ j < 16
       ∧ Z.land (load (weight_to_int4pack_kernel AVX2 (replicate 16 0) lanes_0_8 32 1) j) 15
         = load lanes_0_8 (0 * 1 + 0)
       ∧ Z.shiftr (load (weight_to_int4pack_kernel AVX2 (replicate 16 0) lanes_0_8 32 1) j) 4
         = load lanes_0_8 ((0 + 32 `quot` 4) * 1 + 0)).
Proof.
  assert (Hcases : ∀ j n, 0 ≤ j < n → j ∈ seqZ 0 n) by (intros; apply elem_of_seqZ; lia).
  split; intros (j & Hj%Hcases & Hlo & Hhi);
    vm_compute in Hj;
    repeat (apply elem_of_cons in Hj as [-> | Hj]; [vm_compute in Hlo, Hhi; discriminate|]);
    by apply elem_of_nil in Hj.
Qed.

Lemma full_block_lane_pairing_witness :
  let b := load (weight_to_int4pack_kernel AVX512 (replicate 32 0) lanes_0_16 64 1)
             ((0 * 1 * BLOCK_N AVX512) `quot` 2 + (0 * (BLOCK_N AVX512 `quot` 2) + 0)) in
  Z.land b 15 = load lanes_0_16 ((0 * BLOCK_N AVX512 + 0) * 1 + 0)
  ∧ Z.shiftr b 4
    = load lanes_0_16 ((0 * BLOCK_N AVX512 + 0 + BLOCK_N AVX512 `quot` 2) * 1 + 0).
Proof.
  apply (full_block_lane_pairing AVX512 (replicate 32 0) lanes_0_16 64 1 0 0 0).
  - discriminate.
  - lia.
  - vm_compute. discriminate.
  - lia.
  - vm_compute. split; [discriminate|reflexivity].
  - vm_compute. discriminate.
  - reflexivity.
  - eapply bool_decide_unpack; vm_compute; exact I.
Defined.



Lemma tile_grid_mapping_witness :
  (MB 5 - 1) * BLOCK_M < 5 ≤ MB 5 * BLOCK_M.
Proof.
  refine (proj1 (@tile_grid_mapping binary32 AVX2 ones_32 [] unit_pairs_16 5 48 32 32 3
                   (OutBuf [] []) _ _ _ _)).
  - lia.
  - lia.
  - lia.
  - reflexivity.
Defined.

(** C6 as stated fails: an invocation that meets an unsupported tile does
    leave partial output.  With M = 2 and N = 40 in the AVX2 build
    (BLOCK_N = 32) the second tile has [nb_size = 8]; the run, by one
    worker, raises for it after the first tile has stored its 64
    elements, so the output holds 224 in the columns 0..31 of both rows
    and is untouched in the columns 32..39. *)
Lemma unsupported_shape_fails_fast_fails :
  let C0 := replicate 80 (bf16_of_int 99) in
  let run := int4pack_mm_kernel AVX2 ones_64 bytes_640 unit_pairs_40 2 40 32 32 1
               (OutBuf C0 []) in
  run.1 = Raised "Unsupported n block size: 8"
  ∧ length (C_writes run.2) = 64%nat
  ∧ C_data run.2 ≠ C0
  ∧ C_data run.2
    = (replicate 32 (bf16_of_int 224) ++ replicate 8 (bf16_of_int 99))
      ++ (replicate 32 (bf16_of_int 224) ++ replicate 8 (bf16_of_int 99)).
Proof.
  cbv zeta. split_and!.
  - vm_compute. reflexivity.
  - vm_compute. reflexivity.
  - vm_compute. discriminate.
  - vm_compute. reflexivity.
Qed.

Lemma unsupported_shape_fails_fast_witness :
  int4pack_mm_kernel AVX2 ones_64 bytes_640 unit_pairs_40 2 40 32 32 1
    (OutBuf (replicate 80 (bf16_of_int 99)) [])
  = (Raised (if supported_mb 2
             then "Unsupported n block size: " +:+ pretty 8
             else "Unsupported m block size: " +:+ pretty 2),
     apply_writes_C (OutBuf (replicate 80 (bf16_of_int 99)) [])
       (irange2 0 1 ≫= mm_tile_writes AVX2 ones_64 bytes_640 unit_pairs_40 2 40 32 32)).
Proof.
  refine (proj2 (proj2 (@unsupported_shape_fails_fast binary32 AVX2 ones_64 bytes_640
                          unit_pairs_40 2 40 32 32 2 8
                          (Ptr ones_64 0) (Ptr bytes_640 0) (Ptr unit_pairs_40 0) 0
                          (OutBuf (replicate 80 (bf16_of_int 99)) []) _))
                 1 _ _ _ _ _ _).
  - left. lia.
  - lia.
  - lia.
  - vm_compute. split; [discriminate|reflexivity].
  - reflexivity.
  - reflexivity.
  - intros i Hi. assert (i = 0) as -> by lia. split; reflexivity.
Defined.

(** The message of the check, in full. *)
Example unsupported_n_block_size_message :
  (mm_dispatch DEFAULT 40 32 32 1 8 (Ptr ones_32 0) (Ptr [] 0) (Ptr unit_pairs_16 0) 0
     (OutBuf [] [])).1
  = Raised "Unsupported n block size: 8".
Proof. vm_compute. reflexivity. Qed.




Lemma output_written_exactly_once_witness :
  C_writes (int4pack_mm_kernel DEFAULT ones_32 (replicate 256 255) unit_pairs_16
              1 16 32 32 2 (OutBuf (replicate 16 (bf16_of_int 99)) [])).2
  ≡ₚ seqZ 0 (1 * 16).
Proof.
  refine (proj2 (proj2 (proj2 (output_written_exactly_once ones_32 (replicate 256 255)
                   unit_pairs_16 1 16 32 32 2 (replicate 16 (bf16_of_int 99)) _ _ _ _)))).
  - lia.
  - lia.
  - lia.
  - reflexivity.
Defined.

Lemma only_n_block_check_reachable_witness :
  (int4pack_mm_kernel AVX2 ones_32 (replicate 640 255) unit_pairs_16
     2 40 32 32 3 (OutBuf (replicate 80 (bf16_of_int 99)) [])).1
  = Raised ("Unsupported n block size: " +:+ pretty (40 `rem` BLOCK_N AVX2)).
Proof.
  refine (proj1 (proj2 (proj2 (only_n_block_check_reachable AVX2 ones_32 (replicate 640 255)
                   unit_pairs_16 2 40 32 32 3 (OutBuf (replicate 80 (bf16_of_int 99)) [])
                   _ _ _))) _).
  - lia.
  - lia.
  - lia.
  - vm_compute. discriminate.
Defined.

(** ** Runs of the further properties *)

Lemma conver_int4_to_int8_splits_witness :
  length (conver_int4_to_int8 (Ptr packed_8 0)) = 16%nat.
Proof.
  refine (proj1 (conver_int4_to_int8_splits (Ptr packed_8 0) _)).
  eapply bool_decide_unpack. vm_compute. exact I.
Defined.

Lemma vector_kernel_groups_witness : 0 ≤ group_at 48 16 ≤ 16.
Proof.
  refine (proj1 (proj2 (proj2 (@vector_kernel_groups binary32 48 16 1 16 (Ptr ones_32 0)
            (Ptr packed_row 0) (Ptr two_groups 0) 32 8 16 _ _)))); lia.
Defined.

Lemma avx512_kernel_elements_witness :
  tinygemm_kernel AVX512 1 16 (Ptr ones_32 0) (Ptr (replicate 256 255) 0)
    (Ptr unit_pairs_16 0) 0 32 8 16 32 32 (OutBuf (replicate 16 (bf16_of_int 99)) [])
  = apply_writes_C (OutBuf (replicate 16 (bf16_of_int 99)) [])
      (tile_writes_of
         (kernel_step AVX512 16 (Ptr ones_32 0) (Ptr (replicate 256 255) 0)
            (Ptr unit_pairs_16 0) 32 8 16 32)
         1 16 0 16 32).
Proof.
  apply avx512_kernel_elements.
  - left. reflexivity.
  - lia.
  - apply Forall_replicate. unfold is_byte. lia.
Defined.

Lemma avx2_kernel_elements_witness :
  tinygemm_kernel AVX2 1 16 (Ptr ones_32 0) (Ptr (replicate 256 255) 0)
    (Ptr unit_pairs_16 0) 0 32 8 16 32 32 (OutBuf (replicate 16 (bf16_of_int 99)) [])
  = apply_writes_C (OutBuf (replicate 16 (bf16_of_int 99)) [])
      (tile_writes_of
         (kernel_step AVX2 16 (Ptr ones_32 0) (Ptr (replicate 256 255) 0)
            (Ptr unit_pairs_16 0) 32 8 16 32)
         1 16 0 16 32).
Proof.
  apply avx2_kernel_elements.
  - left. reflexivity.
  - lia.
  - apply Forall_replicate. unfold is_byte. lia.
Defined.

Lemma vector_layout_round_trip_witness :
  tile_nibble (vec_size AVX512) (Z.min (BLOCK_N AVX512) (64 - 0 * BLOCK_N AVX512))
    (ptr_add (Ptr (weight_to_int4pack_kernel AVX512 (replicate 32 0) lanes_0_16 64 1) 0)
       ((0 * BLOCK_N AVX512 * 1) `quot` 2))
    (Z.min (BLOCK_N AVX512) (64 - 0 * BLOCK_N AVX512) `quot` 2) 0 16
  = load lanes_0_16 ((0 * BLOCK_N AVX512 + 16) * 1 + 0).
Proof.
  apply (vector_layout_round_trip AVX512 (replicate 32 0) lanes_0_16 64 1 0 0 16).
  - discriminate.
  - reflexivity.
  - lia.
  - vm_compute. reflexivity.
  - lia.
  - vm_compute. split; [discriminate|reflexivity].
  - vm_compute. discriminate.
  - reflexivity.
  - eapply bool_decide_unpack. vm_compute. exact I.
Defined.

Lemma every_build_writes_once_witness :
  C_writes (int4pack_mm_kernel AVX512 ones_32 (replicate 256 255) unit_pairs_16
              1 16 32 32 2 (OutBuf (replicate 16 (bf16_of_int 99)) [])).2
  ≡ₚ seqZ 0 (1 * 16).
Proof.
  refine (proj2 (proj2 (proj2 (@every_build_writes_once binary32 AVX512 ones_32
            (replicate 256 255) unit_pairs_16 1 16 32 32 2
            (replicate 16 (bf16_of_int 99)) _ _ _ _)))).
  - lia.
  - lia.
  - lia.
  - reflexivity.
Defined.

Lemma int4pack_mm_vector_elements_witness :
  (int4pack_mm_kernel AVX2 ones_32
     (weight_to_int4pack_kernel AVX2 (replicate 256 0) (replicate 512 15) 16 32)
     unit_pairs_16 1 16 32 32 1 (OutBuf (replicate 16 (bf16_of_int 99)) [])).1 = Done.
Proof.
  refine (proj1 (@int4pack_mm_vector_elements binary32 AVX2 ones_32 (replicate 512 15) unit_pairs_16
                   1 16 32 32 1 (replicate 16 (bf16_of_int 99)) [] (replicate 256 0)
                   _ _ _ _ _ _ _ _ _ _)).
  - discriminate.
  - lia.
  - lia.
  - lia.
  - reflexivity.
  - reflexivity.
  - vm_compute. discriminate.
  - apply Forall_replicate. unfold is_byte. lia.
  - reflexivity.
  - apply Forall_replicate. lia.
Defined.


Lemma unsupported_n_partial_output_witness :
  C_writes (int4pack_mm_kernel AVX2 ones_64 bytes_640 unit_pairs_40
              2 40 32 32 1 (OutBuf (replicate 80 (bf16_of_int 99)) [])).2
  = C_writes (OutBuf (replicate 80 (bf16_of_int 99)) [])
    ++ (irange2 0 (NB AVX2 40 - 1) ≫= tile_addrs AVX2 2 40).
Proof.
  refine (proj1 (proj2 (@unsupported_n_partial_output binary32 AVX2 ones_64 bytes_640
                   unit_pairs_40 2 40 32 32 (OutBuf (replicate 80 (bf16_of_int 99)) [])
                   _ _ _))).
  - lia.
  - lia.
  - vm_compute. discriminate.
Defined.

Lemma empty_reduction_stores_zero_witness :
  load (C_data (int4pack_mm_kernel AVX512 [] [] [] 1 16 0 32 1
                  (OutBuf (replicate 16 (bf16_of_int 99)) [])).2) (0 * 16 + 5)
  = float_to_bf16 (float_of_int 0).
Proof.
  apply (@empty_reduction_stores_zero binary32 AVX512 [] [] [] 1 16 0 32 1
           (replicate 16 (bf16_of_int 99)) [] 0 5).
  - lia.
  - lia.
  - lia.
  - lia.
  - reflexivity.
  - reflexivity.
  - lia.
  - lia.
Defined.

Lemma adjacent_block_pairing_witness :
  Z.land (load (weight_to_int4pack_kernel AVX512 (replicate 8 0) (replicate 16 15) 16 1)
            ((0 * 1 * BLOCK_N AVX512) `quot` 2
             + ((0 * Z.min (BLOCK_N AVX512) (16 - 0 * BLOCK_N AVX512)) `quot` 2 + 2 `quot` 2)))
    15
  = load (replicate 16 15) ((0 * BLOCK_N AVX512 + 2) * 1 + 0).
Proof.
  refine (proj1 (adjacent_block_pairing AVX512 (replicate 8 0) (replicate 16 15) 16 1 0 0 2
                   _ _ _ _ _ _ _ _ _)).
  - reflexivity.
  - reflexivity.
  - lia.
  - lia.
  - vm_compute. split; [discriminate|reflexivity].
  - reflexivity.
  - vm_compute. discriminate.
  - reflexivity.
  - apply Forall_replicate. lia.
Defined.

Lemma chunking_is_irrelevant_witness :
  int4pack_mm_kernel AVX2 ones_64 (replicate 768 255)
    (mjoin (replicate 48 [bf16_of_int 1; bf16_of_int 0])) 2 48 32 32 1
    (OutBuf (replicate 96 (bf16_of_int 99)) [])
  = int4pack_mm_kernel AVX2 ones_64 (replicate 768 255)
      (mjoin (replicate 48 [bf16_of_int 1; bf16_of_int 0])) 2 48 32 32 3
      (OutBuf (replicate 96 (bf16_of_int 99)) []).
Proof.
  refine (proj2 (@chunking_is_irrelevant binary32 AVX2 ones_64 (replicate 768 255)
                   (mjoin (replicate 48 [bf16_of_int 1; bf16_of_int 0])) 2 48 32 32 1 3
                   (OutBuf (replicate 96 (bf16_of_int 99)) []) _ _ _ _ _)).
  - lia.
  - lia.
  - lia.
  - lia.
  - reflexivity.
Defined.

Lemma empty_output_no_store_witness :
  int4pack_mm_kernel DEFAULT ones_32 [] unit_pairs_16 0 16 32 32 4
    (OutBuf (replicate 16 (bf16_of_int 99)) [])
  = (Done, OutBuf (replicate 16 (bf16_of_int 99)) []).
Proof. apply empty_output_no_store; [lia|]. left. lia. Defined.

Lemma output_frame_witness :
  length (C_data (int4pack_mm_kernel AVX512 ones_32 (replicate 256 255) unit_pairs_16
                    1 16 32 32 2 (OutBuf (replicate 20 (bf16_of_int 99)) [])).2)
  = length (replicate 20 (bf16_of_int 99)).
Proof.
  refine (proj1 (@output_frame binary32 AVX512 ones_32 (replicate 256 255) unit_pairs_16
                   1 16 32 32 2 (replicate 20 (bf16_of_int 99)) [] _ _ _ _)).
  - lia.
  - lia.
  - lia.
  - reflexivity.
Defined.

Lemma packer_frame_witness :
  length (weight_to_int4pack_kernel AVX2 (replicate 256 0) (replicate 512 15) 16 32)
  = length (replicate 256 0).
Proof. exact (proj1 (packer_frame AVX2 (replicate 256 0) (replicate 512 15) 16 32)). Defined.
